(** * MallocSimulator: an explicit-free-list allocator (mm.c)

    A shallow embedding of [mm.c] and a verification of its block layer,
    free-list layer and policy layer, of its heap checker and of its
    printing routines.

    - Machine words are 64-bit [size_t] values, modelled as [Z] with the
      wrap-around written out ([wrap]).
    - The heap is a word-granular memory [Z -> Z] indexed by byte address;
      every access made by the allocator is an 8-byte access.  The macros
      of mm.c do not check the address they are given; here an access
      outside the region handed out by [mem_sbrk], or a misaligned one, is a
      [Fault]: the allocator owns the bytes below the break and no others.
      A theorem that a call returns therefore says that every access of the
      call stayed inside the region.  Where a result below is a [Fault], the
      address is stated: it is 16 or 25, below the arena of memlib, or
      [(void * )-1].
    - The two globals [heap_start] and [head] are fields of the state, as is
      the state of the memory-extension primitive.
    - Every C function is a computation in a small state-and-fault monad. *)

From Stdlib Require Import ZArith List Lia Bool.
Import ListNotations.
Local Open Scope Z_scope.

(** ** Machine arithmetic *)

Definition modulus : Z := 2 ^ 64.

(** Unsigned 64-bit wrap-around of [size_t] and pointer arithmetic. *)
Definition wrap (x : Z) : Z := x mod modulus.

(** ** Constants and macros of mm.c *)

Definition WSIZE : Z := 8.
Definition DSIZE : Z := 16.
Definition CHUNKSIZE : Z := Z.shiftl 1 12.
Definition OVERHEAD : Z := 16.
Definition MINSIZE : Z := 32.
Definition NULL : Z := 0.

(** [PACK(size, alloc)  ((size) | (alloc))] *)
Definition PACK (size alloc : Z) : Z := Z.lor size alloc.

(** [PADD(p, val)] and [PSUB(p, val)]: unscaled pointer arithmetic. *)
Definition PADD (p val : Z) : Z := wrap (p + val).
Definition PSUB (p val : Z) : Z := wrap (p - val).

(** The size and allocated fields of a tag word: [w & ~0xf] and [w & 0x1]. *)
Definition size_of_word (w : Z) : Z := Z.land w (Z.lnot 15).
Definition alloc_of_word (w : Z) : Z := Z.land w 1.

(** [HDRP(bp)  (PSUB(bp, WSIZE))] *)
Definition HDRP (bp : Z) : Z := PSUB bp WSIZE.

(** ** Allocator state *)

Record state : Type := mkState {
  mem : Z -> Z;            (* contents of memory, one word per byte address *)
  mem_start_brk : Z;       (* first byte of the region (memlib) *)
  mem_brk : Z;             (* one past the last byte handed out (memlib) *)
  mem_max_addr : Z;        (* the region cannot grow past this address (memlib) *)
  heap_start : Z;          (* global [heap_start] *)
  head : Z                 (* global [head] of the explicit free list *)
}.

Definition upd (m : Z -> Z) (a v : Z) : Z -> Z :=
  fun x => if x =? a then v else m x.

Definition with_mem (s : state) (m : Z -> Z) : state :=
  mkState m (mem_start_brk s) (mem_brk s) (mem_max_addr s) (heap_start s) (head s).
Definition with_brk (s : state) (b : Z) : state :=
  mkState (mem s) (mem_start_brk s) b (mem_max_addr s) (heap_start s) (head s).
Definition with_heap_start (s : state) (p : Z) : state :=
  mkState (mem s) (mem_start_brk s) (mem_brk s) (mem_max_addr s) p (head s).
Definition with_head (s : state) (p : Z) : state :=
  mkState (mem s) (mem_start_brk s) (mem_brk s) (mem_max_addr s) (heap_start s) p.

(** ** The monad: state passing with faults and fuel *)

Inductive outcome (A : Type) : Type :=
| Ok (a : A) (s : state)   (* the call returned [a] in state [s] *)
| Fault (addr : Z)         (* an access at [addr], outside the region or misaligned *)
| OutOfFuel.               (* the loop bound was exhausted *)
Arguments Ok {A} a s.
Arguments Fault {A} addr.
Arguments OutOfFuel {A}.

Definition M (A : Type) : Type := state -> outcome A.

Definition ret {A} (a : A) : M A := fun s => Ok a s.

Definition bind {A B} (m : M A) (f : A -> M B) : M B :=
  fun s => match m s with
           | Ok a s' => f a s'
           | Fault x => Fault x
           | OutOfFuel => OutOfFuel
           end.

Notation "x <- m ;; k" := (bind m (fun x => k))
  (at level 61, m at next level, right associativity).
Notation "m ;;; k" := (bind m (fun _ => k))
  (at level 61, right associativity).

(** The 8-byte accesses the allocator is entitled to: aligned ones inside
    the region obtained so far.  This is stricter than the machine, on which
    a store above the break still lands in the arena. *)
Definition valid (s : state) (p : Z) : bool :=
  (mem_start_brk s <=? p) && (p + 8 <=? mem_brk s) && (p mod 8 =? 0).

(** [GET(p)  (*(size_t *)(p))] *)
Definition GET (p : Z) : M Z :=
  fun s => if valid s p then Ok (mem s p) s else Fault p.

(** [PUT(p, val)  (*(size_t *)(p) = (val))] *)
Definition PUT (p v : Z) : M unit :=
  fun s => if valid s p then Ok tt (with_mem s (upd (mem s) p v)) else Fault p.

Definition GET_SIZE (p : Z) : M Z := w <- GET p ;; ret (size_of_word w).
Definition GET_ALLOC (p : Z) : M Z := w <- GET p ;; ret (alloc_of_word w).

(** [FTRP(bp)  (PADD(bp, GET_SIZE(HDRP(bp)) - DSIZE))] *)
Definition FTRP (bp : Z) : M Z :=
  sz <- GET_SIZE (HDRP bp) ;; ret (PADD bp (wrap (sz - DSIZE))).

(** [NEXT_BLKP(bp)  (PADD(bp, GET_SIZE(HDRP(bp))))] *)
Definition NEXT_BLKP (bp : Z) : M Z :=
  sz <- GET_SIZE (HDRP bp) ;; ret (PADD bp sz).

(** [PREV_BLKP(bp)  (PSUB(bp, GET_SIZE((PSUB(bp, DSIZE)))))] *)
Definition PREV_BLKP (bp : Z) : M Z :=
  sz <- GET_SIZE (PSUB bp DSIZE) ;; ret (PSUB bp sz).

(** [GET_SUCC(bp)  (*(char **)((bp) + WSIZE))] and
    [GET_PRED(bp)  (*(char **)(bp))], as r-values and as l-values. *)
Definition GET_SUCC (bp : Z) : M Z := GET (PADD bp WSIZE).
Definition GET_PRED (bp : Z) : M Z := GET bp.
Definition SET_SUCC (bp v : Z) : M unit := PUT (PADD bp WSIZE) v.
Definition SET_PRED (bp v : Z) : M unit := PUT bp v.

Definition get_head : M Z := fun s => Ok (head s) s.
Definition set_head (p : Z) : M unit := fun s => Ok tt (with_head s p).
Definition get_heap_start : M Z := fun s => Ok (heap_start s) s.
Definition set_heap_start (p : Z) : M unit := fun s => Ok tt (with_heap_start s p).

(** ** The memory-extension primitive *)

(** The failure value of the primitive, [(void * )-1]. *)
Definition SBRK_FAILED : Z := modulus - 1.

(** Modelled from the spec: [mem_sbrk] of memlib, which is not part of the
    repository's sources.  "Grow the managed region by N bytes, return start
    address of new bytes or failure"; the region never shrinks and a failed
    request leaves the prior state unchanged.  The region cannot grow past
    [mem_max_addr]. *)
Definition mem_sbrk (incr : Z) : M Z :=
  fun s => if mem_brk s + incr <=? mem_max_addr s
           then Ok (mem_brk s) (with_brk s (mem_brk s + incr))
           else Ok SBRK_FAILED s.

(** ** Free-list layer *)

(** [insert_in_explicit_list] (mm.c, 376-386). *)
Definition insert_in_explicit_list (bp : Z) : M unit :=
  h <- get_head ;;
  SET_SUCC bp h ;;;
  h <- get_head ;;
  (if h =? NULL
   then set_head bp
   else SET_PRED h bp) ;;;
  SET_PRED bp NULL ;;;
  set_head bp.

(** [remove_from_explicit_list] (mm.c, 393-412). *)
Definition remove_from_explicit_list (bp : Z) : M unit :=
  pred <- GET_PRED bp ;;
  succ <- GET_SUCC bp ;;
  if ((pred =? NULL) && (succ =? NULL)) || (pred =? succ) then
    h <- get_head ;;
    if negb (h =? NULL) then set_head NULL else ret tt
  else if negb (pred =? NULL) && (succ =? NULL) then
    SET_SUCC pred NULL
  else if (pred =? NULL) && negb (succ =? NULL) then
    SET_PRED succ NULL ;;;
    set_head succ
  else if negb (pred =? NULL) && negb (succ =? NULL) then
    SET_SUCC pred succ ;;;
    SET_PRED succ pred
  else ret tt.

(** ** Block layer: coalescing *)

(** [coalesce] (mm.c, 281-322).  Every macro is re-evaluated where the C
    text re-evaluates it. *)
Definition coalesce (bp : Z) : M Z :=
  nb <- NEXT_BLKP bp ;;
  next_allocate <- GET_ALLOC (HDRP nb) ;;
  pb <- PREV_BLKP bp ;;
  prev_allocate <- GET_ALLOC (HDRP pb) ;;
  bp' <-
    (if (prev_allocate =? 1) && (next_allocate =? 0) then
       sz <- GET_SIZE (HDRP bp) ;;
       nb <- NEXT_BLKP bp ;;
       nsz <- GET_SIZE (HDRP nb) ;;
       let newsize := wrap (sz + nsz) in
       nb <- NEXT_BLKP bp ;;
       remove_from_explicit_list nb ;;;
       PUT (HDRP bp) (PACK newsize 0) ;;;
       f <- FTRP bp ;;
       PUT f (PACK newsize 0) ;;;
       ret bp
     else if (prev_allocate =? 0) && (next_allocate =? 1) then
       sz <- GET_SIZE (HDRP bp) ;;
       pb <- PREV_BLKP bp ;;
       psz <- GET_SIZE (HDRP pb) ;;
       let newsize := wrap (sz + psz) in
       pb <- PREV_BLKP bp ;;
       remove_from_explicit_list pb ;;;
       f <- FTRP bp ;;
       PUT f (PACK newsize 0) ;;;
       pb <- PREV_BLKP bp ;;
       PUT (HDRP pb) (PACK newsize 0) ;;;
       PREV_BLKP bp
     else if (prev_allocate =? 0) && (next_allocate =? 0) then
       sz <- GET_SIZE (HDRP bp) ;;
       pb <- PREV_BLKP bp ;;
       psz <- GET_SIZE (HDRP pb) ;;
       nb <- NEXT_BLKP bp ;;
       nsz <- GET_SIZE (HDRP nb) ;;
       let newsize := wrap (wrap (sz + psz) + nsz) in
       pb <- PREV_BLKP bp ;;
       remove_from_explicit_list pb ;;;
       nb <- NEXT_BLKP bp ;;
       remove_from_explicit_list nb ;;;
       bp' <- PREV_BLKP bp ;;
       PUT (HDRP bp') (PACK newsize 0) ;;;
       f <- FTRP bp' ;;
       PUT f (PACK newsize 0) ;;;
       ret bp'
     else ret bp) ;;
  insert_in_explicit_list bp' ;;;
  ret bp'.

(** ** Policy layer *)

(** [place] (mm.c, 234-269). *)
Definition place (bp asize : Z) : M unit :=
  currsize <- GET_SIZE (HDRP bp) ;;
  let newsize := wrap (currsize - asize) in
  if (asize =? currsize) || (newsize <? MINSIZE) then
    PUT (HDRP bp) (PACK currsize 1) ;;;
    f <- FTRP bp ;;
    PUT f (PACK currsize 1) ;;;
    remove_from_explicit_list bp
  else
    PUT (HDRP bp) (PACK asize 1) ;;;
    f <- FTRP bp ;;
    PUT f (PACK asize 1) ;;;
    remove_from_explicit_list bp ;;;
    bp <- NEXT_BLKP bp ;;
    PUT (HDRP bp) (PACK newsize 0) ;;;
    f <- FTRP bp ;;
    PUT f (PACK newsize 0) ;;;
    _ <- coalesce bp ;;
    ret tt.

(** The loop of [find_fit] (mm.c, 334-339); [fuel] bounds the number of
    iterations. *)
Fixpoint find_fit_loop (fuel : nat) (asize cur_block : Z) : M Z :=
  match fuel with
  | O => fun _ => OutOfFuel
  | S fuel' =>
      if cur_block =? NULL then ret NULL
      else
        sz <- GET_SIZE (HDRP cur_block) ;;
        if asize <=? sz then ret cur_block
        else
          nxt <- GET_SUCC cur_block ;;
          find_fit_loop fuel' asize nxt
  end.

(** [find_fit] (mm.c, 331-342). *)
Definition find_fit (fuel : nat) (asize : Z) : M Z :=
  h <- get_head ;;
  find_fit_loop fuel asize h.

(** [extend_heap] (mm.c, 350-369).  [(long)bp < 0] holds of a 64-bit pointer
    value exactly when it is at least [2^63]. *)
Definition extend_heap (words : Z) : M Z :=
  let size := wrap (words * WSIZE) in
  let size := if words mod 2 =? 1 then wrap (size + WSIZE) else size in
  bp <- mem_sbrk size ;;
  if 2 ^ 63 <=? bp then ret NULL
  else
    let size := if size <? MINSIZE then MINSIZE else size in
    PUT (HDRP bp) (PACK size 0) ;;;
    f <- FTRP bp ;;
    PUT f (PACK size 0) ;;;
    nb <- NEXT_BLKP bp ;;
    PUT (HDRP nb) (PACK 0 1) ;;;
    coalesce bp.

(** [max] (mm.c, 508-510). *)
Definition max (x y : Z) : Z := if x >? y then x else y.

(** The adjusted block size computed by [mm_malloc] (mm.c, 159-164), in
    [size_t] arithmetic. *)
Definition adjust (size : Z) : Z :=
  if size <=? DSIZE then wrap (DSIZE + OVERHEAD)
  else wrap (DSIZE * (wrap (wrap (size + OVERHEAD) + (DSIZE - 1)) / DSIZE)).

(** [mm_malloc] (mm.c, 149-179).  [size] is a [size_t]: [0 <= size < 2^64]. *)
Definition mm_malloc (fuel : nat) (size : Z) : M Z :=
  if size <=? 0 then ret NULL
  else
    let asize := adjust size in
    bp <- find_fit fuel asize ;;
    if negb (bp =? NULL) then
      place bp asize ;;;
      ret bp
    else
      let extendsize := max asize CHUNKSIZE in
      bp <- extend_heap (extendsize / WSIZE) ;;
      if bp =? NULL then ret NULL
      else
        place bp asize ;;;
        ret bp.

(** [mm_free] (mm.c, 191-202). *)
Definition mm_free (bp : Z) : M unit :=
  if bp =? NULL then ret tt
  else
    sz <- GET_SIZE (HDRP bp) ;;
    PUT (HDRP bp) (PACK sz 0) ;;;
    sz <- GET_SIZE (HDRP bp) ;;
    f <- FTRP bp ;;
    PUT f (PACK sz 0) ;;;
    _ <- coalesce bp ;;
    ret tt.

(** [mm_init] (mm.c, 117-138); the result is the C [int]. *)
Definition mm_init : M Z :=
  p <- mem_sbrk (4 * WSIZE) ;;
  set_heap_start p ;;;
  if p =? NULL then ret (-1)
  else
    PUT p 0 ;;;
    PUT (PADD p WSIZE) (PACK OVERHEAD 1) ;;;
    PUT (PADD p DSIZE) (PACK OVERHEAD 1) ;;;
    PUT (PADD p (WSIZE + DSIZE)) (PACK 0 1) ;;;
    set_heap_start (PADD p DSIZE) ;;;
    set_head NULL ;;;
    bp <- extend_heap (CHUNKSIZE / WSIZE) ;;
    if bp =? NULL then ret (-1) else ret 0.

(** [mm_realloc] (mm.c, 211-214): the stub. *)
Definition mm_realloc (ptr size : Z) : M Z := ret NULL.

(** ** The heap checker and the printing routines *)

(** What the routines print: one constructor for each [printf] call of mm.c,
    with the values of its arguments.  The character printed for an
    allocated field, ['a'] or ['f'], is recorded as a boolean.  A routine
    returns what it printed along with its result. *)
Inductive message : Type :=
| bad_prologue (line : Z)
| bad_epilogue (line : Z)
| not_aligned (line bp : Z)
| tags_differ (line : Z)
| heap_title (hs : Z)
| block_end (bp : Z)
| block_line (bp hsize : Z) (halloc : bool) (fsize : Z) (falloc : bool)
| free_list_title
| head_line (h : Z)
| element_line (i bp : Z).

(** [check_block] (mm.c, 445-455): the result and what was printed. *)
Definition check_block (line bp : Z) : M (bool * list message) :=
  if negb (bp mod DSIZE =? 0) then ret (false, [not_aligned line bp])
  else
    h <- GET (HDRP bp) ;;
    f <- FTRP bp ;;
    w <- GET f ;;
    if negb (h =? w) then ret (false, [tags_differ line])
    else ret (true, []).

(** The loop of [check_heap] and the test of the epilogue after it (mm.c,
    428-439); [fuel] bounds the number of iterations. *)
Fixpoint check_heap_loop (fuel : nat) (line bp : Z) : M (bool * list message) :=
  match fuel with
  | O => fun _ => OutOfFuel
  | S fuel' =>
      sz <- GET_SIZE (HDRP bp) ;;
      if sz >? 0 then
        r <- check_block line bp ;;
        if negb (fst r) then ret (false, snd r)
        else
          nb <- NEXT_BLKP bp ;;
          r' <- check_heap_loop fuel' line nb ;;
          ret (fst r', snd r ++ snd r')
      else
        sz <- GET_SIZE (HDRP bp) ;;
        if negb (sz =? 0) then ret (false, [bad_epilogue line])
        else
          al <- GET_ALLOC (HDRP bp) ;;
          if al =? 0 then ret (false, [bad_epilogue line])
          else ret (true, [])
  end.

(** [check_heap] (mm.c, 420-440). *)
Definition check_heap (fuel : nat) (line : Z) : M (bool * list message) :=
  hs <- get_heap_start ;;
  sz <- GET_SIZE (HDRP hs) ;;
  if negb (sz =? DSIZE) then ret (false, [bad_prologue line])
  else
    hs <- get_heap_start ;;
    al <- GET_ALLOC (HDRP hs) ;;
    if al =? 0 then ret (false, [bad_prologue line])
    else
      bp <- get_heap_start ;;
      check_heap_loop fuel line bp.

(** [print_block] (mm.c, 475-491). *)
Definition print_block (bp : Z) : M (list message) :=
  hsize <- GET_SIZE (HDRP bp) ;;
  halloc <- GET_ALLOC (HDRP bp) ;;
  f <- FTRP bp ;;
  fsize <- GET_SIZE f ;;
  f <- FTRP bp ;;
  falloc <- GET_ALLOC f ;;
  if hsize =? 0 then ret [block_end bp]
  else ret [block_line bp hsize (negb (halloc =? 0)) fsize (negb (falloc =? 0))].

(** The loop of [print_heap] and the call after it (mm.c, 465-469). *)
Fixpoint print_heap_loop (fuel : nat) (bp : Z) : M (list message) :=
  match fuel with
  | O => fun _ => OutOfFuel
  | S fuel' =>
      sz <- GET_SIZE (HDRP bp) ;;
      if sz >? 0 then
        out <- print_block bp ;;
        nb <- NEXT_BLKP bp ;;
        rest <- print_heap_loop fuel' nb ;;
        ret (out ++ rest)
      else print_block bp
  end.

(** [print_heap] (mm.c, 460-470). *)
Definition print_heap (fuel : nat) : M (list message) :=
  hs <- get_heap_start ;;
  bp <- get_heap_start ;;
  rest <- print_heap_loop fuel bp ;;
  ret (heap_title hs :: rest).

(** The C [int] counter of [print_free_list]; the model wraps around where
    C leaves the overflow undefined. *)
Definition wrap_int (x : Z) : Z := (x + 2 ^ 31) mod 2 ^ 32 - 2 ^ 31.

(** The loop of [print_free_list] (mm.c, 498-502). *)
Fixpoint print_free_list_loop (fuel : nat) (i cur_block : Z) : M (list message) :=
  match fuel with
  | O => fun _ => OutOfFuel
  | S fuel' =>
      if cur_block =? NULL then ret []
      else
        nxt <- GET_SUCC cur_block ;;
        rest <- print_free_list_loop fuel' (wrap_int (i + 1)) nxt ;;
        ret (element_line i cur_block :: rest)
  end.

(** [print_free_list] (mm.c, 493-503). *)
Definition print_free_list (fuel : nat) : M (list message) :=
  h <- get_head ;;
  cur <- get_head ;;
  rest <- print_free_list_loop fuel 1 cur ;;
  ret (free_list_title :: head_line h :: rest).

(** ** Initial state *)

(** The state of a process before [mm_init]: a fresh, empty region starting
    at [lo] that may grow up to [hi]; both globals are null. *)
Definition fresh (lo hi : Z) (m0 : Z -> Z) : state :=
  mkState m0 lo lo hi NULL NULL.

(** ** Abstract view of the heap *)

(** A block as its boundary tags describe it: total size in bytes (header and
    footer included) and whether it is allocated. *)
Definition blk : Type := (Z * bool)%type.

Definition tag (x : blk) : Z := PACK (fst x) (Z.b2z (snd x)).

(** Total number of bytes covered by a run of blocks. *)
Fixpoint span (l : list blk) : Z :=
  match l with
  | [] => 0
  | x :: l' => fst x + span l'
  end.

(** The blocks of [l] laid out one after the other from block pointer [bp]. *)
Fixpoint layout (bp : Z) (l : list blk) : list (Z * blk) :=
  match l with
  | [] => []
  | x :: l' => (bp, x) :: layout (bp + fst x) l'
  end.

(** Sizes a block can have: a multiple of the double word that can hold
    header, footer and the two links. *)
Definition sizes_ok (l : list blk) : Prop :=
  Forall (fun x : blk => MINSIZE <= fst x /\ fst x mod DSIZE = 0) l.

(** Memory holds the header and the footer of the block [x] placed at [bp]. *)
Definition tagged_at (m : Z -> Z) (p : Z * blk) : Prop :=
  m (fst p - WSIZE) = tag (snd p) /\
  m (fst p + fst (snd p) - DSIZE) = tag (snd p).

Definition tagged (m : Z -> Z) (bp : Z) (l : list blk) : Prop :=
  Forall (tagged_at m) (layout bp l).

(** Block pointers of the free blocks of a layout. *)
Definition free_addrs (bp : Z) (l : list blk) : list Z :=
  map fst (filter (fun p : Z * blk => negb (snd (snd p))) (layout bp l)).

(** No two neighbouring blocks are both free. *)
Fixpoint no_adj_free (l : list blk) : Prop :=
  match l with
  | [] => True
  | x :: l' =>
      match l' with
      | [] => True
      | y :: _ => (snd x = false -> snd y = true) /\ no_adj_free l'
      end
  end.

(** A segment of the doubly linked free list: starting at [cur], whose
    predecessor link must be [prev], the successor links run through [fl] and
    end in [nxt]. *)
Fixpoint dllseg (m : Z -> Z) (prev cur : Z) (fl : list Z) (nxt : Z) : Prop :=
  match fl with
  | [] => cur = nxt
  | b :: fl' => cur = b /\ m b = prev /\ dllseg m b (m (b + WSIZE)) fl' nxt
  end.

(** The region and the two sentinels: the padding word, the prologue (header
    and footer of an allocated block of [OVERHEAD] bytes) and the epilogue
    header, the last word of the region. *)
Definition framed (s : state) : Prop :=
  0 < mem_start_brk s /\
  mem_start_brk s mod DSIZE = 0 /\
  mem_brk s <= mem_max_addr s /\
  mem_max_addr s < 2 ^ 63 /\
  heap_start s = mem_start_brk s + DSIZE /\
  mem s (mem_start_brk s + WSIZE) = PACK OVERHEAD 1 /\
  mem s (mem_start_brk s + DSIZE) = PACK OVERHEAD 1 /\
  mem s (mem_brk s - WSIZE) = PACK 0 1.

(** The block pointer of the first block after the prologue. *)
Definition first_block (s : state) : Z := mem_start_brk s + 2 * DSIZE.

(** The blocks [l] tile the region between prologue and epilogue, and memory
    holds their tags. *)
Definition tiles (s : state) (l : list blk) : Prop :=
  sizes_ok l /\
  tagged (mem s) (first_block s) l /\
  first_block s + span l = mem_brk s.

(** [fl] is the free list, from the head on: a doubly linked list without
    repetition. *)
Definition free_list (s : state) (fl : list Z) : Prop :=
  dllseg (mem s) NULL (head s) fl NULL /\ NoDup fl.

(** The heap invariant, with the block sequence [l] and the free list [fl]
    it is about. *)
Definition wf (s : state) (l : list blk) (fl : list Z) : Prop :=
  framed s /\
  tiles s l /\
  free_list s fl /\
  (forall b, In b fl <-> In b (free_addrs (first_block s) l)) /\
  no_adj_free l.

Definition WF (s : state) : Prop := exists l fl, wf s l fl.

(** The state in which [coalesce] is entered: the block at the end of [l1],
    of [sz] bytes, carries free tags but is not on the free list yet; only
    its two neighbours may be free next to it. *)
Definition pre_coalesce (s : state) (l1 : list blk) (sz : Z) (l2 : list blk)
    (fl : list Z) : Prop :=
  framed s /\
  tiles s (l1 ++ (sz, false) :: l2) /\
  free_list s fl /\
  (forall b, In b fl <->
             In b (free_addrs (first_block s) l1) \/
             In b (free_addrs (first_block s + span l1 + sz) l2)) /\
  no_adj_free l1 /\ no_adj_free l2.

(** Weakest precondition of a computation: it returns, and the result and
    the final state satisfy [Q]. *)
Definition wp {A} (m : M A) (Q : A -> state -> Prop) (s : state) : Prop :=
  match m s with
  | Ok a s' => Q a s'
  | Fault _ => False
  | OutOfFuel => False
  end.

(** Fields of the state that no access to memory changes. *)
Definition same_region (s s' : state) : Prop :=
  mem_start_brk s' = mem_start_brk s /\
  mem_brk s' = mem_brk s /\
  mem_max_addr s' = mem_max_addr s /\
  heap_start s' = heap_start s.

(** [a] is one of the two link words of a block pointer of [fl]. *)
Definition link_slot (fl : list Z) (a : Z) : Prop :=
  exists b, In b fl /\ (a = b \/ a = b + WSIZE).

(** A block pointer whose two link words lie in the region. *)
Definition slot_ok (s : state) (b : Z) : Prop :=
  mem_start_brk s <= b /\ b + DSIZE <= mem_brk s /\ b mod DSIZE = 0.

(** ** Derived notions used by the specifications *)

(** Every member of the free list is the block pointer of a free block of
    the layout. *)
Definition free_sub (s : state) (l : list blk) (fl : list Z) : Prop :=
  forall b, In b fl -> In b (free_addrs (first_block s) l).

(** What [coalesce] leaves behind when entered at the block of [sz] bytes
    between [l1] and [l2]: one free block at [b'] that covers that block
    together with a free predecessor ([psz] bytes, or none) and a free
    successor ([nsz] bytes, or none). *)
Definition merged (fb : Z) (l1 : list blk) (sz : Z) (l2 : list blk)
    (l' : list blk) (b' : Z) : Prop :=
  exists l1' psz l2' nsz,
    l' = l1' ++ (psz + sz + nsz, false) :: l2' /\ b' = fb + span l1' /\
    (l1' = l1 /\ psz = 0 /\ snd (last l1 (OVERHEAD, true)) = true \/
     l1 = l1' ++ [(psz, false)]) /\
    (l2' = l2 /\ nsz = 0 /\ snd (hd (0, true) l2) = true \/
     l2 = (nsz, false) :: l2').

(** What [place] leaves behind: either the whole block allocated, or the
    first [asize] bytes allocated and the remainder free, merged with a free
    successor. *)
Definition placed (l1 : list blk) (sz asize : Z) (l2 : list blk) (l' : list blk) : Prop :=
  (sz - asize < MINSIZE /\ l' = l1 ++ (sz, true) :: l2) \/
  (MINSIZE <= sz - asize /\
   exists nsz l2',
     l' = l1 ++ (asize, true) :: (sz - asize + nsz, false) :: l2' /\
     (l2' = l2 /\ nsz = 0 /\ snd (hd (0, true) l2) = true \/
      l2 = (nsz, false) :: l2')).

(** The first member of [fl] whose header records at least [asize] bytes,
    or null. *)
Fixpoint first_fit (m : Z -> Z) (asize : Z) (fl : list Z) : Z :=
  match fl with
  | [] => NULL
  | b :: fl' =>
      if asize <=? size_of_word (m (b - WSIZE)) then b
      else first_fit m asize fl'
  end.

(** The number of bytes [extend_heap] asks [mem_sbrk] for (mm.c, 355-357). *)
Definition extend_bytes (words : Z) : Z :=
  let size := wrap (words * WSIZE) in
  if words mod 2 =? 1 then wrap (size + WSIZE) else size.


(** ** Concrete heaps *)

(** The state a computation ends in (the start state when it does not
    return). *)
Definition run_state {A} (m : M A) (s : state) : state :=
  match m s with
  | Ok _ s' => s'
  | _ => s
  end.

(** A region at address [2^16] that may grow by [room] bytes, with zeroed
    memory, after [mm_init]. *)
Definition demo_heap (room : Z) : state :=
  run_state mm_init (fresh 65536 (65536 + room) (fun _ => 0)).

(** memlib's [MAX_HEAP], 20 MB. *)
Definition MAX_HEAP : Z := 20 * Z.shiftl 1 20.

(** The heap [demo_heap MAX_HEAP] after one allocation of [n] bytes. *)
Definition demo_used (n : Z) : state :=
  run_state (mm_malloc 2 n) (demo_heap MAX_HEAP).

(** The heap [demo_used 100] after the two stores of [mm_free] on its
    allocated block (mm.c, 199-200), before [coalesce] is entered. *)
Definition demo_retagged : state :=
  run_state (PUT (HDRP 65568) (PACK 128 0) ;;;
             PUT (65568 + 128 - DSIZE) (PACK 128 0))
            (demo_used 100).

(** The heap [demo_heap MAX_HEAP] after a client has allocated 16 and 4000
    bytes, stored three words into the larger payload and freed the smaller
    block. *)
Definition demo_client : state :=
  run_state (a <- mm_malloc 2 16 ;;
             b <- mm_malloc 2 4000 ;;
             PUT (PADD b 24) 0 ;;;
             PUT (PADD b 32) 8 ;;;
             PUT (PADD b 40) 0 ;;;
             mm_free a)
            (demo_heap MAX_HEAP).

(** ** Reachable states *)

(** [p] is the block pointer of an allocated block of the heap: what a
    caller may pass to [mm_free]. *)
Definition live_block (s : state) (p : Z) : Prop :=
  exists l1 sz l2 fl,
    wf s (l1 ++ (sz, true) :: l2) fl /\ p = first_block s + span l1.

(** States reached from a fresh region by [mm_init] followed by calls of
    [mm_malloc], with requests whose adjusted size does not wrap around, and
    of [mm_free] on allocated blocks. *)
Inductive reachable (lo hi : Z) (m0 : Z -> Z) : state -> Prop :=
| reach_init s :
    mm_init (fresh lo hi m0) = Ok 0 s -> reachable lo hi m0 s
| reach_malloc s fuel n p s' :
    reachable lo hi m0 s ->
    0 < n -> n + OVERHEAD + (DSIZE - 1) < modulus ->
    mm_malloc fuel n s = Ok p s' -> reachable lo hi m0 s'
| reach_free s p s' :
    reachable lo hi m0 s ->
    live_block s p ->
    mm_free p s = Ok tt s' -> reachable lo hi m0 s'.

(** ** Bytes of blocks *)

(** The bytes of the block at [c] of [sz] bytes, from its header to its
    footer. *)
Definition block_bytes (c sz a : Z) : Prop := c - WSIZE <= a < c + sz - WSIZE.

(** [a] is a byte of a free block of the layout. *)
Definition in_free (bp : Z) (l : list blk) (a : Z) : Prop :=
  exists c sz, In (c, (sz, false)) (layout bp l) /\ block_bytes c sz a.

(** The block at [c] is an allocated block of [sz] bytes of the layout. *)
Definition in_alloc (bp : Z) (l : list blk) (c sz : Z) : Prop :=
  In (c, (sz, true)) (layout bp l).

(** Every allocated block of [l] is an allocated block of [l'], at the same
    address and of the same size. *)
Definition keeps_allocated (bp : Z) (l l' : list blk) : Prop :=
  forall c sz, in_alloc bp l c sz -> in_alloc bp l' c sz.

(** ** What the checker and the printing routines are specified with *)

(** The line [print_block] prints for a block whose footer agrees with its
    header. *)
Definition line_of (p : Z * blk) : message :=
  block_line (fst p) (fst (snd p)) (snd (snd p)) (fst (snd p)) (snd (snd p)).

(** The lines [print_free_list] prints for the members [fl], numbered from
    [i]. *)
Fixpoint numbered (i : Z) (fl : list Z) : list message :=
  match fl with
  | [] => []
  | b :: fl' => element_line i b :: numbered (i + 1) fl'
  end.

(** What [check_block] accepts: an aligned block pointer whose header word
    equals its footer word. *)
Definition checked_block (m : Z -> Z) (bp : Z) : Prop :=
  bp mod DSIZE = 0 /\
  m (HDRP bp) = m (PADD bp (wrap (size_of_word (m (HDRP bp)) - DSIZE))).

(** [n] accepted blocks of positive size in a row, from [bp] up to [e]. *)
Fixpoint block_chain (m : Z -> Z) (n : nat) (bp e : Z) : Prop :=
  match n with
  | O => bp = e
  | S n' =>
      0 < size_of_word (m (HDRP bp)) /\ checked_block m bp /\
      block_chain m n' (PADD bp (size_of_word (m (HDRP bp)))) e
  end.

(** * Proofs *)

Ltac Zify.zify_post_hook ::= Z.to_euclidean_division_equations.

(** ** Words and tags *)

Lemma modulus_eq : modulus = 18446744073709551616.
Proof. reflexivity. Qed.

Lemma wrap_small (x : Z) : 0 <= x < 18446744073709551616 -> wrap x = x.
Proof. intros H. unfold wrap. rewrite modulus_eq. apply Z.mod_small. exact H. Qed.

Lemma size_of_word_eq (w : Z) : size_of_word w = 16 * (w / 16).
Proof.
  unfold size_of_word. rewrite <- Z.ldiff_land.
  change 15 with (Z.ones 4). rewrite Z.ldiff_ones_r by lia.
  rewrite Z.shiftr_div_pow2, Z.shiftl_mul_pow2 by lia.
  change (2 ^ 4) with 16. lia.
Qed.

Lemma alloc_of_word_eq (w : Z) : alloc_of_word w = w mod 2.
Proof.
  unfold alloc_of_word. change 1 with (Z.ones 1) at 1.
  rewrite Z.land_ones by lia. reflexivity.
Qed.

Lemma PACK_eq (sz a : Z) :
  0 <= sz -> sz mod 16 = 0 -> 0 <= a < 16 -> PACK sz a = sz + a.
Proof.
  intros Hsz Hmod Ha. unfold PACK.
  pose proof (Z.add_lor_land sz a) as H.
  assert (Hl : Z.land sz a = 0).
  { apply Z.bits_inj'. intros n Hn. rewrite Z.land_spec, Z.bits_0.
    destruct (Z_lt_le_dec n 4) as [Hlt | Hge].
    - replace sz with (16 * (sz / 16)) by lia.
      change 16 with (2 ^ 4). rewrite Z.mul_comm, Z.mul_pow2_bits_low by lia.
      reflexivity.
    - assert (Z.testbit a n = false) as ->; [| apply andb_false_r].
      destruct (Z.eq_dec a 0) as [-> | Hnz]; [apply Z.bits_0 |].
      apply Z.bits_above_log2; [lia |].
      assert (Z.log2 a < 4); [| lia].
      apply Z.log2_lt_pow2; [lia | change (2 ^ 4) with 16; lia]. }
  lia.
Qed.

Lemma b2z_range (a : bool) : 0 <= Z.b2z a < 2.
Proof. destruct a; simpl; lia. Qed.

Lemma tag_eq (x : blk) :
  0 <= fst x -> fst x mod 16 = 0 -> tag x = fst x + Z.b2z (snd x).
Proof.
  intros. unfold tag. apply PACK_eq; auto. pose proof (b2z_range (snd x)). lia.
Qed.

Lemma size_of_tag (sz a : Z) :
  0 <= sz -> sz mod 16 = 0 -> 0 <= a < 16 -> size_of_word (PACK sz a) = sz.
Proof. intros. rewrite PACK_eq, size_of_word_eq by assumption. lia. Qed.

Lemma alloc_of_tag (sz a : Z) :
  0 <= sz -> sz mod 16 = 0 -> 0 <= a < 2 -> alloc_of_word (PACK sz a) = a.
Proof. intros. rewrite PACK_eq, alloc_of_word_eq by lia. lia. Qed.

(** ** Weakest preconditions *)

Lemma wp_ret {A} (a : A) (Q : A -> state -> Prop) s : Q a s -> wp (ret a) Q s.
Proof. exact (fun H => H). Qed.

Lemma wp_bind {A B} (m : M A) (f : A -> M B) (Q : B -> state -> Prop) s :
  wp m (fun a s' => wp (f a) Q s') s -> wp (bind m f) Q s.
Proof. unfold wp, bind. destruct (m s); auto. Qed.

Lemma wp_conseq {A} (m : M A) (P Q : A -> state -> Prop) s :
  wp m P s -> (forall a s', P a s' -> Q a s') -> wp m Q s.
Proof. unfold wp. destruct (m s); auto. Qed.

Lemma wp_elim {A} (m : M A) (Q : A -> state -> Prop) s :
  wp m Q s -> exists a s', m s = Ok a s' /\ Q a s'.
Proof. unfold wp. destruct (m s); try contradiction. eauto. Qed.

Lemma wp_intro {A} (m : M A) (Q : A -> state -> Prop) s a s' :
  m s = Ok a s' -> Q a s' -> wp m Q s.
Proof. unfold wp. intros ->. auto. Qed.

Lemma valid_iff s p :
  valid s p = true <-> mem_start_brk s <= p /\ p + 8 <= mem_brk s /\ p mod 8 = 0.
Proof.
  unfold valid. rewrite !andb_true_iff, !Z.leb_le, Z.eqb_eq. tauto.
Qed.

Lemma wp_GET p (Q : Z -> state -> Prop) s :
  mem_start_brk s <= p /\ p + 8 <= mem_brk s /\ p mod 8 = 0 ->
  Q (mem s p) s -> wp (GET p) Q s.
Proof. intros Hv HQ. unfold wp, GET. apply valid_iff in Hv. rewrite Hv. exact HQ. Qed.

Lemma wp_PUT p v (Q : unit -> state -> Prop) s :
  mem_start_brk s <= p /\ p + 8 <= mem_brk s /\ p mod 8 = 0 ->
  Q tt (with_mem s (upd (mem s) p v)) -> wp (PUT p v) Q s.
Proof. intros Hv HQ. unfold wp, PUT. apply valid_iff in Hv. rewrite Hv. exact HQ. Qed.

Lemma upd_same m a v : upd m a v a = v.
Proof. unfold upd. rewrite Z.eqb_refl. reflexivity. Qed.

Lemma upd_other m a v x : x <> a -> upd m a v x = m x.
Proof. unfold upd. intros H. apply Z.eqb_neq in H. rewrite H. reflexivity. Qed.

(** ** Layouts *)

Lemma span_app l1 l2 : span (l1 ++ l2) = span l1 + span l2.
Proof. induction l1 as [| x l1 IH]; simpl; lia. Qed.

Lemma layout_app bp l1 l2 :
  layout bp (l1 ++ l2) = layout bp l1 ++ layout (bp + span l1) l2.
Proof.
  revert bp. induction l1 as [| x l1 IH]; intros bp; simpl.
  - f_equal. lia.
  - rewrite IH. do 3 f_equal. lia.
Qed.

Lemma sizes_ok_span l : sizes_ok l -> 0 <= span l.
Proof.
  unfold sizes_ok, MINSIZE. induction 1 as [| x l [Hx _] _ IH]; simpl; lia.
Qed.

Lemma sizes_ok_app l1 l2 : sizes_ok (l1 ++ l2) <-> sizes_ok l1 /\ sizes_ok l2.
Proof. apply Forall_app. Qed.

Lemma sizes_ok_cons x l :
  sizes_ok (x :: l) <-> (32 <= fst x /\ fst x mod 16 = 0) /\ sizes_ok l.
Proof. unfold sizes_ok. apply Forall_cons_iff. Qed.

Lemma tagged_app m bp l1 l2 :
  tagged m bp (l1 ++ l2) <-> tagged m bp l1 /\ tagged m (bp + span l1) l2.
Proof. unfold tagged. rewrite layout_app. apply Forall_app. Qed.

Lemma tagged_cons m bp x l :
  tagged m bp (x :: l) <->
  (m (bp - 8) = tag x /\ m (bp + fst x - 16) = tag x) /\ tagged m (bp + fst x) l.
Proof. unfold tagged. simpl. apply Forall_cons_iff. Qed.

Lemma layout_bounds l : forall bp b x,
  sizes_ok l -> In (b, x) (layout bp l) ->
  bp <= b /\ b + fst x <= bp + span l /\ 32 <= fst x /\ fst x mod 16 = 0.
Proof.
  induction l as [| y l IH]; intros bp b x Hs Hin; simpl in *; [contradiction |].
  apply sizes_ok_cons in Hs. destruct Hs as [Hy Hs].
  pose proof (sizes_ok_span l Hs).
  destruct Hin as [Heq | Hin].
  - inversion Heq; subst. lia.
  - specialize (IH _ _ _ Hs Hin). lia.
Qed.

(** Two blocks of a layout are the same block or do not overlap. *)
Lemma layout_disjoint l : forall bp b x b' x',
  sizes_ok l -> In (b, x) (layout bp l) -> In (b', x') (layout bp l) ->
  (b = b' /\ x = x') \/ b + fst x <= b' \/ b' + fst x' <= b.
Proof.
  induction l as [| y l IH]; intros bp b x b' x' Hs H1 H2; simpl in *; [contradiction |].
  pose proof Hs as Hs0.
  apply sizes_ok_cons in Hs. destruct Hs as [Hy Hs].
  destruct H1 as [E1 | H1], H2 as [E2 | H2].
  - inversion E1; inversion E2; subst. auto.
  - inversion E1; subst. pose proof (layout_bounds _ _ _ _ Hs H2). lia.
  - inversion E2; subst. pose proof (layout_bounds _ _ _ _ Hs H1). lia.
  - eauto.
Qed.

Lemma In_layout_split l : forall bp b x,
  In (b, x) (layout bp l) ->
  exists l1 l2, l = l1 ++ x :: l2 /\ b = bp + span l1.
Proof.
  induction l as [| y l IH]; intros bp b x Hin; simpl in *; [contradiction |].
  destruct Hin as [E | Hin].
  - inversion E; subst. exists [], l. simpl. split; [reflexivity | lia].
  - destruct (IH _ _ _ Hin) as (l1 & l2 & -> & ->).
    exists (y :: l1), l2. simpl. split; [reflexivity | lia].
Qed.

Lemma In_layout_mid bp l1 x l2 :
  In (bp + span l1, x) (layout bp (l1 ++ x :: l2)).
Proof. rewrite layout_app. apply in_or_app. right. simpl. auto. Qed.

Lemma free_addrs_app bp l1 l2 :
  free_addrs bp (l1 ++ l2) = free_addrs bp l1 ++ free_addrs (bp + span l1) l2.
Proof. unfold free_addrs. rewrite layout_app, filter_app, map_app. reflexivity. Qed.

Lemma free_addrs_cons bp x l :
  free_addrs bp (x :: l) =
  (if snd x then [] else [bp]) ++ free_addrs (bp + fst x) l.
Proof. unfold free_addrs. simpl. destruct (snd x); reflexivity. Qed.

Lemma In_free_addrs bp l b :
  In b (free_addrs bp l) <-> exists sz, In (b, (sz, false)) (layout bp l).
Proof.
  unfold free_addrs. rewrite in_map_iff. split.
  - intros ([b' [sz a]] & E & Hin). simpl in E. subst b'.
    apply filter_In in Hin. destruct Hin as [Hin Ha]. simpl in Ha.
    destruct a; [discriminate |]. eauto.
  - intros (sz & Hin). exists (b, (sz, false)). split; [reflexivity |].
    apply filter_In. auto.
Qed.

Lemma free_addrs_bounds bp l b :
  sizes_ok l -> In b (free_addrs bp l) -> bp <= b /\ b + 32 <= bp + span l.
Proof.
  intros Hs Hin. apply In_free_addrs in Hin. destruct Hin as (sz & Hin).
  pose proof (layout_bounds _ _ _ _ Hs Hin) as H. simpl in H. lia.
Qed.

(** ** Doubly linked segments *)

Lemma last_cons {A} (l : list A) : forall (b d : A), last (b :: l) d = last l b.
Proof.
  induction l as [| c l IH]; intros b d; [reflexivity |].
  change (last (b :: c :: l) d) with (last (c :: l) d).
  rewrite !IH. reflexivity.
Qed.

Lemma dllseg_app m f1 : forall prev cur f2 nxt,
  dllseg m prev cur (f1 ++ f2) nxt <->
  exists mid, dllseg m prev cur f1 mid /\ dllseg m (last f1 prev) mid f2 nxt.
Proof.
  induction f1 as [| b f1 IH]; intros prev cur f2 nxt.
  - simpl. split.
    + intros H. exists cur. auto.
    + intros (mid & -> & H). exact H.
  - change ((b :: f1) ++ f2) with (b :: f1 ++ f2).
    cbn [dllseg]. rewrite IH.
    rewrite last_cons.
    split.
    + intros (Hc & Hp & mid & H1 & H2). exists mid. auto.
    + intros (mid & (Hc & Hp & H1) & H2). eauto.
Qed.

Lemma dllseg_frame m m' fl : forall prev cur nxt,
  (forall b, In b fl -> m' b = m b /\ m' (b + WSIZE) = m (b + WSIZE)) ->
  dllseg m prev cur fl nxt -> dllseg m' prev cur fl nxt.
Proof.
  induction fl as [| b fl IH]; intros prev cur nxt Hf H; simpl in *; [exact H |].
  destruct H as (Hc & Hp & H).
  destruct (Hf b (or_introl eq_refl)) as [E1 E2].
  rewrite E1, E2. repeat split; auto.
Qed.

(** The successor link that closes a segment can be redirected. *)
Lemma dllseg_snoc m prev cur f b nxt :
  dllseg m prev cur (f ++ [b]) nxt <->
  dllseg m prev cur f b /\ m b = last f prev /\ m (b + WSIZE) = nxt.
Proof.
  rewrite dllseg_app. simpl. split.
  - intros (mid & H1 & -> & Hp & Hn). auto.
  - intros (H1 & Hp & Hn). exists b. auto.
Qed.

Lemma last_snoc {A} (l : list A) (x d : A) : last (l ++ [x]) d = x.
Proof.
  induction l as [| y l IH]; [reflexivity |]. simpl. rewrite IH.
  destruct (l ++ [x]) eqn:E; [destruct l; discriminate | reflexivity].
Qed.

(** ** Symbolic execution *)

Lemma upd_hit m a v x : x = a -> upd m a v x = v.
Proof. intros ->. apply upd_same. Qed.

Ltac upd_simpl :=
  repeat match goal with
    | |- context [upd ?m ?a ?v ?x] =>
        first [ rewrite (upd_hit m a v x) by lia
              | rewrite (upd_other m a v x) by lia ]
    end.

Ltac proj_simpl :=
  cbn [mem mem_start_brk mem_brk mem_max_addr heap_start head
       with_mem with_brk with_head with_heap_start].

Lemma wp_get_head (Q : Z -> state -> Prop) s : Q (head s) s -> wp get_head Q s.
Proof. exact (fun H => H). Qed.

Lemma wp_set_head p (Q : unit -> state -> Prop) s :
  Q tt (with_head s p) -> wp (set_head p) Q s.
Proof. exact (fun H => H). Qed.

Lemma PADD_small p v : 0 <= p + v < 18446744073709551616 -> PADD p v = p + v.
Proof. apply wrap_small. Qed.

Lemma PSUB_small p v : 0 <= p - v < 18446744073709551616 -> PSUB p v = p - v.
Proof. apply wrap_small. Qed.

Lemma HDRP_small p : 8 <= p < 18446744073709551616 -> HDRP p = p - 8.
Proof. intros. unfold HDRP, WSIZE. apply PSUB_small. lia. Qed.

Ltac consts := unfold WSIZE, DSIZE, OVERHEAD, MINSIZE, NULL in *.

(** One step of symbolic execution; memory accesses leave their bounds as
    side conditions. *)
Ltac wp_step :=
  proj_simpl;
  lazymatch goal with
  | |- wp (bind _ _) _ _ => apply wp_bind
  | |- wp (ret _) _ _ => apply wp_ret
  | |- wp get_head _ _ => apply wp_get_head
  | |- wp (set_head _) _ _ => apply wp_set_head; proj_simpl
  | |- wp (GET _) _ _ => apply wp_GET; [proj_simpl; lia |]
  | |- wp (PUT _ _) _ _ => apply wp_PUT; [proj_simpl; lia |]
  | |- wp (GET_SUCC _) _ _ => unfold GET_SUCC
  | |- wp (GET_PRED _) _ _ => unfold GET_PRED
  | |- wp (SET_SUCC _ _) _ _ => unfold SET_SUCC
  | |- wp (SET_PRED _ _) _ _ => unfold SET_PRED
  | |- wp (GET_SIZE _) _ _ => unfold GET_SIZE
  | |- wp (GET_ALLOC _) _ _ => unfold GET_ALLOC
  | |- wp (FTRP _) _ _ => unfold FTRP
  | |- wp (NEXT_BLKP _) _ _ => unfold NEXT_BLKP
  | |- wp (PREV_BLKP _) _ _ => unfold PREV_BLKP
  end.

(** ** Free-list layer *)

Lemma slot_ok_region s s' b :
  same_region s s' -> slot_ok s b -> slot_ok s' b.
Proof. unfold same_region, slot_ok. intros (-> & -> & _). auto. Qed.

Lemma same_region_refl s : same_region s s.
Proof. unfold same_region. auto. Qed.

Lemma same_region_trans s1 s2 s3 :
  same_region s1 s2 -> same_region s2 s3 -> same_region s1 s3.
Proof. unfold same_region. intuition congruence. Qed.

Lemma not_link_slot_cons x fl a :
  ~ link_slot (x :: fl) a -> a <> x /\ a <> x + 8 /\ ~ link_slot fl a.
Proof.
  unfold link_slot, WSIZE. intros H. repeat split.
  - intros ->. apply H. exists x. simpl. auto.
  - intros ->. apply H. exists x. simpl. auto.
  - intros (b & Hb & E). apply H. exists b. simpl. auto.
Qed.

Lemma not_link_slot_In fl a b :
  ~ link_slot fl a -> In b fl -> a <> b /\ a <> b + 8.
Proof.
  unfold link_slot, WSIZE. intros H Hb. split; intros ->; apply H; eauto.
Qed.

(** [insert_in_explicit_list] pushes [x] on the front of the free list and
    writes link words only. *)
Lemma wp_insert x fl s (Q : unit -> state -> Prop) :
  free_list s fl -> ~ In x fl -> slot_ok s x -> Forall (slot_ok s) fl ->
  0 < mem_start_brk s -> mem_brk s < 2 ^ 63 ->
  (forall s', free_list s' (x :: fl) -> head s' = x -> same_region s s' ->
              (forall a, ~ link_slot (x :: fl) a -> mem s' a = mem s a) ->
              Q tt s') ->
  wp (insert_in_explicit_list x) Q s.
Proof.
  intros [Hdll Hnd] Hx Hsx Hsfl Hlo Hbrk HQ.
  unfold slot_ok in Hsx. consts.
  change (2 ^ 63) with 9223372036854775808 in Hbrk.
  unfold insert_in_explicit_list, SET_SUCC, SET_PRED. consts.
  rewrite PADD_small by lia.
  repeat wp_step. proj_simpl.
  destruct fl as [| h fl'].
  - simpl in Hdll. proj_simpl. rewrite Hdll. change (0 =? 0) with true. cbv iota.
    repeat wp_step.
    apply HQ; proj_simpl.
    + split; [| constructor; [exact Hx | exact Hnd]].
      proj_simpl. simpl. consts. upd_simpl. auto.
    + reflexivity.
    + unfold same_region. proj_simpl. auto.
    + intros a Ha. apply not_link_slot_cons in Ha. upd_simpl. reflexivity.
  - cbn [dllseg] in Hdll. destruct Hdll as (Hh & Hp & Hdll).
    apply Forall_cons_iff in Hsfl. destruct Hsfl as [Hsh Hsfl].
    unfold slot_ok in Hsh. consts.
    rewrite Hh in *.
    assert (Hxh : x <> h) by (intros ->; apply Hx; simpl; auto).
    assert (Hne : (h =? 0) = false) by (apply Z.eqb_neq; lia).
    proj_simpl. rewrite Hne. cbv iota.
    repeat wp_step.
    apply HQ; proj_simpl.
    + split; [| constructor; [exact Hx | exact Hnd]].
      proj_simpl. cbn [dllseg]. consts. upd_simpl. repeat split.
      apply NoDup_cons_iff in Hnd. destruct Hnd as [Hnh Hnd].
      eapply dllseg_frame; [| exact Hdll].
      intros b Hb. consts.
      assert (b <> h) by (intros ->; auto).
      assert (b <> x) by (intros ->; apply Hx; simpl; auto).
      rewrite Forall_forall in Hsfl. specialize (Hsfl b Hb).
      unfold slot_ok in Hsfl. consts.
      upd_simpl. auto.
    + reflexivity.
    + unfold same_region. proj_simpl. auto.
    + intros a Ha. apply not_link_slot_cons in Ha.
      destruct Ha as (Ha1 & Ha2 & Ha3).
      apply not_link_slot_cons in Ha3. upd_simpl. reflexivity.
Qed.

Ltac eqb_dec :=
  repeat match goal with
    | |- context [?a =? ?b] => destruct (Z.eqb_spec a b); try lia
    end;
  cbn [andb orb negb].

Lemma NoDup_app_disjoint {A} (l1 l2 : list A) :
  NoDup (l1 ++ l2) -> forall b, In b l1 -> In b l2 -> False.
Proof.
  induction l1 as [| c l1 IH]; intros Hnd b H1 H2; [contradiction |].
  simpl in Hnd. apply NoDup_cons_iff in Hnd. destruct Hnd as [Hc Hnd].
  destruct H1 as [-> | H1]; [| eauto].
  apply Hc. apply in_or_app. auto.
Qed.

Lemma link_slot_app_l f1 f2 a : link_slot f1 a -> link_slot (f1 ++ f2) a.
Proof. intros (b & Hb & E). exists b. split; auto. apply in_or_app; auto. Qed.

Lemma link_slot_app_r f1 f2 a : link_slot f2 a -> link_slot (f1 ++ f2) a.
Proof. intros (b & Hb & E). exists b. split; auto. apply in_or_app; auto. Qed.

Lemma link_slot_here b fl a : In b fl -> a = b \/ a = b + 8 -> link_slot fl a.
Proof. intros Hb E. exists b. auto. Qed.

(** [remove_from_explicit_list] unlinks a member of the free list and writes
    link words of the remaining members only. *)
Lemma wp_remove x f1 f2 s (Q : unit -> state -> Prop) :
  free_list s (f1 ++ x :: f2) -> Forall (slot_ok s) (f1 ++ x :: f2) ->
  0 < mem_start_brk s -> mem_brk s < 2 ^ 63 ->
  (forall s', free_list s' (f1 ++ f2) -> same_region s s' ->
              (forall a, ~ link_slot (f1 ++ f2) a -> mem s' a = mem s a) ->
              Q tt s') ->
  wp (remove_from_explicit_list x) Q s.
Proof.
  intros [Hdll Hnd] Hs Hlo Hbrk HQ.
  change (2 ^ 63) with 9223372036854775808 in Hbrk.
  apply dllseg_app in Hdll. destruct Hdll as (mid & H1 & H2).
  cbn [dllseg] in H2. destruct H2 as (-> & Hp & H2).
  apply Forall_app in Hs. destruct Hs as [Hs1 Hs2].
  apply Forall_cons_iff in Hs2. destruct Hs2 as [Hsx Hs2].
  apply NoDup_remove in Hnd. destruct Hnd as [Hnd Hnx].
  unfold slot_ok in Hsx. consts.
  unfold remove_from_explicit_list, GET_PRED, GET_SUCC, SET_PRED, SET_SUCC. consts.
  rewrite PADD_small by lia.
  repeat wp_step. rewrite Hp.
  destruct f1 as [| p f1' _] using rev_ind; destruct f2 as [| sc f2'].
  - (* the only member *)
    cbn [dllseg last app] in *. rewrite H2. subst x.
    eqb_dec. repeat wp_step. eqb_dec. repeat wp_step.
    apply HQ; [split; [reflexivity | exact Hnd]
              | unfold same_region; proj_simpl; auto
              | reflexivity].
  - (* the first member *)
    cbn [dllseg last app] in *. destruct H2 as (Hsc & Hpsc & H2). subst x.
    apply Forall_cons_iff in Hs2. destruct Hs2 as [Hssc Hs2].
    unfold slot_ok in Hssc. consts. rewrite Hsc in *.
    eqb_dec. repeat wp_step.
    apply HQ.
    + split; [| exact Hnd]. proj_simpl. cbn [dllseg]. consts. upd_simpl.
      repeat split. eapply dllseg_frame; [| exact H2].
      intros b Hb. consts.
      apply NoDup_cons_iff in Hnd. destruct Hnd as [Hnsc _].
      assert (b <> sc) by (intros ->; auto).
      rewrite Forall_forall in Hs2. specialize (Hs2 b Hb). unfold slot_ok in Hs2.
      consts. upd_simpl. auto.
    + unfold same_region. proj_simpl. auto.
    + intros a Ha. proj_simpl.
      apply not_link_slot_cons in Ha. upd_simpl. reflexivity.
  - (* the last member *)
    rewrite last_snoc in *. rewrite app_nil_r in *.
    cbn [dllseg] in H2. rewrite H2.
    apply dllseg_snoc in H1. destruct H1 as (H1 & Hpp & Hpn).
    apply Forall_app in Hs1. destruct Hs1 as [Hs1 Hsp].
    apply Forall_cons_iff in Hsp. destruct Hsp as [Hsp _].
    unfold slot_ok in Hsp. consts.
    eqb_dec. rewrite PADD_small by lia. repeat wp_step.
    apply HQ.
    + split; [| exact Hnd]. proj_simpl.
      apply dllseg_snoc. consts. upd_simpl. repeat split; auto.
      eapply dllseg_frame; [| exact H1].
      intros b Hb. consts.
      apply NoDup_remove in Hnd. destruct Hnd as [_ Hnp]. rewrite app_nil_r in Hnp.
      assert (b <> p) by (intros ->; auto).
      rewrite Forall_forall in Hs1. specialize (Hs1 b Hb). unfold slot_ok in Hs1.
      consts. upd_simpl. auto.
    + unfold same_region. proj_simpl. auto.
    + intros a Ha. proj_simpl.
      assert (a <> p + 8); [| upd_simpl; reflexivity].
      intros ->. apply Ha. apply link_slot_here with p; [| lia].
      apply in_or_app. right. simpl. auto.
  - (* an inner member *)
    rewrite last_snoc in *.
    cbn [dllseg] in H2. destruct H2 as (Hsc & Hpsc & H2). rewrite Hsc in *.
    apply dllseg_snoc in H1. destruct H1 as (H1 & Hpp & Hpn).
    apply Forall_app in Hs1. destruct Hs1 as [Hs1 Hsp].
    apply Forall_cons_iff in Hsp. destruct Hsp as [Hsp _].
    apply Forall_cons_iff in Hs2. destruct Hs2 as [Hssc Hs2].
    unfold slot_ok in Hsp, Hssc. consts.
    pose proof (NoDup_app_disjoint _ _ Hnd) as Hdis.
    pose proof (NoDup_app_remove_l _ _ Hnd) as Hnd2.
    pose proof (NoDup_app_remove_r _ _ Hnd) as Hnd1.
    pose proof (NoDup_app_disjoint _ _ Hnd1) as Hdis1.
    apply NoDup_cons_iff in Hnd2. destruct Hnd2 as [Hnsc Hnd2].
    assert (Hinp : In p (f1' ++ [p])) by (apply in_or_app; right; simpl; auto).
    assert (Hinsc : In sc (sc :: f2')) by (simpl; auto).
    assert (Hpsc' : p <> sc) by (intros ->; eauto).
    eqb_dec. rewrite PADD_small by lia. repeat wp_step.
    apply HQ.
    + split; [| exact Hnd]. proj_simpl.
      apply dllseg_app. exists sc. rewrite last_snoc. split.
      * apply dllseg_snoc. consts. upd_simpl. repeat split; auto.
        eapply dllseg_frame; [| exact H1].
        intros b Hb. consts.
        assert (b <> p) by (intros ->; apply (Hdis1 p); simpl; auto).
        assert (b <> sc) by (intros ->; apply (Hdis sc); auto; apply in_or_app; auto).
        rewrite Forall_forall in Hs1. specialize (Hs1 b Hb). unfold slot_ok in Hs1.
        consts. upd_simpl. auto.
      * cbn [dllseg]. consts. upd_simpl. repeat split.
        eapply dllseg_frame; [| exact H2].
        intros b Hb. consts.
        assert (b <> p) by (intros ->; apply (Hdis p); simpl; auto).
        assert (b <> sc) by (intros ->; auto).
        rewrite Forall_forall in Hs2. specialize (Hs2 b Hb). unfold slot_ok in Hs2.
        consts. upd_simpl. auto.
    + unfold same_region. proj_simpl. auto.
    + intros a Ha. proj_simpl.
      assert (a <> p + 8).
      { intros ->. apply Ha. apply link_slot_here with p; [| lia].
        apply in_or_app. auto. }
      assert (a <> sc).
      { intros ->. apply Ha. apply link_slot_here with sc; [| lia].
        apply in_or_app. auto. }
      upd_simpl. reflexivity.
Qed.

(** ** Facts about tiled heaps *)

Lemma layout_aligned l : forall bp c x,
  sizes_ok l -> bp mod 16 = 0 -> In (c, x) (layout bp l) -> c mod 16 = 0.
Proof.
  induction l as [| y l IH]; intros bp c x Hs Hbp Hin; simpl in *; [contradiction |].
  apply sizes_ok_cons in Hs. destruct Hs as [Hy Hs].
  destruct Hin as [E | Hin].
  - inversion E; subst. exact Hbp.
  - apply (IH (bp + fst y) c x Hs); [lia | exact Hin].
Qed.

Lemma size_of_word_tag (x : blk) :
  0 <= fst x -> fst x mod 16 = 0 -> size_of_word (tag x) = fst x.
Proof.
  intros. unfold tag. apply size_of_tag; auto.
  pose proof (b2z_range (snd x)). lia.
Qed.

Lemma alloc_of_word_tag (x : blk) :
  0 <= fst x -> fst x mod 16 = 0 -> alloc_of_word (tag x) = Z.b2z (snd x).
Proof.
  intros. unfold tag. apply alloc_of_tag; auto. apply b2z_range.
Qed.

(** What the invariant says about one block of the heap. *)
Lemma block_facts s l c x :
  framed s -> tiles s l -> In (c, x) (layout (first_block s) l) ->
  mem_start_brk s + 32 <= c /\ c + fst x <= mem_brk s /\
  32 <= fst x /\ fst x mod 16 = 0 /\ c mod 16 = 0 /\
  mem s (c - 8) = tag x /\ mem s (c + fst x - 16) = tag x.
Proof.
  intros Hf (Hs & Ht & He) Hin.
  destruct Hf as (Hlo & Hal & _).
  unfold first_block in *. consts.
  pose proof (layout_bounds _ _ _ _ Hs Hin) as Hb.
  assert (Hfb : (mem_start_brk s + 2 * 16) mod 16 = 0) by lia.
  pose proof (layout_aligned _ _ _ _ Hs Hfb Hin) as Ha.
  unfold tagged in Ht. rewrite Forall_forall in Ht.
  specialize (Ht _ Hin). unfold tagged_at in Ht. consts. simpl in Ht.
  repeat split; try lia; tauto.
Qed.

(** A link word of a free-list member lies in the first two payload words of
    a free block. *)
Lemma link_slot_block bp l fl a :
  (forall b, In b fl -> In b (free_addrs bp l)) -> link_slot fl a ->
  exists c sz, In (c, (sz, false)) (layout bp l) /\ (a = c \/ a = c + 8).
Proof.
  intros Hsub (b & Hb & E). apply Hsub in Hb. apply In_free_addrs in Hb.
  destruct Hb as (sz & Hin). exists b, sz. auto.
Qed.

(** Inside a block only its first two payload words can be link words. *)
Lemma not_slot_in_block bp l fl c x a :
  sizes_ok l -> (forall b, In b fl -> In b (free_addrs bp l)) ->
  In (c, x) (layout bp l) ->
  c - 8 <= a < c + fst x - 8 -> a <> c -> a <> c + 8 -> ~ link_slot fl a.
Proof.
  intros Hs Hsub Hin Hr H1 H2 Hl.
  destruct (link_slot_block _ _ _ _ Hsub Hl) as (c' & sz' & Hin' & E).
  pose proof (layout_bounds _ _ _ _ Hs Hin').
  pose proof (layout_disjoint _ _ _ _ _ _ Hs Hin Hin') as [[-> _] | D]; simpl in *; lia.
Qed.

(** The first two payload words of a block that is not on the list. *)
Lemma not_slot_own bp l fl c x a :
  sizes_ok l -> (forall b, In b fl -> In b (free_addrs bp l)) ->
  In (c, x) (layout bp l) -> ~ In c fl ->
  c - 8 <= a < c + fst x - 8 -> ~ link_slot fl a.
Proof.
  intros Hs Hsub Hin Hc Hr (b & Hb & E).
  pose proof (Hsub _ Hb) as Hb'. apply In_free_addrs in Hb'.
  destruct Hb' as (sz' & Hin').
  pose proof (layout_bounds _ _ _ _ Hs Hin').
  assert (b <> c) by (intros ->; auto). consts.
  pose proof (layout_disjoint _ _ _ _ _ _ Hs Hin Hin') as [[-> _] | D]; simpl in *; lia.
Qed.

Lemma not_slot_outside bp l fl a :
  sizes_ok l -> (forall b, In b fl -> In b (free_addrs bp l)) ->
  a < bp \/ bp + span l - 16 <= a -> ~ link_slot fl a.
Proof.
  intros Hs Hsub Hr Hl.
  destruct (link_slot_block _ _ _ _ Hsub Hl) as (c' & sz' & Hin' & E).
  pose proof (layout_bounds _ _ _ _ Hs Hin'). simpl in *. lia.
Qed.

(** Members of the free list have their link words inside the region. *)
Lemma free_slot_ok s l fl :
  framed s -> tiles s l ->
  (forall b, In b fl -> In b (free_addrs (first_block s) l)) ->
  Forall (slot_ok s) fl.
Proof.
  intros Hf Ht Hsub. apply Forall_forall. intros b Hb.
  apply Hsub in Hb. apply In_free_addrs in Hb. destruct Hb as (sz & Hin).
  pose proof (block_facts _ _ _ _ Hf Ht Hin) as H. simpl in H.
  unfold slot_ok. consts. lia.
Qed.

(** Writing a word that is no link word of the list keeps the list. *)
Lemma free_list_upd s fl a v :
  free_list s fl -> ~ link_slot fl a ->
  free_list (with_mem s (upd (mem s) a v)) fl.
Proof.
  intros [Hd Hn] Ha. split; [| exact Hn]. proj_simpl.
  eapply dllseg_frame; [| exact Hd].
  intros b Hb. destruct (not_link_slot_In _ _ _ Ha Hb). consts.
  upd_simpl. auto.
Qed.

Lemma free_list_frame s s' fl :
  free_list s fl -> head s' = head s ->
  (forall a, link_slot fl a -> mem s' a = mem s a) ->
  free_list s' fl.
Proof.
  intros [Hd Hn] Hh Hm. split; [| exact Hn]. rewrite Hh.
  eapply dllseg_frame; [| exact Hd].
  intros b Hb. split; apply Hm; exists b; consts; auto.
Qed.

(** The block before position [l1] of a tiled heap: the last block of [l1],
    or the prologue. *)
Lemma prev_view s l1 x l2 :
  framed s -> tiles s (l1 ++ x :: l2) ->
  let b := first_block s + span l1 in
  let pv := last l1 (OVERHEAD, true) in
  16 <= fst pv /\ fst pv mod 16 = 0 /\
  mem_start_brk s + 16 <= b - fst pv /\
  mem s (b - 16) = tag pv /\ mem s (b - fst pv - 8) = tag pv /\
  (snd pv = false -> exists l1', l1 = l1' ++ [pv]).
Proof.
  intros Hf Ht b pv. subst b pv.
  destruct l1 as [| p l1' _] using rev_ind.
  - destruct Hf as (Hlo & Hal & _ & _ & _ & Hph & Hpf & _).
    unfold first_block. consts. cbn [last span fst snd].
    replace (mem_start_brk s + 2 * 16 + 0 - 16) with (mem_start_brk s + 16) by lia.
    replace (mem_start_brk s + 16 - 8) with (mem_start_brk s + 8) by lia.
    unfold tag. cbn [fst snd Z.b2z].
    repeat split; try lia; try assumption; try discriminate.
  - rewrite last_snoc.
    assert (Hin : In (first_block s + span l1', p)
                     (layout (first_block s) ((l1' ++ [p]) ++ x :: l2))).
    { rewrite <- app_assoc. apply In_layout_mid. }
    pose proof (block_facts _ _ _ _ Hf Ht Hin) as H.
    rewrite span_app. simpl.
    replace (first_block s + (span l1' + (fst p + 0)) - 16)
      with (first_block s + span l1' + fst p - 16) by lia.
    replace (first_block s + (span l1' + (fst p + 0)) - fst p - 8)
      with (first_block s + span l1' - 8) by lia.
    repeat split; try lia; try tauto. eauto.
Qed.

(** The block after position [l1 ++ [x]]: the first block of [l2], or the
    epilogue. *)
Lemma next_view s l1 x l2 :
  framed s -> tiles s (l1 ++ x :: l2) ->
  let b := first_block s + span l1 in
  let nx := hd (0, true) l2 in
  0 <= fst nx /\ fst nx mod 16 = 0 /\
  b + fst x + fst nx <= mem_brk s /\
  mem s (b + fst x - 8) = tag nx /\
  (snd nx = false -> exists l2', l2 = nx :: l2').
Proof.
  intros Hf Ht b nx. subst b nx.
  destruct l2 as [| n l2'].
  - destruct Ht as (Hs & _ & He).
    destruct Hf as (_ & _ & _ & _ & _ & _ & _ & Hep).
    rewrite span_app in He. cbn [span hd fst snd] in *. consts.
    replace (first_block s + span l1 + fst x - 8) with (mem_brk s - 8) by lia.
    unfold tag. cbn [fst snd Z.b2z].
    apply Forall_app in Hs. destruct Hs as [_ Hs].
    apply sizes_ok_cons in Hs. destruct Hs as [Hx _].
    repeat split; try lia; try assumption; try discriminate.
  - assert (Hin : In (first_block s + span (l1 ++ [x]), n)
                     (layout (first_block s) ((l1 ++ [x]) ++ n :: l2'))).
    { apply In_layout_mid. }
    rewrite <- app_assoc in Hin. simpl in Hin.
    pose proof (block_facts _ _ _ _ Hf Ht Hin) as H.
    rewrite span_app in H. simpl in *.
    replace (first_block s + span l1 + fst x - 8)
      with (first_block s + (span l1 + (fst x + 0)) - 8) by lia.
    repeat split; try lia; try tauto. eauto.
Qed.

(** ** Frames *)

Lemma tagged_frame m m' bp l :
  (forall c x, In (c, x) (layout bp l) ->
               m' (c - 8) = m (c - 8) /\ m' (c + fst x - 16) = m (c + fst x - 16)) ->
  tagged m bp l -> tagged m' bp l.
Proof.
  unfold tagged. rewrite !Forall_forall. intros Hf Ht [c x] Hin.
  specialize (Ht _ Hin). specialize (Hf _ _ Hin).
  unfold tagged_at in *. consts. simpl in *. destruct Hf as [-> ->]. exact Ht.
Qed.

(** A change of memory confined to link words of free blocks and to the
    bytes of the blocks [mid] keeps the sentinels and the tags of all other
    blocks. *)
Lemma tiles_outside s s' l1 mid l2 fl :
  framed s -> tiles s (l1 ++ mid ++ l2) -> free_sub s (l1 ++ mid ++ l2) fl ->
  same_region s s' ->
  (forall a, ~ link_slot fl a ->
             a < first_block s + span l1 - 8 \/
             first_block s + span l1 + span mid - 8 <= a ->
             mem s' a = mem s a) ->
  mid <> [] ->
  framed s' /\
  tagged (mem s') (first_block s) l1 /\
  tagged (mem s') (first_block s + span l1 + span mid) l2.
Proof.
  intros Hf Ht Hsub Hreg Hm Hmid.
  pose proof Ht as (Hs & Htg & He).
  pose proof Hs as Hs'.
  apply sizes_ok_app in Hs'. destruct Hs' as [Hsl1 Hs'].
  apply sizes_ok_app in Hs'. destruct Hs' as [Hsmid Hsl2].
  assert (Hsm : 0 < span mid).
  { destruct mid as [| y mid]; [congruence |].
    apply sizes_ok_cons in Hsmid. destruct Hsmid as [Hy Hsmid].
    pose proof (sizes_ok_span _ Hsmid). simpl. lia. }
  pose proof (sizes_ok_span l1 Hsl1) as Hs1.
  pose proof (sizes_ok_span l2 Hsl2) as Hs2.
  rewrite !span_app in He.
  destruct Hreg as (Hr1 & Hr2 & Hr3 & Hr4).
  split; [| split].
  - destruct Hf as (Hlo & Hal & Hmax & Hmx & Hhs & Hph & Hpf & Hep).
    unfold framed. rewrite Hr1, Hr2, Hr3, Hr4.
    unfold first_block in *. consts.
    repeat split; auto.
    + rewrite Hm; auto.
      * apply (not_slot_outside _ _ _ _ Hs Hsub). unfold first_block. consts. lia.
      * lia.
    + rewrite Hm; auto.
      * apply (not_slot_outside _ _ _ _ Hs Hsub). unfold first_block. consts. lia.
      * lia.
    + rewrite Hm; auto.
      * apply (not_slot_outside _ _ _ _ Hs Hsub). unfold first_block. consts.
        rewrite !span_app. lia.
      * lia.
  - apply tagged_app in Htg. destruct Htg as [Htg _].
    eapply tagged_frame; [| exact Htg].
    intros c x Hin.
    assert (Hin' : In (c, x) (layout (first_block s) (l1 ++ mid ++ l2))).
    { rewrite layout_app. apply in_or_app. auto. }
    pose proof (layout_bounds _ _ _ _ Hsl1 Hin) as Hb.
    split; apply Hm; try lia;
      apply (not_slot_in_block _ _ _ _ _ _ Hs Hsub Hin'); lia.
  - apply tagged_app in Htg. destruct Htg as [_ Htg].
    apply tagged_app in Htg. destruct Htg as [_ Htg].
    eapply tagged_frame; [| exact Htg].
    intros c x Hin.
    assert (Hin' : In (c, x) (layout (first_block s) (l1 ++ mid ++ l2))).
    { rewrite !layout_app. apply in_or_app. right. apply in_or_app. auto. }
    pose proof (layout_bounds _ _ _ _ Hsl2 Hin) as Hb.
    split; apply Hm; try lia;
      apply (not_slot_in_block _ _ _ _ _ _ Hs Hsub Hin'); lia.
Qed.

(** ** Adjacent free blocks *)

Lemma no_adj_free_cons x l :
  no_adj_free (x :: l) <->
  (snd x = false -> snd (hd (0, true) l) = true) /\ no_adj_free l.
Proof.
  destruct l as [| y l]; simpl; [tauto |]. tauto.
Qed.

Lemma no_adj_free_app l1 : forall l2,
  no_adj_free (l1 ++ l2) <->
  no_adj_free l1 /\ no_adj_free l2 /\
  (snd (last l1 (OVERHEAD, true)) = false -> snd (hd (0, true) l2) = true).
Proof.
  induction l1 as [| x l1 IH]; intros l2.
  - simpl. intuition discriminate.
  - change ((x :: l1) ++ l2) with (x :: l1 ++ l2).
    rewrite !no_adj_free_cons, IH, last_cons.
    destruct l1 as [| y l1].
    + simpl. intuition congruence.
    + rewrite (last_cons l1 y x), (last_cons l1 y (OVERHEAD, true)).
      cbn [app hd]. tauto.
Qed.

(** ** Coalescing *)

Lemma pre_coalesce_sub s l1 sz l2 fl :
  pre_coalesce s l1 sz l2 fl -> free_sub s (l1 ++ (sz, false) :: l2) fl.
Proof.
  intros (_ & _ & _ & Hin & _) b Hb. apply Hin in Hb.
  rewrite free_addrs_app, free_addrs_cons. cbn [snd fst].
  apply in_or_app. destruct Hb as [Hb | Hb]; [auto |].
  right. apply in_or_app. auto.
Qed.

Lemma pre_coalesce_fresh s l1 sz l2 fl :
  pre_coalesce s l1 sz l2 fl -> ~ In (first_block s + span l1) fl.
Proof.
  intros (_ & (Hs & _) & _ & Hin & _) Hb. apply Hin in Hb.
  apply sizes_ok_app in Hs. destruct Hs as [Hs1 Hs2].
  apply sizes_ok_cons in Hs2. destruct Hs2 as [Hx Hs2]. cbn [fst] in Hx.
  destruct Hb as [Hb | Hb].
  - pose proof (free_addrs_bounds _ _ _ Hs1 Hb). lia.
  - pose proof (free_addrs_bounds _ _ _ Hs2 Hb). lia.
Qed.

Lemma framed_bounds s :
  framed s -> 0 < mem_start_brk s /\ mem_brk s < 9223372036854775808.
Proof.
  intros (Hlo & _ & Hmax & Hmx & _).
  change (2 ^ 63) with 9223372036854775808 in Hmx. lia.
Qed.

(** The last step of [coalesce]: the block is pushed on the free list, which
    completes the invariant when both neighbours are allocated. *)
Lemma wp_insert_block s l1 sz l2 fl b (Q : unit -> state -> Prop) :
  pre_coalesce s l1 sz l2 fl ->
  b = first_block s + span l1 ->
  snd (last l1 (OVERHEAD, true)) = true ->
  snd (hd (0, true) l2) = true ->
  (forall s', wf s' (l1 ++ (sz, false) :: l2) (b :: fl) ->
              same_region s s' -> head s' = b ->
              (forall a, ~ link_slot (b :: fl) a -> mem s' a = mem s a) ->
              Q tt s') ->
  wp (insert_in_explicit_list b) Q s.
Proof.
  intros Hpre Eb Hpa Hna HQ. subst b.
  pose proof (pre_coalesce_sub _ _ _ _ _ Hpre) as Hsub.
  pose proof (pre_coalesce_fresh _ _ _ _ _ Hpre) as Hfresh.
  destruct Hpre as (Hf & Ht & Hfl & Hin & Hn1 & Hn2).
  pose proof (framed_bounds _ Hf) as [Hlo Hbrk].
  pose proof (block_facts _ _ _ _ Hf Ht (In_layout_mid _ _ _ _)) as Hb.
  cbn [fst snd] in Hb.
  set (b := first_block s + span l1) in *.
  apply wp_insert with (fl := fl); auto.
  - unfold slot_ok. consts. lia.
  - eapply free_slot_ok; eauto.
  - intros s' Hfl' Hh Hreg Hm.
    assert (Hsub' : free_sub s (l1 ++ [(sz, false)] ++ l2) (b :: fl)).
    { change (l1 ++ [(sz, false)] ++ l2) with (l1 ++ (sz, false) :: l2).
      intros c [<- | Hc]; [| apply Hsub; exact Hc].
      rewrite free_addrs_app, free_addrs_cons. cbn [snd fst].
      apply in_or_app. right. simpl. auto. }
    destruct (tiles_outside s s' l1 [(sz, false)] l2 (b :: fl) Hf Ht Hsub' Hreg)
      as (Hf' & Ht1 & Ht2); [auto | discriminate |].
    apply HQ; auto.
    assert (Hfb : first_block s' = first_block s).
    { unfold first_block. destruct Hreg as (-> & _). reflexivity. }
    split; [exact Hf' |]. split; [| split; [exact Hfl' | split]].
    + destruct Ht as (Hs & Htg & He). split; [exact Hs |].
      rewrite Hfb. split; [| destruct Hreg as (_ & -> & _); exact He].
      apply tagged_app. split; [exact Ht1 |].
      apply tagged_cons. cbn [span fst] in Ht2.
      replace (first_block s + span l1 + (sz + 0)) with (b + sz) in Ht2 by (subst b; lia).
      split; [| exact Ht2]. cbn [fst].
      apply tagged_app in Htg. destruct Htg as [_ Htg].
      apply tagged_cons in Htg. destruct Htg as [[Hh1 Hh2] _].
      cbn [fst] in Hh1, Hh2. fold b in Hh1, Hh2.
      rewrite <- Hh1 at 1. rewrite <- Hh2.
      split; apply Hm;
        apply (not_slot_in_block _ _ _ _ _ _ Hs Hsub' (In_layout_mid _ _ _ _));
        cbn [fst]; fold b; lia.
    + intros c. rewrite Hfb, free_addrs_app, free_addrs_cons. cbn [snd fst].
      rewrite !in_app_iff. fold b. simpl. rewrite Hin. fold b. tauto.
    + apply no_adj_free_app. split; [exact Hn1 |]. split.
      * apply no_adj_free_cons. auto.
      * intros. congruence.
Qed.

Ltac norm :=
  repeat first
    [ progress proj_simpl
    | progress (unfold WSIZE, DSIZE, OVERHEAD, MINSIZE, NULL)
    | rewrite HDRP_small by lia
    | rewrite PADD_small by lia
    | rewrite PSUB_small by lia
    | rewrite wrap_small by lia
    | rewrite size_of_tag by lia
    | rewrite alloc_of_tag by lia
    | rewrite size_of_word_tag by (cbn [fst]; lia)
    | rewrite alloc_of_word_tag by (cbn [fst]; lia)
    | progress cbn [fst snd Z.b2z]
    | progress upd_simpl
    | match goal with
      | H : mem ?s ?a = _ |- context [mem ?s ?a] => rewrite H
      end ].

Ltac wp_go := repeat (norm; wp_step).

Lemma sizes_ok_span_pos l :
  sizes_ok l -> l <> [] -> 32 <= span l /\ span l mod 16 = 0.
Proof.
  intros Hs Hne. induction l as [| x l IH]; [congruence |].
  apply sizes_ok_cons in Hs. destruct Hs as [Hx Hs].
  destruct l as [| y l].
  - simpl. lia.
  - assert (Hy : y :: l <> []) by discriminate.
    specialize (IH Hs Hy). cbn [span] in *. lia.
Qed.

Lemma span_mod l : sizes_ok l -> span l mod 16 = 0.
Proof.
  intros Hs. destruct l as [| x l]; [reflexivity |].
  apply sizes_ok_span_pos; [exact Hs | discriminate].
Qed.

(** Replacing a run of blocks by another run with the same span, given the
    new tags and that nothing else was written but link words. *)
Lemma tiles_replace s s' l1 mid mid' l2 fl :
  framed s -> tiles s (l1 ++ mid ++ l2) -> free_sub s (l1 ++ mid ++ l2) fl ->
  same_region s s' ->
  (forall a, ~ link_slot fl a ->
             a < first_block s + span l1 - 8 \/
             first_block s + span l1 + span mid - 8 <= a ->
             mem s' a = mem s a) ->
  mid <> [] -> sizes_ok mid' -> span mid' = span mid ->
  tagged (mem s') (first_block s + span l1) mid' ->
  framed s' /\ tiles s' (l1 ++ mid' ++ l2).
Proof.
  intros Hf Ht Hsub Hreg Hm Hne Hs' Hsp Htg'.
  destruct (tiles_outside _ _ _ _ _ _ Hf Ht Hsub Hreg Hm Hne) as (Hf' & Ht1 & Ht2).
  split; [exact Hf' |].
  destruct Ht as (Hs & Htg & He).
  assert (Hfb : first_block s' = first_block s).
  { unfold first_block. destruct Hreg as (-> & _). reflexivity. }
  unfold tiles. rewrite Hfb. split; [| split].
  - apply sizes_ok_app in Hs. destruct Hs as [Hs1 Hs2].
    apply sizes_ok_app in Hs2. destruct Hs2 as [_ Hs2].
    apply sizes_ok_app. split; [exact Hs1 |]. apply sizes_ok_app. auto.
  - apply tagged_app. split; [exact Ht1 |].
    apply tagged_app. split; [exact Htg' |]. rewrite Hsp. exact Ht2.
  - destruct Hreg as (_ & -> & _). rewrite !span_app in *. lia.
Qed.

(** Unlinking a member of the free list. *)
Lemma wp_remove_In s fl c (Q : unit -> state -> Prop) :
  free_list s fl -> Forall (slot_ok s) fl ->
  0 < mem_start_brk s -> mem_brk s < 2 ^ 63 -> In c fl ->
  (forall s' fl', free_list s' fl' -> (forall b, In b fl' <-> In b fl /\ b <> c) ->
                  same_region s s' ->
                  (forall a, ~ link_slot fl a -> mem s' a = mem s a) ->
                  Q tt s') ->
  wp (remove_from_explicit_list c) Q s.
Proof.
  intros Hfl Hok Hlo Hbrk Hc HQ.
  destruct (in_split _ _ Hc) as (f1 & f2 & E). subst fl.
  apply wp_remove with (f1 := f1) (f2 := f2); auto.
  intros s' Hfl' Hreg Hm. apply HQ with (fl' := f1 ++ f2); auto.
  - destruct Hfl as [_ Hnd]. intros b.
    apply NoDup_remove in Hnd. destruct Hnd as [_ Hnc].
    rewrite !in_app_iff in *. simpl. split.
    + intros Hb. split; [tauto |]. intros ->. tauto.
    + intros [[Hb | [Hb | Hb]] Hne]; auto. congruence.
  - intros a Ha. apply Hm. intros (b & Hb & E). apply Ha. exists b.
    split; [| exact E]. rewrite !in_app_iff in *. simpl. tauto.
Qed.

(** Unlinking a free block of a tiled heap. *)
Lemma wp_remove_block s l fl c (Q : unit -> state -> Prop) :
  framed s -> tiles s l -> free_list s fl -> free_sub s l fl -> In c fl ->
  (forall s' fl', free_list s' fl' -> (forall b, In b fl' <-> In b fl /\ b <> c) ->
                  same_region s s' ->
                  (forall a, ~ link_slot fl a -> mem s' a = mem s a) ->
                  Q tt s') ->
  wp (remove_from_explicit_list c) Q s.
Proof.
  intros Hf Ht Hfl Hsub Hc HQ.
  pose proof (framed_bounds _ Hf) as [Hlo Hbrk].
  apply wp_remove_In with (fl := fl); auto.
  eapply free_slot_ok; eauto.
Qed.

Lemma link_slot_mono fl1 fl a :
  (forall b, In b fl1 -> In b fl) -> link_slot fl1 a -> link_slot fl a.
Proof. intros H (b & Hb & E). exists b. auto. Qed.

Lemma first_block_region s s' : same_region s s' -> first_block s' = first_block s.
Proof. unfold first_block. intros (-> & _). reflexivity. Qed.

Lemma tag_free sz : tag (sz, false) = PACK sz 0.
Proof. reflexivity. Qed.

(** Writing link words of free blocks keeps the sentinels and all tags. *)
Lemma tiles_links s s' l fl :
  framed s -> tiles s l -> free_sub s l fl -> same_region s s' ->
  (forall a, ~ link_slot fl a -> mem s' a = mem s a) ->
  framed s' /\ tiles s' l.
Proof.
  intros Hf Ht Hsub Hreg Hm.
  pose proof Ht as (Hs & Htg & He).
  pose proof (sizes_ok_span _ Hs) as Hsp.
  pose proof (first_block_region _ _ Hreg) as Hfb.
  destruct Hreg as (R1 & R2 & R3 & R4).
  split.
  - destruct Hf as (Hlo & Hal & Hmax & Hmx & Hhs & Hph & Hpf & Hep).
    unfold framed. rewrite R1, R2, R3, R4.
    unfold first_block in *. consts.
    repeat split; auto; rewrite Hm; auto;
      apply (not_slot_outside _ _ _ _ Hs Hsub); unfold first_block; consts; lia.
  - unfold tiles. rewrite Hfb, R2. repeat split; auto.
    eapply tagged_frame; [| exact Htg].
    intros c x Hin. pose proof (layout_bounds _ _ _ _ Hs Hin).
    split; apply Hm; apply (not_slot_in_block _ _ _ _ _ _ Hs Hsub Hin); lia.
Qed.

(** ** What is written lies in free blocks *)

Lemma link_slot_in_free bp l fl a :
  sizes_ok l -> (forall b, In b fl -> In b (free_addrs bp l)) ->
  link_slot fl a -> in_free bp l a.
Proof.
  intros Hs Hsub Hl.
  destruct (link_slot_block _ _ _ _ Hsub Hl) as (c & sz & Hin & E).
  pose proof (layout_bounds _ _ _ _ Hs Hin) as Hb. cbn [fst] in Hb.
  exists c, sz. split; [exact Hin |]. unfold block_bytes. consts. lia.
Qed.

Lemma free_addrs_mid bp l1 sz l2 :
  In (bp + span l1) (free_addrs bp (l1 ++ (sz, false) :: l2)).
Proof.
  rewrite free_addrs_app, free_addrs_cons. cbn [fst snd].
  apply in_or_app. right. simpl. left. reflexivity.
Qed.

Lemma in_free_here bp l c sz a :
  In (c, (sz, false)) (layout bp l) -> c - 8 <= a < c + sz - 8 -> in_free bp l a.
Proof. intros Hin Ha. exists c, sz. split; [exact Hin | exact Ha]. Qed.

Ltac in_some_free :=
  match goal with
  | H : In (_, (_, false)) (layout _ _) |- in_free _ _ _ =>
      eapply in_free_here; [exact H | consts; lia]
  end.

Lemma in_free_app bp l1 l2 a :
  in_free bp (l1 ++ l2) a <-> in_free bp l1 a \/ in_free (bp + span l1) l2 a.
Proof.
  unfold in_free. split.
  - intros (c & sz & Hin & Hb). rewrite layout_app in Hin.
    apply in_app_or in Hin. destruct Hin as [Hin | Hin]; [left | right]; eauto.
  - intros [(c & sz & Hin & Hb) | (c & sz & Hin & Hb)];
      exists c, sz; (split; [| exact Hb]); rewrite layout_app;
      apply in_or_app; auto.
Qed.

Lemma in_free_nil bp a : in_free bp [] a <-> False.
Proof. unfold in_free. simpl. split; [intros (c & sz & [] & _) | tauto]. Qed.

Lemma in_free_cons bp x l a :
  in_free bp (x :: l) a <->
  (snd x = false /\ block_bytes bp (fst x) a) \/ in_free (bp + fst x) l a.
Proof.
  unfold in_free. cbn [layout]. split.
  - intros (c & sz & [E | Hin] & Hb).
    + inversion E; subst. left. auto.
    + right. eauto.
  - intros [[Ex Hb] | (c & sz & Hin & Hb)].
    + exists bp, (fst x). split; [| exact Hb]. left.
      destruct x as [xs xa]. simpl in *. subst xa. reflexivity.
    + exists c, sz. split; [right; exact Hin | exact Hb].
Qed.

(** ** Allocated blocks of a layout *)

Lemma in_alloc_app bp l1 l2 c sz :
  in_alloc bp (l1 ++ l2) c sz <->
  in_alloc bp l1 c sz \/ in_alloc (bp + span l1) l2 c sz.
Proof. unfold in_alloc. rewrite layout_app. apply in_app_iff. Qed.

Lemma in_alloc_nil bp c sz : in_alloc bp [] c sz <-> False.
Proof. unfold in_alloc. simpl. tauto. Qed.

Lemma in_alloc_cons bp x l c sz :
  in_alloc bp (x :: l) c sz <->
  (c = bp /\ x = (sz, true)) \/ in_alloc (bp + fst x) l c sz.
Proof.
  unfold in_alloc. cbn [layout In]. split.
  - intros [E | H]; [inversion E; auto | auto].
  - intros [[-> ->] | H]; auto.
Qed.

Lemma in_alloc_at bp bp' l c sz :
  bp = bp' -> in_alloc bp l c sz -> in_alloc bp' l c sz.
Proof. intros ->. auto. Qed.

Lemma in_alloc_bounds bp l c sz :
  sizes_ok l -> in_alloc bp l c sz ->
  bp <= c /\ c + sz <= bp + span l /\ 32 <= sz /\ sz mod 16 = 0.
Proof. intros Hs Hin. exact (layout_bounds _ _ _ _ Hs Hin). Qed.

(** The bytes of an allocated block are no bytes of a free block. *)
Lemma alloc_not_in_free bp l c sz a :
  sizes_ok l -> in_alloc bp l c sz -> block_bytes c sz a -> ~ in_free bp l a.
Proof.
  intros Hs Hin Ha (c' & sz' & Hin' & Ha').
  destruct (layout_disjoint _ _ _ _ _ _ Hs Hin Hin') as [[_ E] | Hd];
    [discriminate E |].
  unfold block_bytes in *. cbn [fst] in Hd. lia.
Qed.

(** An allocated block is not at the address of a free block. *)
Lemma alloc_not_free_addr bp l c sz :
  sizes_ok l -> in_alloc bp l c sz -> ~ In c (free_addrs bp l).
Proof.
  intros Hs Hin Hc. apply In_free_addrs in Hc. destruct Hc as (sz' & Hin').
  pose proof (layout_bounds _ _ _ _ Hs Hin) as Hb.
  destruct (layout_disjoint _ _ _ _ _ _ Hs Hin Hin') as [[_ E] | Hd];
    [discriminate E |].
  pose proof (layout_bounds _ _ _ _ Hs Hin') as Hb'.
  cbn [fst] in *. lia.
Qed.

Lemma keeps_allocated_refl bp l : keeps_allocated bp l l.
Proof. intros c sz H. exact H. Qed.

Lemma keeps_allocated_trans bp l1 l2 l3 :
  keeps_allocated bp l1 l2 -> keeps_allocated bp l2 l3 ->
  keeps_allocated bp l1 l3.
Proof. intros H1 H2 c sz H. auto. Qed.

(** Coalescing keeps the allocated blocks. *)
Lemma merged_keeps fb l1 sz l2 l' b' :
  merged fb l1 sz l2 l' b' -> keeps_allocated fb (l1 ++ (sz, false) :: l2) l'.
Proof.
  intros (l1' & psz & l2' & nsz & -> & _ & Hprev & Hnext) c x Hin.
  rewrite in_alloc_app, in_alloc_cons in Hin. cbn [fst] in Hin.
  rewrite in_alloc_app, in_alloc_cons. cbn [fst].
  destruct Hin as [Hin | [[_ E] | Hin]]; [| discriminate E |].
  - destruct Hprev as [(-> & _) | ->]; [auto |].
    rewrite in_alloc_app, in_alloc_cons, in_alloc_nil in Hin.
    destruct Hin as [Hin | [[_ E] | []]]; [auto | discriminate E].
  - right. right.
    assert (Esp : fb + span l1 = fb + span l1' + psz).
    { destruct Hprev as [(-> & -> & _) | ->]; [lia |].
      rewrite span_app. cbn [span fst]. lia. }
    destruct Hnext as [(-> & -> & _) | ->].
    + eapply in_alloc_at; [| exact Hin]. lia.
    + rewrite in_alloc_cons in Hin. cbn [fst] in Hin.
      destruct Hin as [[_ E] | Hin]; [discriminate E |].
      eapply in_alloc_at; [| exact Hin]. lia.
Qed.

(** Placement keeps the allocated blocks. *)
Lemma placed_keeps fb l1 sz asize l2 l' :
  placed l1 sz asize l2 l' -> keeps_allocated fb (l1 ++ (sz, false) :: l2) l'.
Proof.
  intros Hpl c x Hin.
  rewrite in_alloc_app, in_alloc_cons in Hin. cbn [fst] in Hin.
  destruct Hin as [Hin | [[_ E] | Hin]]; [| discriminate E |].
  - destruct Hpl as [[_ ->] | (_ & nsz & l2' & -> & _)];
      rewrite in_alloc_app; auto.
  - destruct Hpl as [[_ ->] | (_ & nsz & l2' & -> & Hnext)].
    + rewrite in_alloc_app, in_alloc_cons. cbn [fst]. auto.
    + rewrite in_alloc_app, !in_alloc_cons. cbn [fst]. right. right. right.
      destruct Hnext as [(-> & -> & _) | ->].
      * eapply in_alloc_at; [| exact Hin]. lia.
      * rewrite in_alloc_cons in Hin. cbn [fst] in Hin.
        destruct Hin as [[_ E] | Hin]; [discriminate E |].
        eapply in_alloc_at; [| exact Hin]. lia.
Qed.

(** ** Coalescing, with its frame *)

(** [coalesce] writes nothing but bytes of free blocks. *)
Lemma wp_coalesce_frame s l1 sz l2 fl b (Q : Z -> state -> Prop) :
  pre_coalesce s l1 sz l2 fl ->
  b = first_block s + span l1 ->
  (forall s' l' fl' b',
      wf s' l' fl' -> same_region s s' -> head s' = b' ->
      merged (first_block s) l1 sz l2 l' b' ->
      (forall a, ~ in_free (first_block s) (l1 ++ (sz, false) :: l2) a ->
                 mem s' a = mem s a) ->
      Q b' s') ->
  wp (coalesce b) Q s.
Proof.
  intros Hpre Eb HQ.
  pose proof (pre_coalesce_sub _ _ _ _ _ Hpre) as Hsub.
  pose proof (pre_coalesce_fresh _ _ _ _ _ Hpre) as Hfresh.
  pose proof Hpre as (Hf & Ht & Hfl & Hin & Hn1 & Hn2).
  pose proof (framed_bounds _ Hf) as [Hlo Hbrk].
  pose proof (block_facts _ _ _ _ Hf Ht (In_layout_mid _ _ _ _)) as Hb.
  pose proof (prev_view _ _ _ _ Hf Ht) as Hpv.
  pose proof (next_view _ _ _ _ Hf Ht) as Hnv.
  cbv zeta in Hpv, Hnv. cbn [fst snd] in Hb, Hnv.
  rewrite <- Eb in *.
  set (pv := last l1 (OVERHEAD, true)) in *.
  set (nx := hd (0, true) l2) in *.
  destruct Hb as (Hb1 & Hb2 & Hb3 & Hb4 & Hb5 & Hbh & Hbf).
  destruct Hpv as (Hp1 & Hp2 & Hp3 & Hpf & Hph & Hpl).
  destruct Hnv as (Hx1 & Hx2 & Hx3 & Hxh & Hxl).
  unfold coalesce. consts.
  wp_go.
  destruct (snd pv) eqn:Epa; destruct (snd nx) eqn:Ena; cbn [Z.b2z]; eqb_dec.
  - (* both neighbours allocated *)
    wp_go.
    eapply wp_insert_block; eauto.
    intros s' Hwf Hreg Hh Hm. wp_go.
    eapply HQ; eauto.
    + exists l1, 0, l2, 0. replace (0 + sz + 0) with sz by lia.
      repeat split; auto.
    + intros a Ha. apply Hm. intros Hl. apply Ha.
      eapply link_slot_in_free; [exact (proj1 Ht) | | exact Hl].
      intros c [<- | Hc]; [| apply Hsub; exact Hc].
      rewrite Eb. apply free_addrs_mid.
  - (* only the successor is free *)
    destruct (Hxl eq_refl) as (l2' & El2). clearbody nx.
    destruct nx as [nsz na]. cbn [fst snd] in *. subst na l2.
    assert (Hinn : In (b + sz, (nsz, false))
                      (layout (first_block s) (l1 ++ (sz, false) :: (nsz, false) :: l2'))).
    { pose proof (In_layout_mid (first_block s) (l1 ++ [(sz, false)]) (nsz, false) l2') as H.
      rewrite <- app_assoc, span_app in H. cbn [span fst app] in H.
      replace (first_block s + (span l1 + (sz + 0))) with (b + sz) in H by lia.
      exact H. }
    pose proof (block_facts _ _ _ _ Hf Ht Hinn) as Hnb. cbn [fst snd] in Hnb.
    destruct Hnb as (Hnb1 & Hnb2 & Hnb3 & Hnb4 & Hnb5 & Hnbh & Hnbf).
    assert (Hnfl : In (b + sz) fl).
    { apply Hin. right. rewrite free_addrs_cons. simpl. auto. }
    wp_go.
    eapply wp_remove_block; eauto.
    intros s1 fl1 Hfl1 Hin1 Hreg1 Hm1.
    pose proof Hreg1 as (R1 & R2 & R3 & R4).
    pose proof (proj1 Ht) as Hs.
    assert (Hsub1 : forall c, In c fl1 -> In c fl) by (intros c Hc; apply Hin1 in Hc; tauto).
    assert (Hns1 : ~ link_slot fl (b - 8)).
    { apply (not_slot_in_block _ _ _ _ _ _ Hs Hsub (In_layout_mid _ _ _ _));
        cbn [fst]; lia. }
    assert (Hns2 : ~ link_slot fl (b + (sz + nsz - 16))).
    { apply (not_slot_in_block _ _ _ _ _ _ Hs Hsub Hinn); cbn [fst]; lia. }
    wp_go.
    match goal with |- wp _ _ ?st => set (s3 := st) end.
    assert (Hreg3 : same_region s s3) by (unfold same_region, s3; proj_simpl; auto).
    assert (Hfb3 : first_block s3 = first_block s) by (apply first_block_region; auto).
    assert (Hpre3 : pre_coalesce s3 l1 (sz + nsz) l2' fl1).
    { destruct (tiles_replace s s3 l1 [(sz, false); (nsz, false)] [(sz + nsz, false)] l2' fl)
        as (Hf3 & Ht3); auto.
      - intros a Ha Hr. unfold s3. proj_simpl. cbn [span fst] in Hr.
        upd_simpl. auto.
      - discriminate.
      - apply sizes_ok_cons. cbn [fst]. split; [lia | constructor].
      - cbn [span fst]. lia.
      - apply tagged_cons. cbn [fst]. rewrite tag_free. unfold s3. proj_simpl.
        rewrite <- Eb. upd_simpl. repeat split. constructor.
      - split; [exact Hf3 |]. split; [exact Ht3 |]. split; [| split; [| split]].
        + unfold s3. apply free_list_upd; [apply free_list_upd |]; auto;
            intros Hl; [apply Hns1 | apply Hns2];
            eapply link_slot_mono; eauto.
        + intros c. rewrite Hfb3, Hin1, Hin, free_addrs_cons. cbn [fst snd app].
          rewrite <- Eb.
          replace (b + (sz + nsz)) with (b + sz + nsz) by lia.
          apply sizes_ok_app in Hs. destruct Hs as [Hs1 Hs2].
          apply sizes_ok_cons in Hs2. destruct Hs2 as [_ Hs2].
          apply sizes_ok_cons in Hs2. destruct Hs2 as [_ Hs2].
          split.
          * intros [[H | [H | H]] Hne]; auto. congruence.
          * intros [H | H].
            -- pose proof (free_addrs_bounds _ _ _ Hs1 H). split; [auto | lia].
            -- pose proof (free_addrs_bounds _ _ _ Hs2 H). split; [simpl; auto | lia].
        + exact Hn1.
        + apply no_adj_free_cons in Hn2. tauto. }
    eapply wp_insert_block; eauto.
    + rewrite Hfb3. exact Eb.
    + apply no_adj_free_cons in Hn2. destruct Hn2 as [Hn2 _]. auto.
    + intros s' Hwf Hreg Hh Hm. wp_go.
      eapply HQ; eauto.
      * eapply same_region_trans; eauto.
      * exists l1, 0, l2', nsz. replace (0 + sz + nsz) with (sz + nsz) by lia.
        repeat split; auto.
      * intros a Ha.
        assert (Hib : In (b, (sz, false))
                         (layout (first_block s) (l1 ++ (sz, false) :: (nsz, false) :: l2')))
          by (rewrite Eb; apply In_layout_mid).
        rewrite Hm.
        -- unfold s3. proj_simpl.
           rewrite !upd_other; [| intros ->; apply Ha; in_some_free ..].
           apply Hm1. intros Hl. apply Ha.
           eapply link_slot_in_free; [exact Hs | exact Hsub | exact Hl].
        -- intros Hl. apply Ha.
           eapply link_slot_in_free; [exact Hs | | exact Hl].
           intros c [<- | Hc]; [rewrite Eb; apply free_addrs_mid | apply Hsub, Hsub1, Hc].
  - (* only the predecessor is free *)
    destruct (Hpl eq_refl) as (l1' & El1). clearbody pv.
    destruct pv as [psz pa]. cbn [fst snd] in *. subst pa l1.
    rewrite span_app in Eb. cbn [span fst] in Eb.
    rewrite <- app_assoc in Ht, Hsub. cbn [app] in Ht, Hsub.
    assert (Hinp : In (b - psz, (psz, false))
                      (layout (first_block s) (l1' ++ (psz, false) :: (sz, false) :: l2))).
    { replace (b - psz) with (first_block s + span l1') by lia. apply In_layout_mid. }
    assert (Hinb : In (b, (sz, false))
                      (layout (first_block s) (l1' ++ (psz, false) :: (sz, false) :: l2))).
    { pose proof (In_layout_mid (first_block s) (l1' ++ [(psz, false)]) (sz, false) l2) as H.
      rewrite <- app_assoc, span_app in H. cbn [span fst app] in H.
      rewrite <- Eb in H. exact H. }
    pose proof (block_facts _ _ _ _ Hf Ht Hinp) as Hpb. cbn [fst snd] in Hpb.
    destruct Hpb as (Hpb1 & Hpb2 & Hpb3 & Hpb4 & Hpb5 & Hpbh & Hpbf).
    assert (Hpfl : In (b - psz) fl).
    { apply Hin. left. rewrite free_addrs_app, free_addrs_cons. cbn [fst snd].
      apply in_or_app. right. simpl. left. lia. }
    wp_go.
    eapply wp_remove_block; eauto.
    intros s1 fl1 Hfl1 Hin1 Hreg1 Hm1.
    pose proof Hreg1 as (R1 & R2 & R3 & R4).
    pose proof (proj1 Ht) as Hs.
    assert (Hsub1 : forall c, In c fl1 -> In c fl) by (intros c Hc; apply Hin1 in Hc; tauto).
    assert (Hns1 : ~ link_slot fl (b - 8)).
    { apply (not_slot_in_block _ _ _ _ _ _ Hs Hsub Hinb); cbn [fst]; lia. }
    assert (Hns2 : ~ link_slot fl (b + (sz - 16))).
    { apply (not_slot_in_block _ _ _ _ _ _ Hs Hsub Hinb); cbn [fst]; lia. }
    assert (Hns3 : ~ link_slot fl (b - 16)).
    { apply (not_slot_in_block _ _ _ _ _ _ Hs Hsub Hinp); cbn [fst]; lia. }
    assert (Hns4 : ~ link_slot fl (b - psz - 8)).
    { apply (not_slot_in_block _ _ _ _ _ _ Hs Hsub Hinp); cbn [fst]; lia. }
    assert (Hbh1 : mem s1 (b - 8) = tag (sz, false)) by (rewrite Hm1; auto).
    assert (Hpf1 : mem s1 (b - 16) = tag (psz, false)) by (rewrite Hm1; auto).
    wp_go.
    match goal with |- wp _ _ ?st => set (s3 := st) end.
    assert (Hreg3 : same_region s s3) by (unfold same_region, s3; proj_simpl; auto).
    assert (Hfb3 : first_block s3 = first_block s) by (apply first_block_region; auto).
    assert (Hpre3 : pre_coalesce s3 l1' (sz + psz) l2 fl1).
    { destruct (tiles_replace s s3 l1' [(psz, false); (sz, false)] [(sz + psz, false)] l2 fl)
        as (Hf3 & Ht3); auto.
      - intros a Ha Hr. unfold s3. proj_simpl. cbn [span fst] in Hr.
        upd_simpl. auto.
      - discriminate.
      - apply sizes_ok_cons. cbn [fst]. split; [lia | constructor].
      - cbn [span fst]. lia.
      - apply tagged_cons. cbn [fst]. rewrite tag_free. unfold s3. proj_simpl.
        upd_simpl. repeat split. constructor.
      - split; [exact Hf3 |]. split; [exact Ht3 |]. split; [| split; [| split]].
        + unfold s3. apply free_list_upd; [apply free_list_upd |]; auto;
            intros Hl; [apply Hns2 | apply Hns4];
            eapply link_slot_mono; eauto.
        + intros c. rewrite Hfb3, Hin1, Hin, free_addrs_app, free_addrs_cons.
          cbn [fst snd app free_addrs layout filter map].
          replace (first_block s + span l1' + (sz + psz)) with (b + sz) by lia.
          apply sizes_ok_app in Hs. destruct Hs as [Hs1 Hs2].
          apply sizes_ok_cons in Hs2. destruct Hs2 as [_ Hs2].
          apply sizes_ok_cons in Hs2. destruct Hs2 as [_ Hs2].
          rewrite !in_app_iff. simpl. split.
          * intros [[[H | [H | []]] | H] Hne]; auto. lia.
          * intros [H | H].
            -- pose proof (free_addrs_bounds _ _ _ Hs1 H). split; [auto | lia].
            -- pose proof (free_addrs_bounds _ _ _ Hs2 H). split; [auto | lia].
        + apply no_adj_free_app in Hn1. tauto.
        + exact Hn2. }
    assert (Hla : snd (last l1' (OVERHEAD, true)) = true).
    { apply no_adj_free_app in Hn1. destruct Hn1 as (_ & _ & Hn1).
      destruct (snd (last l1' (OVERHEAD, true))); auto. }
    eapply wp_insert_block; eauto.
    + rewrite Hfb3. lia.
    + intros s' Hwf Hreg Hh Hm. wp_go.
      eapply HQ; eauto.
      * eapply same_region_trans; eauto.
      * exists l1', psz, l2, 0. replace (psz + sz + 0) with (sz + psz) by lia.
        repeat split; auto. lia.
      * intros a Ha. rewrite <- app_assoc in Ha. cbn [app] in Ha.
        rewrite Hm.
        -- unfold s3. proj_simpl.
           rewrite !upd_other; [| intros ->; apply Ha; in_some_free ..].
           apply Hm1. intros Hl. apply Ha.
           eapply link_slot_in_free; [exact Hs | exact Hsub | exact Hl].
        -- intros Hl. apply Ha.
           eapply link_slot_in_free; [exact Hs | | exact Hl].
           intros c [<- | Hc]; [apply Hsub; exact Hpfl | apply Hsub, Hsub1, Hc].
  - (* both neighbours are free *)
    destruct (Hpl eq_refl) as (l1' & El1). clearbody pv.
    destruct pv as [psz pa]. cbn [fst snd] in *. subst pa l1.
    destruct (Hxl eq_refl) as (l2' & El2). clearbody nx.
    destruct nx as [nsz na]. cbn [fst snd] in *. subst na l2.
    rewrite span_app in Eb. cbn [span fst] in Eb.
    rewrite <- app_assoc in Ht, Hsub. cbn [app] in Ht, Hsub.
    set (l := l1' ++ (psz, false) :: (sz, false) :: (nsz, false) :: l2') in *.
    assert (Hinp : In (b - psz, (psz, false)) (layout (first_block s) l)).
    { replace (b - psz) with (first_block s + span l1') by lia. apply In_layout_mid. }
    assert (Hinb : In (b, (sz, false)) (layout (first_block s) l)).
    { pose proof (In_layout_mid (first_block s) (l1' ++ [(psz, false)]) (sz, false)
                    ((nsz, false) :: l2')) as H.
      rewrite <- app_assoc, span_app in H. cbn [span fst app] in H.
      rewrite <- Eb in H. exact H. }
    assert (Hinn : In (b + sz, (nsz, false)) (layout (first_block s) l)).
    { pose proof (In_layout_mid (first_block s) (l1' ++ [(psz, false); (sz, false)])
                    (nsz, false) l2') as H.
      rewrite <- app_assoc, span_app in H. cbn [span fst app] in H.
      replace (first_block s + (span l1' + (psz + (sz + 0)))) with (b + sz) in H by lia.
      exact H. }
    pose proof (block_facts _ _ _ _ Hf Ht Hinp) as Hpb. cbn [fst snd] in Hpb.
    destruct Hpb as (Hpb1 & Hpb2 & Hpb3 & Hpb4 & Hpb5 & Hpbh & Hpbf).
    pose proof (block_facts _ _ _ _ Hf Ht Hinn) as Hnb. cbn [fst snd] in Hnb.
    destruct Hnb as (Hnb1 & Hnb2 & Hnb3 & Hnb4 & Hnb5 & Hnbh & Hnbf).
    assert (Hpfl : In (b - psz) fl).
    { apply Hin. left. rewrite free_addrs_app, free_addrs_cons. cbn [fst snd].
      apply in_or_app. right. simpl. left. lia. }
    assert (Hnfl : In (b + sz) fl).
    { apply Hin. right. rewrite free_addrs_cons. simpl. auto. }
    pose proof (proj1 Ht) as Hs.
    wp_go.
    eapply wp_remove_block; eauto.
    intros s1 fl1 Hfl1 Hin1 Hreg1 Hm1.
    pose proof Hreg1 as (R1 & R2 & R3 & R4).
    assert (Hsub1 : forall c, In c fl1 -> In c fl) by (intros c Hc; apply Hin1 in Hc; tauto).
    destruct (tiles_links _ _ _ _ Hf Ht Hsub Hreg1 Hm1) as [Hf1 Ht1].
    pose proof (first_block_region _ _ Hreg1) as Hfb1.
    assert (Hns1 : ~ link_slot fl (b - 8)).
    { apply (not_slot_in_block _ _ _ _ _ _ Hs Hsub Hinb); cbn [fst]; lia. }
    assert (Hns3 : ~ link_slot fl (b - 16)).
    { apply (not_slot_in_block _ _ _ _ _ _ Hs Hsub Hinp); cbn [fst]; lia. }
    assert (Hns4 : ~ link_slot fl (b - psz - 8)).
    { apply (not_slot_in_block _ _ _ _ _ _ Hs Hsub Hinp); cbn [fst]; lia. }
    assert (Hns5 : ~ link_slot fl (b - psz + (sz + psz + nsz - 16))).
    { apply (not_slot_in_block _ _ _ _ _ _ Hs Hsub Hinn); cbn [fst]; lia. }
    assert (Hbh1 : mem s1 (b - 8) = tag (sz, false)) by (rewrite Hm1; auto).
    assert (Hpf1 : mem s1 (b - 16) = tag (psz, false)) by (rewrite Hm1; auto).
    wp_go.
    eapply wp_remove_block with (l := l) (fl := fl1); eauto.
    { intros c Hc. rewrite Hfb1. auto. }
    { apply Hin1. split; [exact Hnfl | lia]. }
    intros s2 fl2 Hfl2 Hin2 Hreg2 Hm2.
    pose proof Hreg2 as (R1' & R2' & R3' & R4').
    assert (Hsub2 : forall c, In c fl2 -> In c fl).
    { intros c Hc. apply Hin2 in Hc. destruct Hc as [Hc _]. auto. }
    assert (Hm12 : forall a, ~ link_slot fl a -> mem s2 a = mem s a).
    { intros a Ha. rewrite Hm2; [apply Hm1; exact Ha |].
      intros Hl. apply Ha. exact (link_slot_mono _ _ _ Hsub1 Hl). }
    assert (Hpf2 : mem s2 (b - 16) = tag (psz, false)) by (rewrite Hm12; auto).
    wp_go.
    match goal with |- wp _ _ ?st => set (s3 := st) end.
    assert (Hreg3 : same_region s s3).
    { unfold same_region, s3; proj_simpl. repeat split; congruence. }
    assert (Hfb3 : first_block s3 = first_block s) by (apply first_block_region; auto).
    assert (Hpre3 : pre_coalesce s3 l1' (sz + psz + nsz) l2' fl2).
    { destruct (tiles_replace s s3 l1' [(psz, false); (sz, false); (nsz, false)]
                  [(sz + psz + nsz, false)] l2' fl)
        as (Hf3 & Ht3); auto.
      - intros a Ha Hr. unfold s3. proj_simpl. cbn [span fst] in Hr.
        upd_simpl. auto.
      - discriminate.
      - apply sizes_ok_cons. cbn [fst]. split; [lia | constructor].
      - cbn [span fst]. lia.
      - apply tagged_cons. cbn [fst]. rewrite tag_free. unfold s3. proj_simpl.
        upd_simpl. repeat split. constructor.
      - split; [exact Hf3 |]. split; [exact Ht3 |]. split; [| split; [| split]].
        + unfold s3. apply free_list_upd; [apply free_list_upd |]; auto;
            intros Hl; [apply Hns4 | apply Hns5];
            eapply link_slot_mono; eauto.
        + intros c. rewrite Hfb3, Hin2, Hin1, Hin, free_addrs_app, !free_addrs_cons.
          cbn [fst snd app free_addrs layout filter map].
          replace (first_block s + span l1' + (sz + psz + nsz)) with (b + sz + nsz) by lia.
          apply sizes_ok_app in Hs. destruct Hs as [Hs1 Hs2].
          apply sizes_ok_cons in Hs2. destruct Hs2 as [_ Hs2].
          apply sizes_ok_cons in Hs2. destruct Hs2 as [_ Hs2].
          apply sizes_ok_cons in Hs2. destruct Hs2 as [_ Hs2].
          rewrite !in_app_iff. simpl. split.
          * intros [[[[H | [H | []]] | [H | H]] Hne1] Hne2]; auto; lia.
          * intros [H | H].
            -- pose proof (free_addrs_bounds _ _ _ Hs1 H). repeat split; [auto | lia | lia].
            -- pose proof (free_addrs_bounds _ _ _ Hs2 H). repeat split; [auto | lia | lia].
        + apply no_adj_free_app in Hn1. tauto.
        + apply no_adj_free_cons in Hn2. tauto. }
    assert (Hla : snd (last l1' (OVERHEAD, true)) = true).
    { apply no_adj_free_app in Hn1. destruct Hn1 as (_ & _ & Hn1).
      destruct (snd (last l1' (OVERHEAD, true))); auto. }
    eapply wp_insert_block; eauto.
    + rewrite Hfb3. lia.
    + apply no_adj_free_cons in Hn2. destruct Hn2 as [Hn2 _]. auto.
    + intros s' Hwf Hreg Hh Hm. wp_go.
      eapply HQ; eauto.
      * eapply same_region_trans; eauto.
      * exists l1', psz, l2', nsz.
        replace (psz + sz + nsz) with (sz + psz + nsz) by lia.
        repeat split; auto. lia.
      * intros a Ha. rewrite <- app_assoc in Ha. cbn [app] in Ha.
        rewrite Hm.
        -- unfold s3. proj_simpl.
           rewrite !upd_other; [| intros ->; apply Ha; in_some_free ..].
           apply Hm12. intros Hl. apply Ha.
           eapply link_slot_in_free; [exact Hs | exact Hsub | exact Hl].
        -- intros Hl. apply Ha.
           eapply link_slot_in_free; [exact Hs | | exact Hl].
           intros c [<- | Hc]; [apply Hsub; exact Hpfl | apply Hsub, Hsub2, Hc].
Qed.

Lemma wp_coalesce s l1 sz l2 fl b (Q : Z -> state -> Prop) :
  pre_coalesce s l1 sz l2 fl ->
  b = first_block s + span l1 ->
  (forall s' l' fl' b',
      wf s' l' fl' -> same_region s s' -> head s' = b' ->
      merged (first_block s) l1 sz l2 l' b' -> Q b' s') ->
  wp (coalesce b) Q s.
Proof.
  intros Hpre Eb HQ. apply (wp_coalesce_frame s l1 sz l2 fl b Q Hpre Eb).
  intros s' l' fl' b' H1 H2 H3 H4 _. exact (HQ s' l' fl' b' H1 H2 H3 H4).
Qed.

(** ** Placement *)

Lemma wf_sub s l fl : wf s l fl -> free_sub s l fl.
Proof. intros (_ & _ & _ & Hin & _) b Hb. apply Hin. exact Hb. Qed.

Lemma Forall_slot_ok_region s s' fl :
  same_region s s' -> Forall (slot_ok s) fl -> Forall (slot_ok s') fl.
Proof.
  intros Hreg. apply Forall_impl. intros b. apply slot_ok_region. exact Hreg.
Qed.

Lemma no_adj_free_alloc l1 sz sz' l2 :
  no_adj_free (l1 ++ (sz, false) :: l2) -> no_adj_free (l1 ++ (sz', true) :: l2).
Proof.
  rewrite !no_adj_free_app, !no_adj_free_cons. cbn [hd snd].
  intuition congruence.
Qed.

(** [place] writes nothing but bytes of free blocks. *)
Lemma wp_place_frame s l1 sz l2 fl b asize (Q : unit -> state -> Prop) :
  wf s (l1 ++ (sz, false) :: l2) fl ->
  b = first_block s + span l1 ->
  MINSIZE <= asize -> asize mod DSIZE = 0 -> asize <= sz ->
  (forall s' l' fl',
      wf s' l' fl' -> same_region s s' -> placed l1 sz asize l2 l' ->
      (sz - asize < MINSIZE -> forall c, In c fl' <-> In c fl /\ c <> b) ->
      (MINSIZE <= sz - asize -> head s' = b + asize) ->
      (forall a, ~ in_free (first_block s) (l1 ++ (sz, false) :: l2) a ->
                 mem s' a = mem s a) ->
      Q tt s') ->
  wp (place b asize) Q s.
Proof.
  intros Hwf Eb Ha1 Ha2 Ha3 HQ.
  pose proof (wf_sub _ _ _ Hwf) as Hsub.
  destruct Hwf as (Hf & Ht & Hfl & Hin & Hn).
  pose proof (framed_bounds _ Hf) as [Hlo Hbrk].
  pose proof (In_layout_mid (first_block s) l1 (sz, false) l2) as Hinb.
  rewrite <- Eb in Hinb.
  pose proof (block_facts _ _ _ _ Hf Ht Hinb) as Hb.
  cbn [fst snd] in Hb.
  destruct Hb as (Hb1 & Hb2 & Hb3 & Hb4 & Hb5 & Hbh & Hbf).
  pose proof (proj1 Ht) as Hs.
  pose proof (free_slot_ok _ _ _ Hf Ht Hsub) as Hok.
  assert (Hbfl : In b fl).
  { apply Hin. rewrite free_addrs_app, free_addrs_cons. cbn [fst snd].
    apply in_or_app. right. simpl. left. lia. }
  consts.
  unfold place. wp_go.
  norm. destruct (Z.ltb_spec (sz - asize) 32) as [Hsmall | Hbig].
  - (* the whole block is allocated *)
    rewrite orb_true_r.
    assert (Hns1 : ~ link_slot fl (b - 8)).
    { apply (not_slot_in_block _ _ _ _ _ _ Hs Hsub Hinb); cbn [fst]; lia. }
    assert (Hns2 : ~ link_slot fl (b + (sz - 16))).
    { apply (not_slot_in_block _ _ _ _ _ _ Hs Hsub Hinb); cbn [fst]; lia. }
    wp_go.
    match goal with |- wp _ _ ?st => set (s2 := st) end.
    assert (Hreg2 : same_region s s2) by (unfold same_region, s2; proj_simpl; auto).
    apply wp_remove_In with (fl := fl).
    { unfold s2. apply free_list_upd; [apply free_list_upd |]; auto. }
    { eapply Forall_slot_ok_region; eauto. }
    { unfold s2. proj_simpl. lia. }
    { unfold s2. proj_simpl. change (2 ^ 63) with 9223372036854775808. lia. }
    { exact Hbfl. }
    intros s3 fl3 Hfl3 Hin3 Hreg3 Hm3.
    pose proof (same_region_trans _ _ _ Hreg2 Hreg3) as Hreg.
    pose proof (first_block_region _ _ Hreg) as Hfb.
    destruct (tiles_replace s s3 l1 [(sz, false)] [(sz, true)] l2 fl) as (Hf3 & Ht3); auto.
    { intros a Ha Hr. rewrite Hm3 by exact Ha. unfold s2. proj_simpl.
      cbn [span fst] in Hr. upd_simpl. reflexivity. }
    { discriminate. }
    { apply sizes_ok_cons. cbn [fst]. split; [lia | constructor]. }
    { apply tagged_cons. cbn [fst]. rewrite <- Eb.
      rewrite !Hm3 by (auto; replace (b + sz - 16) with (b + (sz - 16)) by lia; auto).
      unfold s2. proj_simpl. upd_simpl. unfold tag. cbn [fst snd Z.b2z].
      repeat split. constructor. }
    eapply HQ with (l' := l1 ++ (sz, true) :: l2) (fl' := fl3); eauto.
    + split; [exact Hf3 |]. split; [exact Ht3 |]. split; [exact Hfl3 |]. split.
      * intros c. rewrite Hfb, Hin3, Hin, !free_addrs_app, !free_addrs_cons.
        cbn [fst snd app]. rewrite !in_app_iff. rewrite <- Eb. simpl.
        apply sizes_ok_app in Hs. destruct Hs as [Hs1 Hs2].
        apply sizes_ok_cons in Hs2. destruct Hs2 as [_ Hs2].
        split.
        -- intros [[H | [H | H]] Hne]; auto. congruence.
        -- intros [H | H].
           ++ pose proof (free_addrs_bounds _ _ _ Hs1 H). split; [auto | lia].
           ++ pose proof (free_addrs_bounds _ _ _ Hs2 H). split; [auto | lia].
      * eapply no_adj_free_alloc; eauto.
    + left. unfold MINSIZE. auto.
    + unfold MINSIZE. intros. lia.
    + intros a Ha. rewrite Hm3.
      * unfold s2. proj_simpl.
        rewrite !upd_other; [reflexivity | intros ->; apply Ha; in_some_free ..].
      * intros Hl. apply Ha.
        eapply link_slot_in_free; [exact Hs | exact Hsub | exact Hl].
  - (* the block is split *)
    eqb_dec.
    assert (Hns1 : ~ link_slot fl (b - 8)).
    { apply (not_slot_in_block _ _ _ _ _ _ Hs Hsub Hinb); cbn [fst]; lia. }
    assert (Hns2 : ~ link_slot fl (b + (asize - 16))).
    { apply (not_slot_in_block _ _ _ _ _ _ Hs Hsub Hinb); cbn [fst]; lia. }
    assert (Hns3 : ~ link_slot fl (b + asize - 8)).
    { apply (not_slot_in_block _ _ _ _ _ _ Hs Hsub Hinb); cbn [fst]; lia. }
    assert (Hns4 : ~ link_slot fl (b + asize + (sz - asize - 16))).
    { apply (not_slot_in_block _ _ _ _ _ _ Hs Hsub Hinb); cbn [fst]; lia. }
    wp_go.
    match goal with |- wp _ _ ?st => set (s2 := st) end.
    assert (Hreg2 : same_region s s2) by (unfold same_region, s2; proj_simpl; auto).
    apply wp_remove_In with (fl := fl).
    { unfold s2. apply free_list_upd; [apply free_list_upd |]; auto. }
    { eapply Forall_slot_ok_region; eauto. }
    { unfold s2. proj_simpl. lia. }
    { unfold s2. proj_simpl. change (2 ^ 63) with 9223372036854775808. lia. }
    { exact Hbfl. }
    intros s3 fl3 Hfl3 Hin3 Hreg3 Hm3.
    pose proof (same_region_trans _ _ _ Hreg2 Hreg3) as Hreg.
    pose proof Hreg as (R1 & R2 & R3 & R4).
    assert (Hsub3 : forall c, In c fl3 -> In c fl).
    { intros c Hc. apply Hin3 in Hc. destruct Hc as [Hc _]. auto. }
    assert (Hh3 : mem s3 (b - 8) = PACK asize 1).
    { rewrite Hm3 by auto. unfold s2. proj_simpl. upd_simpl. reflexivity. }
    assert (Hf3 : mem s3 (b + (asize - 16)) = PACK asize 1).
    { rewrite Hm3 by auto. unfold s2. proj_simpl. upd_simpl. reflexivity. }
    wp_go.
    match goal with |- wp _ _ ?st => set (s5 := st) end.
    assert (Hreg5 : same_region s s5).
    { unfold same_region, s5; proj_simpl. auto. }
    pose proof (first_block_region _ _ Hreg5) as Hfb5.
    assert (Hpre5 : pre_coalesce s5 (l1 ++ [(asize, true)]) (sz - asize) l2 fl3).
    { destruct (tiles_replace s s5 l1 [(sz, false)]
                  [(asize, true); (sz - asize, false)] l2 fl) as (Hf5 & Ht5); auto.
      - intros a Ha Hr. unfold s5. proj_simpl. cbn [span fst] in Hr.
        upd_simpl. rewrite Hm3 by exact Ha. unfold s2. proj_simpl.
        upd_simpl. reflexivity.
      - discriminate.
      - apply sizes_ok_cons. cbn [fst]. split; [lia |].
        apply sizes_ok_cons. cbn [fst]. split; [lia | constructor].
      - cbn [span fst]. lia.
      - rewrite <- Eb. apply tagged_cons. cbn [fst]. split.
        + unfold tag. cbn [fst snd Z.b2z]. unfold s5. proj_simpl.
          upd_simpl. rewrite Hh3.
          replace (b + asize - 16) with (b + (asize - 16)) by lia.
          rewrite Hf3. auto.
        + apply tagged_cons. cbn [fst]. rewrite tag_free. unfold s5. proj_simpl.
          upd_simpl. repeat split. constructor.
      - cbn [app] in Ht5. unfold pre_coalesce. rewrite <- app_assoc. cbn [app].
        split; [exact Hf5 |]. split; [exact Ht5 |]. split; [| split; [| split]].
        + unfold s5. apply free_list_upd; [apply free_list_upd |]; auto;
            intros Hl; [apply Hns3 | apply Hns4];
            exact (link_slot_mono _ _ _ Hsub3 Hl).
        + intros c. rewrite Hfb5, Hin3, Hin, !free_addrs_app, !free_addrs_cons.
          cbn [fst snd app free_addrs layout filter map].
          rewrite !in_app_iff. rewrite span_app. cbn [span fst]. rewrite <- Eb.
          replace (first_block s + (span l1 + (asize + 0)) + (sz - asize))
            with (b + sz) by lia.
          apply sizes_ok_app in Hs. destruct Hs as [Hs1 Hs2].
          apply sizes_ok_cons in Hs2. destruct Hs2 as [_ Hs2].
          simpl. split.
          * intros [[H | [H | H]] Hne]; auto; congruence.
          * intros [[H | []] | H].
            -- pose proof (free_addrs_bounds _ _ _ Hs1 H). split; [auto | lia].
            -- pose proof (free_addrs_bounds _ _ _ Hs2 H). split; [auto | lia].
        + apply no_adj_free_app in Hn. destruct Hn as (Hn1 & Hn2 & _).
          apply no_adj_free_app. repeat split; auto; discriminate.
        + apply no_adj_free_app in Hn. destruct Hn as (_ & Hn2 & _).
          apply no_adj_free_cons in Hn2. tauto. }
    eapply wp_coalesce_frame; eauto.
    + rewrite Hfb5, span_app. cbn [span fst]. lia.
    + intros s' l' fl' b' Hwf' Hreg' Hh' Hmg Hfr. wp_go.
      destruct Hmg as (l1' & psz & l2' & nsz & El & Eb' & Hprev & Hnext).
      destruct Hprev as [(-> & -> & _) | Hprev].
      2: { apply app_inj_tail in Hprev. destruct Hprev as [_ Hprev]. discriminate. }
      rewrite <- app_assoc in El. cbn [app] in El.
      eapply HQ; eauto.
      * eapply same_region_trans; eauto.
      * right. unfold MINSIZE. split; [lia |]. exists nsz, l2'.
        replace (0 + (sz - asize) + nsz) with (sz - asize + nsz) in El by lia.
        split; [exact El | exact Hnext].
      * unfold MINSIZE. intros. lia.
      * intros _. rewrite Hh', Eb', Hfb5, span_app. cbn [span fst]. lia.
      * intros a Ha.
        assert (Ha' : ~ in_free (first_block s) (l1 ++ (sz, false) :: l2) a /\
                      ~ (b - 8 <= a < b + sz - 8)).
        { split; [exact Ha |]. intros Hr. apply Ha. in_some_free. }
        destruct Ha' as [_ Hnb].
        rewrite Hfr.
        -- unfold s5. proj_simpl. rewrite !upd_other by lia.
           rewrite Hm3.
           ++ unfold s2. proj_simpl. rewrite !upd_other by lia. reflexivity.
           ++ intros Hl. apply Ha.
              eapply link_slot_in_free; [exact Hs | exact Hsub | exact Hl].
        -- intros Hi. apply Ha. rewrite Hfb5 in Hi.
           rewrite <- app_assoc in Hi. cbn [app] in Hi.
           rewrite in_free_app, !in_free_cons in Hi.
           rewrite in_free_app, in_free_cons.
           cbn [fst snd] in *. unfold block_bytes in *. rewrite <- Eb in *.
           replace (b + asize + (sz - asize)) with (b + sz) in Hi by lia.
           consts. intuition (try discriminate; try lia).
Qed.

Lemma wp_place s l1 sz l2 fl b asize (Q : unit -> state -> Prop) :
  wf s (l1 ++ (sz, false) :: l2) fl ->
  b = first_block s + span l1 ->
  MINSIZE <= asize -> asize mod DSIZE = 0 -> asize <= sz ->
  (forall s' l' fl',
      wf s' l' fl' -> same_region s s' -> placed l1 sz asize l2 l' ->
      (sz - asize < MINSIZE -> forall c, In c fl' <-> In c fl /\ c <> b) ->
      (MINSIZE <= sz - asize -> head s' = b + asize) ->
      Q tt s') ->
  wp (place b asize) Q s.
Proof.
  intros Hwf Eb Ha1 Ha2 Ha3 HQ.
  apply (wp_place_frame s l1 sz l2 fl b asize Q Hwf Eb Ha1 Ha2 Ha3).
  intros s' l' fl' H1 H2 H3 H4 H5 _. exact (HQ s' l' fl' H1 H2 H3 H4 H5).
Qed.

(** ** First fit *)

Lemma wp_find_fit_loop asize s fl : forall fuel prev cur,
  dllseg (mem s) prev cur fl NULL ->
  Forall (slot_ok s) fl ->
  Forall (fun b => mem_start_brk s + 8 <= b) fl ->
  0 < mem_start_brk s -> mem_brk s < 2 ^ 63 ->
  (length fl < fuel)%nat ->
  find_fit_loop fuel asize cur s = Ok (first_fit (mem s) asize fl) s.
Proof.
  change (2 ^ 63) with 9223372036854775808.
  induction fl as [| b fl IH]; intros fuel prev cur Hd Hok Hlow Hlo Hbrk Hfuel.
  - destruct fuel as [| fuel]; [simpl in Hfuel; lia |].
    simpl in Hd. subst cur. reflexivity.
  - destruct fuel as [| fuel]; [simpl in Hfuel; lia |].
    cbn [dllseg] in Hd. destruct Hd as (-> & Hp & Hd).
    apply Forall_cons_iff in Hok. destruct Hok as [Hb Hok].
    apply Forall_cons_iff in Hlow. destruct Hlow as [Hb' Hlow].
    unfold slot_ok in Hb. consts.
    cbn [find_fit_loop first_fit]. consts.
    destruct (Z.eqb_spec b 0) as [E | _]; [lia |].
    unfold GET_SIZE, GET_SUCC, bind, ret, GET. consts.
    rewrite HDRP_small by lia. rewrite PADD_small by lia.
    assert (Hv1 : valid s (b - 8) = true) by (apply valid_iff; lia).
    assert (Hv2 : valid s (b + 8) = true) by (apply valid_iff; lia).
    rewrite Hv1.
    destruct (asize <=? size_of_word (mem s (b - 8))); [reflexivity |].
    rewrite Hv2. apply IH with (prev := b); auto. simpl in Hfuel. lia.
Qed.

Lemma first_fit_cases m asize fl :
  (first_fit m asize fl = NULL /\
   forall b, In b fl -> size_of_word (m (b - 8)) < asize) \/
  (In (first_fit m asize fl) fl /\
   asize <= size_of_word (m (first_fit m asize fl - 8))).
Proof.
  induction fl as [| b fl IH]; cbn [first_fit]; consts.
  - left. split; [reflexivity | intros b []].
  - destruct (Z.leb_spec asize (size_of_word (m (b - 8)))) as [Hle | Hgt].
    + right. simpl. auto.
    + destruct IH as [[E Hall] | [Hin Hle]].
      * left. split; [exact E |]. intros c [<- | Hc]; auto.
      * right. simpl. auto.
Qed.

(** In a well-formed heap [find_fit] returns, leaves the state alone, and
    yields the first fitting member of the free list. *)
Lemma find_fit_wf s l fl fuel asize :
  wf s l fl -> (length fl < fuel)%nat ->
  find_fit fuel asize s = Ok (first_fit (mem s) asize fl) s.
Proof.
  intros Hwf Hfuel.
  pose proof (wf_sub _ _ _ Hwf) as Hsub.
  destruct Hwf as (Hf & Ht & [Hd Hnd] & Hin & Hn).
  pose proof (framed_bounds _ Hf) as [Hlo Hbrk].
  unfold find_fit, bind, get_head.
  apply wp_find_fit_loop with (prev := NULL); auto.
  - eapply free_slot_ok; eauto.
  - apply Forall_forall. intros b Hb. apply Hsub in Hb.
    apply In_free_addrs in Hb. destruct Hb as (sz & Hb).
    pose proof (block_facts _ _ _ _ Hf Ht Hb). lia.
Qed.

(** A member of the free list is a free block of the heap. *)
Lemma free_member s l fl b :
  wf s l fl -> In b fl ->
  exists l1 sz l2,
    l = l1 ++ (sz, false) :: l2 /\ b = first_block s + span l1 /\
    size_of_word (mem s (b - 8)) = sz.
Proof.
  intros Hwf Hb. pose proof Hwf as (Hf & Ht & _ & Hin & _).
  apply Hin in Hb. apply In_free_addrs in Hb. destruct Hb as (sz & Hb).
  pose proof (block_facts _ _ _ _ Hf Ht Hb) as H. cbn [fst snd] in H.
  destruct (In_layout_split _ _ _ _ Hb) as (l1 & l2 & El & Eb).
  exists l1, sz, l2. repeat split; auto.
  destruct H as (_ & _ & H3 & H4 & _ & Hh & _).
  rewrite Hh. apply size_of_word_tag; cbn [fst]; lia.
Qed.

(** ** Adjusted sizes *)

Lemma adjust_small size :
  0 < size -> size + 31 < 18446744073709551616 ->
  MINSIZE <= adjust size /\ adjust size mod DSIZE = 0 /\
  size + OVERHEAD <= adjust size /\
  adjust size <= size + OVERHEAD + (DSIZE - 1).
Proof.
  intros Hpos Hov. unfold adjust. consts.
  destruct (Z.leb_spec size 16).
  - rewrite wrap_small by lia. lia.
  - rewrite (wrap_small (size + 16)) by lia.
    rewrite (wrap_small (size + 16 + (16 - 1))) by lia.
    rewrite wrap_small by lia. lia.
Qed.

(** The search never writes: whatever it returns, the state is the one it
    started in. *)
Lemma find_fit_loop_readonly asize : forall fuel cur s bp s',
  find_fit_loop fuel asize cur s = Ok bp s' -> s' = s.
Proof.
  induction fuel as [| fuel IH]; intros cur s bp s' H; [discriminate H |].
  cbn [find_fit_loop] in H.
  destruct (cur =? NULL); [inversion H; reflexivity |].
  unfold GET_SIZE, GET_SUCC, bind, GET, ret in H.
  destruct (valid s (HDRP cur)); [| discriminate H].
  destruct (asize <=? size_of_word (mem s (HDRP cur)));
    [inversion H; reflexivity |].
  destruct (valid s (PADD cur WSIZE)); [| discriminate H].
  apply IH in H. exact H.
Qed.

Lemma find_fit_readonly fuel asize s bp s' :
  find_fit fuel asize s = Ok bp s' -> s' = s.
Proof.
  unfold find_fit, bind, get_head. apply find_fit_loop_readonly.
Qed.

(** ** Heap extension *)

Lemma wp_mem_sbrk_ok incr s (Q : Z -> state -> Prop) :
  mem_brk s + incr <= mem_max_addr s ->
  Q (mem_brk s) (with_brk s (mem_brk s + incr)) ->
  wp (mem_sbrk incr) Q s.
Proof.
  intros H HQ. unfold wp, mem_sbrk.
  apply Z.leb_le in H. rewrite H. exact HQ.
Qed.

(** When the region cannot grow, [extend_heap] returns null and touches
    nothing. *)
Lemma extend_heap_fail words s :
  mem_max_addr s < mem_brk s + extend_bytes words ->
  extend_heap words s = Ok NULL s.
Proof.
  intros H. unfold extend_heap, bind, mem_sbrk.
  change (let size := wrap (words * WSIZE) in
          if words mod 2 =? 1 then wrap (size + WSIZE) else size)
    with (extend_bytes words).
  cbv zeta.
  change (if words mod 2 =? 1 then wrap (wrap (words * WSIZE) + WSIZE)
          else wrap (words * WSIZE)) with (extend_bytes words).
  apply Z.leb_gt in H. rewrite H. reflexivity.
Qed.

Lemma extend_bytes_even words :
  0 <= words -> words * 8 + 8 < 18446744073709551616 ->
  extend_bytes words = words * 8 + (if words mod 2 =? 1 then 8 else 0) /\
  extend_bytes words mod 16 = 0.
Proof.
  intros H0 H1. unfold extend_bytes. consts. cbv zeta.
  rewrite (wrap_small (words * 8)) by lia.
  destruct (Z.eqb_spec (words mod 2) 1).
  - rewrite wrap_small by lia. lia.
  - lia.
Qed.

(** [extend_heap] writes nothing in front of the old epilogue but bytes of
    free blocks. *)
Lemma wp_extend_heap_frame s l fl words (Q : Z -> state -> Prop) :
  wf s l fl -> 0 <= words -> words * 8 + 8 < 18446744073709551616 ->
  MINSIZE <= extend_bytes words ->
  mem_brk s + extend_bytes words <= mem_max_addr s ->
  (forall s' l' fl' b',
      wf s' l' fl' ->
      mem_brk s' = mem_brk s + extend_bytes words ->
      mem_start_brk s' = mem_start_brk s -> mem_max_addr s' = mem_max_addr s ->
      heap_start s' = heap_start s -> head s' = b' ->
      merged (first_block s) l (extend_bytes words) [] l' b' ->
      (forall a, a < mem_brk s - 8 -> ~ in_free (first_block s) l a ->
                 mem s' a = mem s a) ->
      Q b' s') ->
  wp (extend_heap words) Q s.
Proof.
  intros Hwf Hw Hwb Hmin Hfit HQ.
  pose proof (wf_sub _ _ _ Hwf) as Hsub.
  destruct Hwf as (Hf & Ht & Hfl & Hin & Hn).
  pose proof (framed_bounds _ Hf) as [Hlo Hbrk].
  pose proof Hf as (_ & Hal & Hmax & Hmx & Hhs & Hph & Hpf & Hep).
  pose proof Ht as (Hs & Htg & He).
  pose proof (sizes_ok_span _ Hs) as Hsp.
  pose proof (span_mod _ Hs) as Hspm.
  change (2 ^ 63) with 9223372036854775808 in Hmx.
  destruct (extend_bytes_even words Hw Hwb) as [_ Hsz16].
  unfold extend_heap.
  change (let size := wrap (words * WSIZE) in
          if words mod 2 =? 1 then wrap (size + WSIZE) else size)
    with (extend_bytes words).
  cbv zeta.
  change (if words mod 2 =? 1 then wrap (wrap (words * WSIZE) + WSIZE)
          else wrap (words * WSIZE)) with (extend_bytes words).
  set (size := extend_bytes words) in *.
  assert (Efb : first_block s = mem_start_brk s + 32) by reflexivity.
  consts.
  wp_step. apply wp_mem_sbrk_ok; [exact Hfit |].
  destruct (Z.leb_spec 9223372036854775808 (mem_brk s)) as [Hbad | _]; [lia |].
  change (2 ^ 63) with 9223372036854775808.
  destruct (Z.leb_spec 9223372036854775808 (mem_brk s)) as [Hbad | _]; [lia |].
  destruct (Z.ltb_spec size 32) as [Hbad | _]; [lia |].
  wp_go. proj_simpl.
  match goal with |- wp _ _ ?st => set (s4 := st) end.
  assert (Hfb4 : first_block s4 = first_block s) by reflexivity.
  assert (Hlow : forall c x, In (c, x) (layout (first_block s) l) ->
                 c - 8 < mem_brk s - 8 /\ c + fst x - 16 < mem_brk s - 8).
  { intros c x Hc. pose proof (layout_bounds _ _ _ _ Hs Hc). lia. }
  assert (Hpre : pre_coalesce s4 l size [] fl).
  { split; [| split; [| split; [| split; [| split]]]].
    - unfold framed, s4. proj_simpl. consts. upd_simpl.
      repeat split; auto; lia.
    - unfold tiles. rewrite Hfb4. split; [| split].
      + apply sizes_ok_app. split; [exact Hs |].
        apply sizes_ok_cons. cbn [fst]. split; [lia | constructor].
      + apply tagged_app. split.
        * eapply tagged_frame; [| exact Htg].
          intros c x Hc. specialize (Hlow c x Hc). unfold s4. proj_simpl.
          upd_simpl. auto.
        * apply tagged_cons. cbn [fst]. rewrite tag_free. unfold s4. proj_simpl.
          replace (first_block s + span l) with (mem_brk s) by lia.
          upd_simpl. repeat split. constructor.
      + unfold s4. proj_simpl. rewrite span_app. cbn [span fst]. lia.
    - eapply free_list_frame; [exact Hfl | reflexivity |].
      intros a Hl.
      destruct (link_slot_block _ _ _ _ Hsub Hl) as (c & csz & Hc & E).
      pose proof (layout_bounds _ _ _ _ Hs Hc) as Hcb. cbn [fst] in Hcb.
      unfold s4. proj_simpl. upd_simpl. reflexivity.
    - intros c. rewrite Hfb4, Hin.
      change (free_addrs (first_block s + span l + size) []) with (@nil Z).
      simpl. tauto.
    - exact Hn.
    - exact I. }
  eapply wp_coalesce_frame; eauto.
  intros s' l' fl' b' Hwf' Hreg' Hh' Hmg Hfr.
  destruct Hreg' as (R1 & R2 & R3 & R4).
  eapply HQ; eauto.
  intros a Hlt Ha. rewrite Hfr.
  - unfold s4. proj_simpl. rewrite !upd_other by lia. reflexivity.
  - rewrite Hfb4, in_free_app, in_free_cons, in_free_nil.
    cbn [fst snd]. unfold block_bytes. consts.
    intros [H | [[_ H] | []]]; [exact (Ha H) | lia].
Qed.

Lemma wp_extend_heap s l fl words (Q : Z -> state -> Prop) :
  wf s l fl -> 0 <= words -> words * 8 + 8 < 18446744073709551616 ->
  MINSIZE <= extend_bytes words ->
  mem_brk s + extend_bytes words <= mem_max_addr s ->
  (forall s' l' fl' b',
      wf s' l' fl' ->
      mem_brk s' = mem_brk s + extend_bytes words ->
      mem_start_brk s' = mem_start_brk s -> mem_max_addr s' = mem_max_addr s ->
      heap_start s' = heap_start s -> head s' = b' ->
      merged (first_block s) l (extend_bytes words) [] l' b' -> Q b' s') ->
  wp (extend_heap words) Q s.
Proof.
  intros Hwf Hw Hwb Hmin Hfit HQ.
  apply (wp_extend_heap_frame s l fl words Q Hwf Hw Hwb Hmin Hfit).
  intros s' l' fl' b' H1 H2 H3 H4 H5 H6 H7 _.
  exact (HQ s' l' fl' b' H1 H2 H3 H4 H5 H6 H7).
Qed.

(** ** Deallocation *)

(** [mm_free] writes nothing but bytes of the block freed and of free
    blocks. *)
Lemma wp_mm_free_frame s l1 sz l2 fl p (Q : unit -> state -> Prop) :
  wf s (l1 ++ (sz, true) :: l2) fl ->
  p = first_block s + span l1 ->
  (forall s' l' fl' b',
      wf s' l' fl' -> same_region s s' -> head s' = b' ->
      merged (first_block s) l1 sz l2 l' b' ->
      (forall a, ~ in_free (first_block s) (l1 ++ (sz, false) :: l2) a ->
                 mem s' a = mem s a) ->
      Q tt s') ->
  wp (mm_free p) Q s.
Proof.
  intros Hwf Ep HQ.
  pose proof (wf_sub _ _ _ Hwf) as Hsub.
  destruct Hwf as (Hf & Ht & Hfl & Hin & Hn).
  pose proof (framed_bounds _ Hf) as [Hlo Hbrk].
  pose proof (In_layout_mid (first_block s) l1 (sz, true) l2) as Hinb.
  rewrite <- Ep in Hinb.
  pose proof (block_facts _ _ _ _ Hf Ht Hinb) as Hb.
  cbn [fst snd] in Hb.
  destruct Hb as (Hb1 & Hb2 & Hb3 & Hb4 & Hb5 & Hbh & Hbf).
  pose proof (proj1 Ht) as Hs.
  assert (Hns1 : ~ link_slot fl (p - 8)).
  { apply (not_slot_in_block _ _ _ _ _ _ Hs Hsub Hinb); cbn [fst]; lia. }
  assert (Hns2 : ~ link_slot fl (p + (sz - 16))).
  { apply (not_slot_in_block _ _ _ _ _ _ Hs Hsub Hinb); cbn [fst]; lia. }
  unfold mm_free. consts.
  destruct (Z.eqb_spec p 0) as [E | _]; [lia |].
  wp_go.
  match goal with |- wp _ _ ?st => set (s2 := st) end.
  assert (Hreg2 : same_region s s2) by (unfold same_region, s2; proj_simpl; auto).
  pose proof (first_block_region _ _ Hreg2) as Hfb2.
  assert (Hpre : pre_coalesce s2 l1 sz l2 fl).
  { destruct (tiles_replace s s2 l1 [(sz, true)] [(sz, false)] l2 fl) as (Hf2 & Ht2); auto.
    - intros a Ha Hr. unfold s2. proj_simpl. cbn [span fst] in Hr.
      upd_simpl. reflexivity.
    - discriminate.
    - apply sizes_ok_cons. cbn [fst]. split; [lia | constructor].
    - apply tagged_cons. cbn [fst]. rewrite tag_free, <- Ep. unfold s2. proj_simpl.
      upd_simpl. repeat split. constructor.
    - split; [exact Hf2 |]. split; [exact Ht2 |]. split; [| split; [| split]].
      + unfold s2. apply free_list_upd; [apply free_list_upd |]; auto.
      + intros c. rewrite Hfb2, Hin, free_addrs_app, free_addrs_cons.
        cbn [fst snd app]. rewrite in_app_iff. tauto.
      + apply no_adj_free_app in Hn. tauto.
      + apply no_adj_free_app in Hn. destruct Hn as (_ & Hn & _).
        apply no_adj_free_cons in Hn. tauto. }
  assert (Hinf : In (p, (sz, false))
                    (layout (first_block s) (l1 ++ (sz, false) :: l2)))
    by (rewrite Ep; apply In_layout_mid).
  eapply wp_coalesce_frame; eauto.
  intros s' l' fl' b' Hwf' Hreg' Hh' Hmg Hfr.
  apply (HQ s' l' fl' b' Hwf' Hreg' Hh' Hmg).
  intros a Ha. rewrite Hfr by exact Ha.
  unfold s2. proj_simpl.
  rewrite !upd_other; [reflexivity | intros ->; apply Ha; in_some_free ..].
Qed.

Lemma wp_mm_free s l1 sz l2 fl p (Q : unit -> state -> Prop) :
  wf s (l1 ++ (sz, true) :: l2) fl ->
  p = first_block s + span l1 ->
  (forall s' l' fl' b',
      wf s' l' fl' -> same_region s s' -> head s' = b' ->
      merged (first_block s) l1 sz l2 l' b' -> Q tt s') ->
  wp (mm_free p) Q s.
Proof.
  intros Hwf Ep HQ. apply (wp_mm_free_frame s l1 sz l2 fl p Q Hwf Ep).
  intros s' l' fl' b' H1 H2 H3 H4 _. exact (HQ s' l' fl' b' H1 H2 H3 H4).
Qed.

(** ** Allocation *)

Lemma max_spec x y : max x y = Z.max x y.
Proof. unfold max. destruct (Z.gtb_spec x y); lia. Qed.

Lemma extend_bytes_chunk asize :
  MINSIZE <= asize -> asize mod DSIZE = 0 -> asize < 18446744073709551616 ->
  extend_bytes (max asize CHUNKSIZE / WSIZE) = max asize CHUNKSIZE /\
  0 <= max asize CHUNKSIZE / WSIZE /\
  max asize CHUNKSIZE / WSIZE * 8 + 8 < 18446744073709551616 /\
  asize <= max asize CHUNKSIZE /\ MINSIZE <= max asize CHUNKSIZE.
Proof.
  intros H1 H2 H3. rewrite max_spec. consts.
  change CHUNKSIZE with 4096.
  assert (Hm : Z.max asize 4096 mod 16 = 0) by lia.
  assert (Hr : 32 <= Z.max asize 4096 < 18446744073709551616) by lia.
  set (e := Z.max asize 4096) in *.
  unfold extend_bytes. consts. cbv zeta.
  assert (Hw : e / 8 * 8 = e) by lia.
  rewrite Hw. rewrite (wrap_small e) by lia.
  destruct (Z.eqb_spec (e / 8 mod 2) 1) as [Hodd | _]; [lia |].
  repeat split; lia.
Qed.

(** ** Extension and the blocks in front of it *)

Lemma extend_frame_aux fb l l1' psz ext brk a :
  fb + span l = brk ->
  (l1' = l /\ psz = 0 /\ snd (last l (OVERHEAD, true)) = true \/
   l = l1' ++ [(psz, false)]) ->
  a < brk - 8 -> ~ in_free fb l a ->
  ~ in_free fb (l1' ++ [(psz + ext + 0, false)]) a.
Proof.
  intros He Hprev Hlt Ha Hi.
  rewrite in_free_app, in_free_cons, in_free_nil in Hi.
  cbn [fst snd] in Hi. unfold block_bytes in Hi. consts.
  destruct Hprev as [(-> & -> & _) | ->].
  - destruct Hi as [Hi | [[_ Hi] | []]]; [exact (Ha Hi) | lia].
  - rewrite span_app in He. cbn [span fst] in He.
    apply Ha. rewrite in_free_app, in_free_cons, in_free_nil.
    cbn [fst snd]. unfold block_bytes. consts.
    destruct Hi as [Hi | [[_ Hi] | []]]; [auto |].
    right. left. split; [reflexivity | lia].
Qed.

Lemma extend_fresh_aux fb l l1' psz c x :
  sizes_ok l ->
  (l1' = l /\ psz = 0 /\ snd (last l (OVERHEAD, true)) = true \/
   l = l1' ++ [(psz, false)]) ->
  in_alloc fb l c x -> c <> fb + span l1'.
Proof.
  intros Hs Hprev Hin.
  destruct Hprev as [(-> & _) | ->].
  - pose proof (in_alloc_bounds _ _ _ _ Hs Hin). lia.
  - apply sizes_ok_app in Hs. destruct Hs as [Hs1 _].
    rewrite in_alloc_app, in_alloc_cons, in_alloc_nil in Hin.
    destruct Hin as [Hin | [[_ E] | []]]; [| discriminate E].
    pose proof (in_alloc_bounds _ _ _ _ Hs1 Hin). lia.
Qed.

(** [mm_malloc] keeps the allocated blocks and writes none of their
    bytes. *)
Lemma wp_mm_malloc_frame s l fl fuel size (Q : Z -> state -> Prop) :
  wf s l fl -> 0 < size -> size + 31 < 18446744073709551616 ->
  (length fl < fuel)%nat ->
  (forall s' l1 bsz l2 fl' p,
      wf s' (l1 ++ (bsz, true) :: l2) fl' ->
      p = first_block s' + span l1 -> p <> NULL ->
      snd (last l1 (OVERHEAD, true)) = true ->
      adjust size <= bsz < adjust size + MINSIZE ->
      mem_start_brk s' = mem_start_brk s ->
      mem_max_addr s' = mem_max_addr s ->
      heap_start s' = heap_start s ->
      (first_fit (mem s) (adjust size) fl <> NULL ->
       p = first_fit (mem s) (adjust size) fl /\ mem_brk s' = mem_brk s) ->
      (first_fit (mem s) (adjust size) fl = NULL ->
       mem_brk s' = mem_brk s + max (adjust size) CHUNKSIZE) ->
      keeps_allocated (first_block s) l (l1 ++ (bsz, true) :: l2) ->
      (forall c x, in_alloc (first_block s) l c x -> c <> p) ->
      (forall a, a < mem_brk s - 8 -> ~ in_free (first_block s) l a ->
                 mem s' a = mem s a) ->
      Q p s') ->
  (first_fit (mem s) (adjust size) fl = NULL ->
   mem_max_addr s < mem_brk s + max (adjust size) CHUNKSIZE ->
   Q NULL s) ->
  wp (mm_malloc fuel size) Q s.
Proof.
  intros Hwf Hpos Hov Hfuel Hok Hfail.
  destruct (adjust_small size Hpos Hov) as (Ha1 & Ha2 & Ha3 & Ha4).
  set (asize := adjust size) in *.
  assert (Ha5 : asize < 18446744073709551616) by (consts; lia).
  destruct (extend_bytes_chunk asize Ha1 Ha2 Ha5) as (Heb & Hw0 & Hw1 & Hge & Hmin).
  pose proof Hwf as (Hf & Ht & Hfl & Hin & Hn).
  pose proof (framed_bounds _ Hf) as [Hlo Hbrk].
  unfold mm_malloc. fold asize.
  destruct (Z.leb_spec size 0) as [Hbad | _]; [lia |].
  apply wp_bind. eapply wp_intro; [apply (find_fit_wf _ _ _ _ asize Hwf Hfuel) |].
  destruct (first_fit_cases (mem s) asize fl) as [[Enull Hall] | [Hmem Hfits]].
  - (* no fit: the heap is extended *)
    rewrite Enull. change (negb (NULL =? NULL)) with false. cbv iota.
    destruct (Z_le_gt_dec (mem_brk s + max asize CHUNKSIZE) (mem_max_addr s))
      as [Hroom | Hnoroom].
    + apply wp_bind. eapply wp_extend_heap_frame; eauto; try (rewrite Heb; auto).
      intros s1 l' fl1 b' Hwf1 Hb1 Hr1 Hr2 Hr3 Hh1 Hmg Hfr1.
      pose proof (merged_keeps _ _ _ _ _ _ Hmg) as Hk1.
      destruct Hmg as (l1' & psz & l2' & nsz & El & Eb' & Hprev & Hnext).
      destruct Hnext as [(-> & -> & _) | Hnext]; [| discriminate].
      assert (Hpsz : 0 <= psz).
      { destruct Hprev as [(_ & -> & _) | Hprev]; [lia |].
        destruct Ht as (Hs & _). rewrite Hprev in Hs.
        apply sizes_ok_app in Hs. destruct Hs as [_ Hs].
        apply sizes_ok_cons in Hs. cbn [fst] in Hs. consts. lia. }
      assert (Hfb1 : first_block s1 = first_block s).
      { unfold first_block. rewrite Hr1. reflexivity. }
      assert (Hb'pos : b' <> NULL).
      { pose proof Hwf1 as (Hf1 & Ht1 & _). rewrite El in Ht1.
        pose proof (block_facts _ _ _ _ Hf1 Ht1 (In_layout_mid _ _ _ _)) as H.
        rewrite Hfb1, <- Eb' in H. consts. lia. }
      destruct (Z.eqb_spec b' NULL) as [E | _]; [contradiction |].
      apply wp_bind. rewrite El in Hwf1, Hk1.
      eapply wp_place_frame; eauto.
      * rewrite Hfb1. exact Eb'.
      * lia.
      * intros s2 l2 fl2 Hwf2 Hreg2 Hpl Hfl2 Hh2 Hfr2. apply wp_ret.
        assert (Hk : keeps_allocated (first_block s) l l2).
        { intros c x Hc. rewrite <- Hfb1.
          apply (placed_keeps _ _ _ _ _ _ Hpl). rewrite Hfb1. apply Hk1.
          apply in_alloc_app. left. exact Hc. }
        assert (Hfresh : forall c x, in_alloc (first_block s) l c x -> c <> b').
        { intros c x Hc. rewrite Eb'.
          exact (extend_fresh_aux _ _ _ _ _ _ (proj1 Ht) Hprev Hc). }
        assert (Hframe : forall a, a < mem_brk s - 8 ->
                                   ~ in_free (first_block s) l a ->
                                   mem s2 a = mem s a).
        { intros a Hlt Ha. rewrite Hfr2; [exact (Hfr1 a Hlt Ha) |].
          rewrite Hfb1.
          exact (extend_frame_aux _ _ _ _ _ _ _ (proj2 (proj2 Ht)) Hprev Hlt Ha). }
        destruct Hreg2 as (R1 & R2 & R3 & R4).
        assert (Hfb2 : first_block s2 = first_block s).
        { unfold first_block. rewrite R1, Hr1. reflexivity. }
        assert (Hla : snd (last l1' (OVERHEAD, true)) = true).
        { destruct Hwf1 as (_ & _ & _ & _ & Hn1).
          apply no_adj_free_app in Hn1. destruct Hn1 as (_ & _ & Hn1).
          apply Bool.not_false_is_true. intros E. apply Hn1 in E.
          simpl in E. discriminate E. }
        destruct Hpl as [[Hsm ->] | (Hbg & nsz' & l2'' & -> & _)].
        -- apply (Hok s2 l1' (psz + max asize CHUNKSIZE + 0) [] fl2 b');
             [ exact Hwf2 | rewrite Hfb2; exact Eb' | exact Hb'pos | exact Hla
             | fold asize; consts; lia | congruence | congruence | congruence
             | intros Hne; contradiction
             | intros _; rewrite R2, Hb1; reflexivity
             | exact Hk | exact Hfresh | exact Hframe ].
        -- eapply (Hok s2 l1' asize _ fl2 b');
             [ exact Hwf2 | rewrite Hfb2; exact Eb' | exact Hb'pos | exact Hla
             | fold asize; consts; lia | congruence | congruence | congruence
             | intros Hne; contradiction
             | intros _; rewrite R2, Hb1; reflexivity
             | exact Hk | exact Hfresh | exact Hframe ].
    + apply wp_bind.
      eapply wp_intro; [apply extend_heap_fail; rewrite Heb; lia |].
      change (NULL =? NULL) with true. cbv iota. apply wp_ret.
      apply Hfail; auto. lia.
  - (* a fit was found *)
    set (p := first_fit (mem s) asize fl) in *.
    destruct (free_member _ _ _ _ Hwf Hmem) as (l1 & sz & l2 & El & Ep & Esz).
    rewrite Esz in Hfits. subst l.
    pose proof (block_facts _ _ _ _ Hf Ht (In_layout_mid _ _ _ _)) as Hb.
    rewrite <- Ep in Hb.
    assert (Hpne : p <> NULL) by (consts; lia).
    destruct (Z.eqb_spec p NULL) as [E | _]; [contradiction |].
    cbn [negb]. apply wp_bind.
    eapply wp_place_frame; eauto.
    intros s2 l' fl2 Hwf2 Hreg2 Hpl Hfl2 Hh2 Hfr2. apply wp_ret.
    pose proof (placed_keeps (first_block s) _ _ _ _ _ Hpl) as Hk.
    assert (Hfresh : forall c x,
               in_alloc (first_block s) (l1 ++ (sz, false) :: l2) c x -> c <> p).
    { intros c x Hc ->.
      apply (alloc_not_free_addr _ _ _ _ (proj1 Ht) Hc). apply Hin. exact Hmem. }
    assert (Hframe : forall a, a < mem_brk s - 8 ->
               ~ in_free (first_block s) (l1 ++ (sz, false) :: l2) a ->
               mem s2 a = mem s a).
    { intros a _ Ha. exact (Hfr2 a Ha). }
    destruct Hreg2 as (R1 & R2 & R3 & R4).
    assert (Hfb2 : first_block s2 = first_block s).
    { unfold first_block. rewrite R1. reflexivity. }
    assert (Hla : snd (last l1 (OVERHEAD, true)) = true).
    { apply no_adj_free_app in Hn. destruct Hn as (_ & _ & Hn).
      apply Bool.not_false_is_true. intros E. apply Hn in E.
      simpl in E. discriminate E. }
    destruct Hpl as [[Hsm ->] | (Hbg & nsz' & l2'' & -> & _)].
    + apply (Hok s2 l1 sz l2 fl2 p);
        [ exact Hwf2 | rewrite Hfb2; exact Ep | exact Hpne | exact Hla
        | fold asize; consts; lia | congruence | congruence | congruence
        | intros _; split; [reflexivity | congruence]
        | intros Hne; contradiction
        | exact Hk | exact Hfresh | exact Hframe ].
    + eapply (Hok s2 l1 asize _ fl2 p);
        [ exact Hwf2 | rewrite Hfb2; exact Ep | exact Hpne | exact Hla
        | fold asize; consts; lia | congruence | congruence | congruence
        | intros _; split; [reflexivity | congruence]
        | intros Hne; contradiction
        | exact Hk | exact Hfresh | exact Hframe ].
Qed.

Lemma wp_mm_malloc s l fl fuel size (Q : Z -> state -> Prop) :
  wf s l fl -> 0 < size -> size + 31 < 18446744073709551616 ->
  (length fl < fuel)%nat ->
  (forall s' l1 bsz l2 fl' p,
      wf s' (l1 ++ (bsz, true) :: l2) fl' ->
      p = first_block s' + span l1 -> p <> NULL ->
      snd (last l1 (OVERHEAD, true)) = true ->
      adjust size <= bsz < adjust size + MINSIZE ->
      mem_start_brk s' = mem_start_brk s ->
      mem_max_addr s' = mem_max_addr s ->
      heap_start s' = heap_start s ->
      (first_fit (mem s) (adjust size) fl <> NULL ->
       p = first_fit (mem s) (adjust size) fl /\ mem_brk s' = mem_brk s) ->
      (first_fit (mem s) (adjust size) fl = NULL ->
       mem_brk s' = mem_brk s + max (adjust size) CHUNKSIZE) ->
      Q p s') ->
  (first_fit (mem s) (adjust size) fl = NULL ->
   mem_max_addr s < mem_brk s + max (adjust size) CHUNKSIZE ->
   Q NULL s) ->
  wp (mm_malloc fuel size) Q s.
Proof.
  intros Hwf Hpos Hov Hfuel Hok Hfail.
  apply (wp_mm_malloc_frame s l fl fuel size Q Hwf Hpos Hov Hfuel); [| exact Hfail].
  intros s' l1 bsz l2 fl' p H1 H2 H3 H4 H5 H6 H7 H8 H9 H10 _ _ _.
  exact (Hok s' l1 bsz l2 fl' p H1 H2 H3 H4 H5 H6 H7 H8 H9 H10).
Qed.

(** ** Initialisation *)

Lemma wp_set_heap_start p (Q : unit -> state -> Prop) s :
  Q tt (with_heap_start s p) -> wp (set_heap_start p) Q s.
Proof. exact (fun H => H). Qed.

(** After [mm_init] the heap is one free block of [CHUNKSIZE] bytes. *)
Lemma wp_mm_init lo hi m0 (Q : Z -> state -> Prop) :
  0 < lo -> lo mod DSIZE = 0 -> lo + 4 * WSIZE + CHUNKSIZE <= hi -> hi < 2 ^ 63 ->
  (forall s' fl',
      wf s' [(CHUNKSIZE, false)] fl' ->
      mem_start_brk s' = lo -> mem_brk s' = lo + 4 * WSIZE + CHUNKSIZE ->
      mem_max_addr s' = hi -> head s' = lo + 2 * DSIZE ->
      Q 0 s') ->
  wp mm_init Q (fresh lo hi m0).
Proof.
  change CHUNKSIZE with 4096. change (2 ^ 63) with 9223372036854775808. consts.
  intros Hlo Hal Hhi Hmx HQ.
  unfold mm_init. consts.
  apply wp_bind. apply wp_mem_sbrk_ok; [unfold fresh; proj_simpl; lia |].
  unfold fresh. proj_simpl.
  apply wp_bind. apply wp_set_heap_start. proj_simpl.
  destruct (Z.eqb_spec lo 0) as [E | _]; [lia |].
  wp_go.
  apply wp_bind. apply wp_set_heap_start. wp_go.
  match goal with |- wp _ _ ?st => set (s1 := st) end.
  assert (Hwf1 : wf s1 [] []).
  { unfold wf, framed, tiles, free_list, first_block, s1. proj_simpl. consts.
    upd_simpl. cbn [span]. repeat split; try lia; try reflexivity.
    - constructor.
    - constructor.
    - constructor.
    - intros H; exact H.
    - intros H; exact H. }
  change (CHUNKSIZE / 8) with 512.
  assert (Heb : extend_bytes 512 = 4096) by reflexivity.
  eapply wp_extend_heap; eauto; try (rewrite Heb; unfold s1; proj_simpl; consts; lia); try lia.
  intros s' l' fl' b' Hwf' Hb Hr1 Hr2 Hr3 Hh Hmg.
  rewrite Heb in *.
  destruct Hmg as (l1' & psz & l2' & nsz & El & Eb' & Hprev & Hnext).
  destruct Hnext as [(-> & -> & _) | Hnext]; [| discriminate].
  destruct Hprev as [(-> & -> & _) | Hprev];
    [| destruct l1'; discriminate].
  subst l'. change (0 + 4096 + 0) with 4096 in Hwf'.
  assert (Eb : b' = lo + 32).
  { rewrite Eb'. cbn [span]. unfold first_block, s1. proj_simpl. consts. lia. }
  destruct (Z.eqb_spec b' 0) as [E | _]; [lia |].
  apply wp_ret. eapply HQ; eauto. lia.
Qed.

(** * The claims *)

(** C1, evaluated at the failing input: after [mm_init], the request
    [n = 2^64 - 16] makes the adjusted size wrap around to [0]; [mm_malloc]
    returns a non-null pointer to a block whose usable size, [8176] bytes,
    is smaller than [n]. *)
Theorem mm_malloc_overflow_undersized :
  let n := 2 ^ 64 - 16 in
  adjust n = 0 /\
  match mm_malloc 1 n (demo_heap MAX_HEAP) with
  | Ok p s =>
      p <> NULL /\
      size_of_word (mem s (HDRP p)) - OVERHEAD = 8176 /\
      size_of_word (mem s (HDRP p)) - OVERHEAD < n
  | _ => False
  end.
Proof. vm_compute. repeat split; discriminate. Qed.

(** C2, evaluated at the failing input: the request [(size_t)(-16)], a
    negative value converted to unsigned, is not answered with null although
    the heap was not extended. *)
Theorem mm_malloc_negative_not_null :
  match mm_malloc 1 (wrap (-16)) (demo_heap MAX_HEAP) with
  | Ok p s => p <> NULL /\ mem_brk s = mem_brk (demo_heap MAX_HEAP)
  | _ => False
  end.
Proof. vm_compute. split; [discriminate | reflexivity]. Qed.




(** C4, evaluated at the failing input: three allocations, a free, the
    request [2^64 - 16] and one more free leave two contiguous blocks that
    are both free. *)
Theorem adjacent_free_after_overflow :
  match (mm_init ;;;
         f <- mm_malloc 2 16 ;;
         _ <- mm_malloc 2 16 ;;
         c <- mm_malloc 2 16 ;;
         mm_free f ;;;
         _ <- mm_malloc 2 (2 ^ 64 - 16) ;;
         mm_free c ;;;
         ret (f, c))
        (fresh 65536 (65536 + MAX_HEAP) (fun _ => 0)) with
  | Ok (f, c) s =>
      alloc_of_word (mem s (HDRP f)) = 0 /\
      PADD f (size_of_word (mem s (HDRP f))) = c /\
      alloc_of_word (mem s (HDRP c)) = 0
  | _ => False
  end.
Proof. vm_compute. repeat split. Qed.

(** C6, evaluated at the failing input: the request [2^64 - 16] overwrites
    the footer of the allocated block in front of the free block it is
    served from; header and footer of that block differ afterwards. *)
Theorem footer_clobbered_after_overflow :
  match (mm_init ;;;
         p <- mm_malloc 2 16 ;;
         _ <- mm_malloc 2 (2 ^ 64 - 16) ;;
         ret p)
        (fresh 65536 (65536 + MAX_HEAP) (fun _ => 0)) with
  | Ok p s =>
      match FTRP p s with
      | Ok ftr _ => mem s (HDRP p) = PACK 32 1 /\ mem s ftr = PACK 0 1
      | _ => False
      end
  | _ => False
  end.
Proof. vm_compute. split; reflexivity. Qed.

(** C9: [mm_free] of a null pointer returns and leaves the whole state as it
    was. *)
Theorem mm_free_null_noop (s : state) : mm_free NULL s = Ok tt s.
Proof. reflexivity. Qed.

(** C7: when the free-list search finds no fit, so that [mm_malloc] turns to
    the memory-extension primitive, and the primitive cannot grow the region
    by the bytes asked for, [mm_malloc] returns null and the whole state
    (memory, hence every tag and link, the head of the free list, the break
    and the bounds of the region) is the one before the call. *)
Theorem mm_malloc_extension_failure (fuel : nat) (size : Z) (s s0 : state) :
  0 < size ->
  find_fit fuel (adjust size) s = Ok NULL s0 ->
  mem_max_addr s < mem_brk s + extend_bytes (max (adjust size) CHUNKSIZE / WSIZE) ->
  mm_malloc fuel size s = Ok NULL s.
Proof.
  intros Hpos Hfind Hfail.
  pose proof (find_fit_readonly _ _ _ _ _ Hfind) as ->.
  unfold mm_malloc.
  destruct (Z.leb_spec size 0) as [Hbad | _]; [lia |].
  unfold bind at 1. rewrite Hfind.
  change (negb (NULL =? NULL)) with false. cbv iota.
  unfold bind. rewrite (extend_heap_fail _ _ Hfail). reflexivity.
Qed.

Lemma mm_malloc_extension_failure_witness :
  mm_malloc 2 5000 (demo_heap 4128) = Ok NULL (demo_heap 4128).
Proof.
  apply (mm_malloc_extension_failure 2 5000 (demo_heap 4128) (demo_heap 4128)).
  - lia.
  - vm_compute. reflexivity.
  - vm_compute. reflexivity.
Defined.

Lemma find_fit_loop_any asize s fl : forall fuel prev cur,
  dllseg (mem s) prev cur fl NULL ->
  Forall (slot_ok s) fl ->
  Forall (fun b => mem_start_brk s + 8 <= b) fl ->
  0 < mem_start_brk s -> mem_brk s < 2 ^ 63 ->
  find_fit_loop fuel asize cur s = OutOfFuel \/
  find_fit_loop fuel asize cur s = Ok (first_fit (mem s) asize fl) s.
Proof.
  change (2 ^ 63) with 9223372036854775808.
  induction fl as [| b fl IH]; intros fuel prev cur Hd Hok Hlow Hlo Hbrk.
  - destruct fuel as [| fuel]; [left; reflexivity |].
    simpl in Hd. subst cur. right. reflexivity.
  - destruct fuel as [| fuel]; [left; reflexivity |].
    cbn [dllseg] in Hd. destruct Hd as (-> & Hp & Hd).
    apply Forall_cons_iff in Hok. destruct Hok as [Hb Hok].
    apply Forall_cons_iff in Hlow. destruct Hlow as [Hb' Hlow].
    unfold slot_ok in Hb. consts.
    cbn [find_fit_loop first_fit]. consts.
    destruct (Z.eqb_spec b 0) as [E | _]; [lia |].
    unfold GET_SIZE, GET_SUCC, bind, ret, GET. consts.
    rewrite HDRP_small by lia. rewrite PADD_small by lia.
    assert (Hv1 : valid s (b - 8) = true) by (apply valid_iff; lia).
    assert (Hv2 : valid s (b + 8) = true) by (apply valid_iff; lia).
    rewrite Hv1.
    destruct (asize <=? size_of_word (mem s (b - 8))); [right; reflexivity |].
    rewrite Hv2. apply IH with (prev := b); auto.
Qed.

(** Whatever the fuel, a search that returns yields the first fit and the
    unchanged state. *)
Lemma find_fit_any s l fl fuel asize bp s' :
  wf s l fl -> find_fit fuel asize s = Ok bp s' ->
  bp = first_fit (mem s) asize fl /\ s' = s.
Proof.
  intros Hwf Hfind.
  pose proof (wf_sub _ _ _ Hwf) as Hsub.
  destruct Hwf as (Hf & Ht & [Hd Hnd] & Hin & Hn).
  pose proof (framed_bounds _ Hf) as [Hlo Hbrk].
  unfold find_fit, bind, get_head in Hfind.
  destruct (find_fit_loop_any asize s fl fuel NULL (head s)) as [E | E]; auto.
  - eapply free_slot_ok; eauto.
  - apply Forall_forall. intros b Hb. apply Hsub in Hb.
    apply In_free_addrs in Hb. destruct Hb as (sz & Hb).
    pose proof (block_facts _ _ _ _ Hf Ht Hb). lia.
  - rewrite E in Hfind. discriminate.
  - rewrite E in Hfind. inversion Hfind. auto.
Qed.

(** An allocated block is not a member of the free list. *)
Lemma allocated_not_free s l1 sz l2 fl :
  wf s (l1 ++ (sz, true) :: l2) fl -> ~ In (first_block s + span l1) fl.
Proof.
  intros (_ & (Hs & _) & _ & Hin & _) Hb. apply Hin in Hb.
  rewrite free_addrs_app, free_addrs_cons in Hb. cbn [fst snd app] in Hb.
  apply sizes_ok_app in Hs. destruct Hs as [Hs1 Hs2].
  apply sizes_ok_cons in Hs2. destruct Hs2 as [Hx Hs2]. cbn [fst] in Hx.
  apply in_app_or in Hb. destruct Hb as [Hb | Hb].
  - pose proof (free_addrs_bounds _ _ _ Hs1 Hb). lia.
  - pose proof (free_addrs_bounds _ _ _ Hs2 Hb). lia.
Qed.

(** The header of a block of a well-formed heap, read through [HDRP]. *)
Lemma header_read s l1 x l2 fl :
  wf s (l1 ++ x :: l2) fl ->
  let b := first_block s + span l1 in
  HDRP b = b - 8 /\
  size_of_word (mem s (HDRP b)) = fst x /\
  alloc_of_word (mem s (HDRP b)) = Z.b2z (snd x).
Proof.
  intros (Hf & Ht & _) b. subst b.
  pose proof (framed_bounds _ Hf) as [Hlo Hbrk].
  pose proof (block_facts _ _ _ _ Hf Ht (In_layout_mid _ _ _ _)) as H.
  destruct H as (H1 & H2 & H3 & H4 & H5 & Hh & _).
  rewrite HDRP_small by lia. rewrite Hh.
  rewrite size_of_word_tag, alloc_of_word_tag by lia. auto.
Qed.

(** C5, as amended: [place] on a free block of a well-formed heap, for a
    needed size that is a multiple of the double word, at least the minimum
    block size and at most the block's size, returns; the block is then
    allocated and off the free list.  When the remainder is at least
    [MINSIZE] the allocated portion is exactly the needed size and the
    remainder, merged with a free successor, is a free block on the free
    list; when the remainder is smaller the whole block is allocated and
    nothing is left over. *)
Theorem place_spec s l1 sz l2 fl b asize :
  wf s (l1 ++ (sz, false) :: l2) fl ->
  b = first_block s + span l1 ->
  MINSIZE <= asize -> asize mod DSIZE = 0 -> asize <= sz ->
  exists s' l' fl',
    place b asize s = Ok tt s' /\ wf s' l' fl' /\
    ~ In b fl' /\ alloc_of_word (mem s' (HDRP b)) = 1 /\
    (sz - asize < MINSIZE ->
     size_of_word (mem s' (HDRP b)) = sz /\
     l' = l1 ++ (sz, true) :: l2 /\
     forall c, In c fl' <-> In c fl /\ c <> b) /\
    (MINSIZE <= sz - asize ->
     size_of_word (mem s' (HDRP b)) = asize /\
     In (b + asize) fl' /\
     exists nsz l2',
       l' = l1 ++ (asize, true) :: (sz - asize + nsz, false) :: l2' /\
       (l2' = l2 /\ nsz = 0 \/ l2 = (nsz, false) :: l2')).
Proof.
  intros Hwf Eb Ha1 Ha2 Ha3.
  pose proof (wp_place s l1 sz l2 fl b asize
    (fun _ s' => exists l' fl',
       wf s' l' fl' /\ same_region s s' /\ placed l1 sz asize l2 l' /\
       (sz - asize < MINSIZE -> forall c, In c fl' <-> In c fl /\ c <> b))
    Hwf Eb Ha1 Ha2 Ha3) as Hwp.
  apply wp_elim in Hwp.
  2: { intros s' l' fl' Hwf' Hreg Hpl Hfl' _. exists l', fl'. auto. }
  destruct Hwp as ([] & s' & Hrun & l' & fl' & Hwf' & Hreg & Hpl & Hfl').
  pose proof (first_block_region _ _ Hreg) as Hfb.
  exists s', l', fl'. split; [exact Hrun |]. split; [exact Hwf' |].
  destruct Hpl as [[Hsm ->] | (Hbg & nsz & l2' & -> & Hnext)].
  - pose proof (header_read _ _ _ _ _ Hwf') as H. cbv zeta in H.
    rewrite Hfb, <- Eb in H. cbn [fst snd Z.b2z] in H.
    destruct H as (_ & H1 & H2).
    pose proof (allocated_not_free _ _ _ _ _ Hwf') as Hnf.
    rewrite Hfb, <- Eb in Hnf.
    split; [exact Hnf |]. split; [exact H2 |]. split; [| intros; lia].
    intros _. split; [exact H1 |]. split; [reflexivity |].
    apply Hfl'. exact Hsm.
  - pose proof (header_read _ _ _ _ _ Hwf') as H. cbv zeta in H.
    rewrite Hfb, <- Eb in H. cbn [fst snd Z.b2z] in H.
    destruct H as (_ & H1 & H2).
    pose proof (allocated_not_free _ _ _ _ _ Hwf') as Hnf.
    rewrite Hfb, <- Eb in Hnf.
    split; [exact Hnf |]. split; [exact H2 |]. split; [intros; lia |].
    intros _. split; [exact H1 |]. split.
    + destruct Hwf' as (_ & _ & _ & Hin' & _). apply Hin'.
      rewrite Hfb, free_addrs_app, !free_addrs_cons. cbn [fst snd app].
      apply in_or_app. right. simpl. left. lia.
    + exists nsz, l2'. split; [reflexivity |].
      destruct Hnext as [(-> & -> & _) | ->]; auto.
Qed.

(** Evaluation of a closed proposition about a concrete heap. *)
Ltac eval_prop :=
  vm_compute;
  first [ reflexivity | discriminate | intuition discriminate
        | repeat constructor; intuition discriminate ].

Ltac eval_wf :=
  unfold wf, framed, tiles, free_list, sizes_ok, tagged;
  repeat match goal with
    | |- _ /\ _ => split
    end;
  try eval_prop.

(** The heap after [mm_init] is well formed. *)
Lemma demo_heap_wf : wf (demo_heap MAX_HEAP) [(4096, false)] [65568].
Proof. eval_wf. Qed.

(** C5, witness of the amended claim: a 112-byte placement into the
    4096-byte block of a fresh heap. *)
Lemma place_spec_witness :
  wf (demo_heap MAX_HEAP) ([] ++ (4096, false) :: []) [65568] /\
  exists s' l' fl',
    place 65568 112 (demo_heap MAX_HEAP) = Ok tt s' /\ wf s' l' fl' /\
    ~ In 65568 fl' /\ alloc_of_word (mem s' (HDRP 65568)) = 1 /\
    size_of_word (mem s' (HDRP 65568)) = 112 /\ In (65568 + 112) fl'.
Proof.
  assert (Hwf : wf (demo_heap MAX_HEAP) ([] ++ (4096, false) :: []) [65568])
    by eval_wf.
  split; [exact Hwf |].
  destruct (place_spec (demo_heap MAX_HEAP) [] 4096 [] [65568] 65568 112 Hwf)
    as (s' & l' & fl' & H1 & H2 & H3 & H4 & _ & H6).
  - vm_compute. reflexivity.
  - vm_compute. discriminate.
  - vm_compute. reflexivity.
  - vm_compute. discriminate.
  - destruct H6 as (H7 & H8 & _).
    + vm_compute. discriminate.
    + exists s', l', fl'.
      exact (conj H1 (conj H2 (conj H3 (conj H4 (conj H7 H8))))).
Defined.

(** C5, counterexample to the claim as stated: the needed size [4080] does
    not exceed the block's size [4096], yet the allocated portion is not
    [4080] bytes: the whole block is allocated. *)
Lemma place_not_exact_cex :
  4080 <= size_of_word (mem (demo_heap MAX_HEAP) (HDRP 65568)) /\
  match place 65568 4080 (demo_heap MAX_HEAP) with
  | Ok _ s' =>
      size_of_word (mem s' (HDRP 65568)) <> 4080 /\
      size_of_word (mem s' (HDRP 65568)) = 4096 /\
      head s' = NULL
  | _ => False
  end.
Proof. vm_compute. repeat split; discriminate. Qed.


(** C8, evaluated at the failing input.  The heap of [demo_client] is well
    formed: a free block of 32 bytes, the client's block of 4016 bytes and
    a free block of 48 bytes.  The request [2^64 - 16] is answered with the
    first of them, a non-null pointer [p], and leaves a free header of 64
    bytes on it.  [mm_free p] then takes the word of the client's payload
    at [p + 56] for the header of the next block and the words at [p + 64]
    and [p + 72] for its links: [remove_from_explicit_list] stores through
    the client's value 8, at address 16.  That address lies below the
    region, and everything the run reads and writes before lies inside
    it.  The sequence does not return [p]. *)
Theorem free_after_overflow_traps :
  wf demo_client [(32, false); (4016, true); (48, false)] [65568; 69616] /\
  match mm_malloc 3 (2 ^ 64 - 16) demo_client with
  | Ok p s =>
      p <> NULL /\
      (mm_free p ;;; mm_malloc 3 (2 ^ 64 - 16)) s = Fault 16 /\
      16 < mem_start_brk s
  | _ => False
  end.
Proof.
  split.
  - eval_wf. repeat constructor; simpl; intuition discriminate.
  - vm_compute. repeat split; discriminate.
Qed.

(** C10, evaluated at the failing input: on the heap after [mm_init] the
    request [2^64 - 1] has the adjusted size 16, and the first-fit search
    finds a free block that fits it, the block of 4096 bytes.  [mm_malloc]
    does not complete: [place] stores the footer of a 16-byte block over
    the block's first link word, and [remove_from_explicit_list] takes that
    word, 17, for the predecessor and stores through it, at address 25.
    That address lies below the region, and everything the run reads and
    writes before lies inside it. *)
Theorem mm_malloc_hit_overflow_traps :
  let s := demo_heap MAX_HEAP in
  let n := 2 ^ 64 - 1 in
  find_fit 1 (adjust n) s = Ok 65568 s /\
  65568 <> NULL /\
  adjust n <= size_of_word (mem s (HDRP 65568)) /\
  mm_malloc 1 n s = Fault 25 /\
  25 < mem_start_brk s.
Proof. vm_compute. repeat split; discriminate. Qed.

(** In a well-formed heap, when the first-fit search returns a block that
    has room for the request and its overhead, [mm_malloc] returns that
    block without calling the memory-extension primitive: the break, the
    bounds of the region and [heap_start] are unchanged, the prologue and
    the epilogue words are where and what they were, and the heap is well
    formed again. *)
Theorem mm_malloc_hit_keeps_region (fuel : nat) (size bp : Z) (s s0 : state) :
  WF s -> 0 < size ->
  find_fit fuel (adjust size) s = Ok bp s0 ->
  bp <> NULL ->
  size + OVERHEAD <= size_of_word (mem s (HDRP bp)) ->
  exists s',
    mm_malloc fuel size s = Ok bp s' /\
    mem_brk s' = mem_brk s /\
    mem_start_brk s' = mem_start_brk s /\
    mem_max_addr s' = mem_max_addr s /\
    heap_start s' = heap_start s /\
    mem s' (mem_start_brk s + WSIZE) = PACK OVERHEAD 1 /\
    mem s' (heap_start s) = PACK OVERHEAD 1 /\
    mem s' (mem_brk s - WSIZE) = PACK 0 1 /\
    WF s'.
Proof.
  intros (l & fl & Hwf) Hpos Hfind Hne Hfits.
  destruct (find_fit_any _ _ _ _ _ _ _ Hwf Hfind) as [Ebp Es0]. subst s0.
  destruct (first_fit_cases (mem s) (adjust size) fl) as [[Enull _] | [Hmem _]];
    [congruence |].
  rewrite <- Ebp in Hmem.
  destruct (free_member _ _ _ _ Hwf Hmem) as (l1 & sz & l2 & El & Eb & Esz).
  subst l.
  pose proof Hwf as (Hf & Ht & _).
  pose proof (framed_bounds _ Hf) as [Hlo Hbrk].
  pose proof (block_facts _ _ _ _ Hf Ht (In_layout_mid _ _ _ _)) as Hb.
  rewrite <- Eb in Hb. cbn [fst snd] in Hb.
  rewrite HDRP_small in Hfits by lia. rewrite Esz in Hfits.
  assert (Hov : size + 31 < 18446744073709551616) by (consts; lia).
  destruct (adjust_small size Hpos Hov) as (Ha1 & Ha2 & Ha3 & Ha4).
  assert (Ha5 : adjust size <= sz) by (consts; lia).
  pose proof (wp_place s l1 sz l2 fl bp (adjust size)
    (fun _ s'' => same_region s s'' /\ exists l' fl', wf s'' l' fl')
    Hwf Eb Ha1 Ha2 Ha5) as Hwp.
  apply wp_elim in Hwp.
  2: { intros s1 l' fl' Hwf' Hreg _ _ _.
       split; [exact Hreg | exists l', fl'; exact Hwf']. }
  destruct Hwp as ([] & s' & Hrun & Hreg & l' & fl' & Hwf').
  destruct Hreg as (R1 & R2 & R3 & R4).
  exists s'. split.
  - unfold mm_malloc.
    destruct (Z.leb_spec size 0) as [Hbad | _]; [lia |].
    unfold bind at 1. rewrite Hfind.
    destruct (Z.eqb_spec bp NULL) as [E | _]; [contradiction |].
    cbn [negb]. unfold bind. rewrite Hrun. reflexivity.
  - destruct Hwf' as (Hf' & Hrest).
    pose proof Hf' as (_ & _ & _ & _ & Hhs' & Hph' & Hpf' & Hep').
    destruct Hf as (_ & _ & _ & _ & Hhs & _).
    rewrite R1 in Hph', Hpf'. rewrite R2 in Hep'.
    do 4 (split; [assumption |]). rewrite Hhs.
    do 3 (split; [assumption |]).
    exists l', fl'. split; assumption.
Qed.

Lemma mm_malloc_hit_keeps_region_witness :
  exists s',
    mm_malloc 2 100 (demo_heap MAX_HEAP) = Ok 65568 s' /\
    mem_brk s' = mem_brk (demo_heap MAX_HEAP) /\
    WF s'.
Proof.
  destruct (mm_malloc_hit_keeps_region 2 100 65568 (demo_heap MAX_HEAP)
              (demo_heap MAX_HEAP))
    as (s' & H1 & H2 & _ & _ & _ & _ & _ & _ & H9).
  - exists [(4096, false)], [65568]. eval_wf.
  - lia.
  - vm_compute. reflexivity.
  - vm_compute. discriminate.
  - vm_compute. discriminate.
  - exists s'. exact (conj H1 (conj H2 H9)).
Defined.

(** * Further results: the invariant for requests that do not overflow *)

(** The result of [mm_malloc] does not depend on the fuel once it
    returns. *)
Lemma mm_malloc_fuel_indep s l fl fuel fuel' n p s' :
  wf s l fl -> mm_malloc fuel n s = Ok p s' -> (length fl < fuel')%nat ->
  mm_malloc fuel' n s = Ok p s'.
Proof.
  intros Hwf Hrun Hfuel. unfold mm_malloc in *.
  destruct (n <=? 0); [exact Hrun |].
  unfold bind at 1 in Hrun. unfold bind at 1.
  destruct (find_fit fuel (adjust n) s) as [bp s0 | |] eqn:E; try discriminate.
  destruct (find_fit_any _ _ _ _ _ _ _ Hwf E) as [-> ->].
  rewrite (find_fit_wf _ _ _ _ _ Hwf Hfuel). exact Hrun.
Qed.

Lemma free_list_head s fl :
  free_list s fl -> head s <> NULL -> exists fl', fl = head s :: fl'.
Proof.
  intros [Hd _] Hne. destruct fl as [| c fl'].
  - simpl in Hd. contradiction.
  - cbn [dllseg] in Hd. destruct Hd as (-> & _). eauto.
Qed.

Lemma NoDup_only (x : Z) fl :
  NoDup (x :: fl) -> (forall b, In b (x :: fl) -> b = x) -> fl = [].
Proof.
  intros Hnd H. destruct fl as [| c fl]; [reflexivity |].
  inversion Hnd as [| ? ? Hx _]. exfalso. apply Hx. left.
  apply H. right. left. reflexivity.
Qed.

(** [mm_init] on a fresh region with room for the first chunk returns 0
    and leaves a well-formed heap of one block: a free block of [CHUNKSIZE]
    bytes right after the prologue, which is the head and the only member
    of the free list; the region starts where it did and the break is four
    words and one chunk above it. *)
Theorem mm_init_WF lo hi m0 :
  0 < lo -> lo mod DSIZE = 0 -> lo + 4 * WSIZE + CHUNKSIZE <= hi -> hi < 2 ^ 63 ->
  exists s, mm_init (fresh lo hi m0) = Ok 0 s /\
            wf s [(CHUNKSIZE, false)] [lo + 2 * DSIZE] /\
            head s = lo + 2 * DSIZE /\
            mem_start_brk s = lo /\ mem_max_addr s = hi /\
            mem_brk s = lo + 4 * WSIZE + CHUNKSIZE.
Proof.
  intros H1 H2 H3 H4.
  pose proof (wp_mm_init lo hi m0
    (fun r s => r = 0 /\ wf s [(CHUNKSIZE, false)] [lo + 2 * DSIZE] /\
                head s = lo + 2 * DSIZE /\
                mem_start_brk s = lo /\ mem_max_addr s = hi /\
                mem_brk s = lo + 4 * WSIZE + CHUNKSIZE)
    H1 H2 H3 H4) as Hwp.
  apply wp_elim in Hwp.
  - destruct Hwp as (r & s & Hrun & -> & Hpost). eauto.
  - intros s' fl' Hwf Hs Hb Hm Hh. split; [reflexivity |].
    split; [| auto].
    pose proof Hwf as (_ & _ & Hfl & Hin & _).
    destruct (free_list_head _ _ Hfl) as (fl'' & E);
      [rewrite Hh; unfold NULL, DSIZE; lia |].
    destruct Hfl as [_ Hnd]. rewrite E in Hnd.
    assert (E' : fl'' = []).
    { apply (NoDup_only _ _ Hnd). intros b Hb'. rewrite <- E in Hb'.
      apply Hin in Hb'. simpl in Hb'. unfold first_block in Hb'.
      rewrite Hs in Hb'. rewrite Hh. destruct Hb' as [<- | []]. reflexivity. }
    rewrite E, E', Hh in Hwf. exact Hwf.
Qed.

(** Total correctness of [mm_malloc] on a well-formed heap, for a request
    [n > 0] whose adjusted size does not wrap around: with enough fuel the
    call returns; the heap is well formed afterwards; a null result leaves
    the state untouched and means that nothing fitted and the region could
    not grow; a non-null result is an allocated block with a payload of at
    least [n] and at most [n + (DSIZE - 1) + OVERHEAD] bytes. *)
Theorem mm_malloc_correct s n :
  WF s -> 0 < n -> n + OVERHEAD + (DSIZE - 1) < modulus ->
  exists fuel0 p s',
    (forall fuel, (fuel0 <= fuel)%nat -> mm_malloc fuel n s = Ok p s') /\
    WF s' /\
    (p = NULL ->
     s' = s /\ mem_max_addr s < mem_brk s + max (adjust n) CHUNKSIZE) /\
    (p <> NULL ->
     live_block s' p /\
     alloc_of_word (mem s' (HDRP p)) = 1 /\
     n <= size_of_word (mem s' (HDRP p)) - OVERHEAD /\
     size_of_word (mem s' (HDRP p)) - OVERHEAD <= n + (DSIZE - 1) + OVERHEAD).
Proof.
  intros (l & fl & Hwf) Hpos Hov.
  rewrite modulus_eq in Hov. consts.
  assert (Hov' : n + 31 < 18446744073709551616) by lia.
  destruct (adjust_small n Hpos Hov') as (Ha1 & Ha2 & Ha3 & Ha4). consts.
  pose proof (wp_mm_malloc s l fl (S (length fl)) n
    (fun p s' =>
       WF s' /\
       (p = 0 -> s' = s /\ mem_max_addr s < mem_brk s + max (adjust n) CHUNKSIZE) /\
       (p <> 0 ->
        live_block s' p /\
        alloc_of_word (mem s' (HDRP p)) = 1 /\
        n <= size_of_word (mem s' (HDRP p)) - 16 /\
        size_of_word (mem s' (HDRP p)) - 16 <= n + (16 - 1) + 16))
    Hwf Hpos Hov' (Nat.lt_succ_diag_r _)) as Hwp.
  apply wp_elim in Hwp.
  - destruct Hwp as (p & s' & Hrun & Hpost).
    exists (S (length fl)), p, s'. split; [| exact Hpost].
    intros fuel Hfuel. eapply mm_malloc_fuel_indep; eauto.
  - intros s' l1 bsz l2 fl' p Hwf' Ep Hne Hla Hsz _ _ _ _ _.
    split; [exists (l1 ++ (bsz, true) :: l2), fl'; exact Hwf' |].
    split; [intros E; contradiction |]. intros _.
    pose proof (header_read _ _ _ _ _ Hwf') as H. cbv zeta in H.
    rewrite <- Ep in H. cbn [fst snd Z.b2z] in H. destruct H as (_ & H1 & H2).
    split; [exists l1, bsz, l2, fl'; auto |].
    rewrite H1, H2. consts.
    pose proof Hwf' as (_ & (Hs & _) & _).
    apply sizes_ok_app in Hs. destruct Hs as [_ Hs].
    apply sizes_ok_cons in Hs. destruct Hs as [[_ Hm] _]. cbn [fst] in Hm.
    repeat split; lia.
  - intros Hnull Hfail. split; [exists l, fl; exact Hwf |].
    split; [auto | intros E; contradiction].
Qed.

(** [mm_free] on an allocated block of a well-formed heap returns and
    leaves a well-formed heap. *)
Theorem mm_free_correct s p :
  live_block s p -> exists s', mm_free p s = Ok tt s' /\ WF s'.
Proof.
  intros (l1 & sz & l2 & fl & Hwf & Ep).
  pose proof (wp_mm_free s l1 sz l2 fl p (fun _ s' => WF s') Hwf Ep) as Hwp.
  apply wp_elim in Hwp.
  - destruct Hwp as ([] & s' & Hrun & HWF). eauto.
  - intros s' l' fl' b' Hwf' _ _ _. exists l', fl'. exact Hwf'.
Qed.

(** The invariant holds in every reachable state. *)
Theorem reachable_WF lo hi m0 s :
  0 < lo -> lo mod DSIZE = 0 -> lo + 4 * WSIZE + CHUNKSIZE <= hi -> hi < 2 ^ 63 ->
  reachable lo hi m0 s -> WF s.
Proof.
  intros H1 H2 H3 H4 Hr. induction Hr as [s Hrun | s fuel n p s' _ IH Hpos Hov Hrun
                                          | s p s' _ IH Hlive Hrun].
  - pose proof (wp_mm_init lo hi m0 (fun _ s1 => WF s1) H1 H2 H3 H4) as Hwp.
    apply wp_elim in Hwp.
    + destruct Hwp as (r & s1 & Hrun1 & Hwf).
      rewrite Hrun in Hrun1. inversion Hrun1. subst. exact Hwf.
    + intros s1 fl1 Hwf _ _ _ _. exists [(CHUNKSIZE, false)], fl1. exact Hwf.
  - destruct IH as (l & fl & Hwf0).
    rewrite modulus_eq in Hov. consts.
    assert (Hov' : n + 31 < 18446744073709551616) by lia.
    pose proof (wp_mm_malloc s l fl (S (length fl)) n (fun _ s1 => WF s1)
                  Hwf0 Hpos Hov' (Nat.lt_succ_diag_r _)) as Hwp.
    apply wp_elim in Hwp.
    + destruct Hwp as (p1 & s1 & Hrun1 & Hwf).
      pose proof (mm_malloc_fuel_indep _ _ _ _ (S (length fl)) _ _ _
                    Hwf0 Hrun (Nat.lt_succ_diag_r _)) as Hrun2.
      rewrite Hrun1 in Hrun2. inversion Hrun2. subst. exact Hwf.
    + intros s1 l1 bsz l2 fl1 p1 Hwf1 _ _ _ _ _ _ _ _ _.
      exists (l1 ++ (bsz, true) :: l2), fl1. exact Hwf1.
    + intros _ _. exists l, fl. exact Hwf0.
  - destruct Hlive as (l1 & sz & l2 & fl & Hwf0 & Ep).
    pose proof (wp_mm_free s l1 sz l2 fl p (fun _ s1 => WF s1) Hwf0 Ep) as Hwp.
    apply wp_elim in Hwp.
    + destruct Hwp as ([] & s1 & Hrun1 & Hwf).
      rewrite Hrun in Hrun1. inversion Hrun1. subst. exact Hwf.
    + intros s1 l' fl' b' Hwf' _ _ _. exists l', fl'. exact Hwf'.
Qed.

(** What the invariant says about the blocks between prologue and epilogue:
    they tile the region, every footer equals its header, and no two
    neighbours are both free. *)
Lemma WF_blocks s :
  WF s ->
  exists l,
    first_block s + span l = mem_brk s /\
    no_adj_free l /\
    forall c x, In (c, x) (layout (first_block s) l) ->
      mem s (HDRP c) = mem s (c + fst x - DSIZE) /\
      size_of_word (mem s (HDRP c)) = fst x /\
      alloc_of_word (mem s (HDRP c)) = Z.b2z (snd x) /\
      c mod DSIZE = 0 /\ fst x mod DSIZE = 0.
Proof.
  intros (l & fl & Hwf). exists l.
  pose proof Hwf as (Hf & Ht & _ & _ & Hn).
  pose proof (framed_bounds _ Hf) as [Hlo Hbrk].
  split; [apply Ht |]. split; [exact Hn |].
  intros c x Hin.
  pose proof (block_facts _ _ _ _ Hf Ht Hin) as (H1 & H2 & H3 & H4 & H5 & Hh & Hft).
  rewrite HDRP_small by lia. consts. rewrite Hh, Hft.
  rewrite size_of_word_tag, alloc_of_word_tag by lia. auto.
Qed.

(** The invariant along the calls: every state reached from a fresh region
    by [mm_init], [mm_malloc] and [mm_free] is well formed, in the region
    [mm_init] was given. *)
Lemma reachable_wf lo hi m0 s :
  0 < lo -> lo mod DSIZE = 0 -> lo + 4 * WSIZE + CHUNKSIZE <= hi -> hi < 2 ^ 63 ->
  reachable lo hi m0 s ->
  exists l fl, wf s l fl /\ mem_start_brk s = lo /\ mem_max_addr s = hi.
Proof.
  intros H1 H2 H3 H4 Hr.
  induction Hr as [s Hrun | s fuel n p s' _ IH Hpos Hov Hrun
                   | s p s' _ IH Hlive Hrun].
  - pose proof (wp_mm_init lo hi m0
      (fun _ s1 => exists l fl,
         wf s1 l fl /\ mem_start_brk s1 = lo /\ mem_max_addr s1 = hi)
      H1 H2 H3 H4) as Hwp.
    apply wp_elim in Hwp.
    + destruct Hwp as (r & s1 & Hrun1 & Hwf).
      rewrite Hrun in Hrun1. inversion Hrun1. subst. exact Hwf.
    + intros s1 fl1 Hwf Hs _ Hm _. exists [(CHUNKSIZE, false)], fl1. auto.
  - destruct IH as (l & fl & Hwf0 & Hs0 & Hm0).
    rewrite modulus_eq in Hov. consts.
    assert (Hov' : n + 31 < 18446744073709551616) by lia.
    pose proof (wp_mm_malloc s l fl (S (length fl)) n
      (fun _ s1 => exists l1 fl1,
         wf s1 l1 fl1 /\ mem_start_brk s1 = lo /\ mem_max_addr s1 = hi)
      Hwf0 Hpos Hov' (Nat.lt_succ_diag_r _)) as Hwp.
    apply wp_elim in Hwp.
    + destruct Hwp as (p1 & s1 & Hrun1 & Hwf).
      pose proof (mm_malloc_fuel_indep _ _ _ _ (S (length fl)) _ _ _
                    Hwf0 Hrun (Nat.lt_succ_diag_r _)) as Hrun2.
      rewrite Hrun1 in Hrun2. inversion Hrun2. subst. exact Hwf.
    + intros s1 l1 bsz l2 fl1 p1 Hwf1 _ _ _ _ Hs1 Hm1 _ _ _.
      exists (l1 ++ (bsz, true) :: l2), fl1.
      split; [exact Hwf1 |]. split; congruence.
    + intros _ _. exists l, fl. auto.
  - destruct IH as (_ & _ & _ & Hs0 & Hm0).
    destruct Hlive as (l1 & sz & l2 & fl & Hwf0 & Ep).
    pose proof (wp_mm_free s l1 sz l2 fl p
      (fun _ s1 => exists l' fl',
         wf s1 l' fl' /\ mem_start_brk s1 = lo /\ mem_max_addr s1 = hi)
      Hwf0 Ep) as Hwp.
    apply wp_elim in Hwp.
    + destruct Hwp as ([] & s1 & Hrun1 & Hwf).
      rewrite Hrun in Hrun1. inversion Hrun1. subst. exact Hwf.
    + intros s1 l' fl' b' Hwf' (R1 & _ & R3 & _) _ _. exists l', fl'.
      split; [exact Hwf' |]. split; congruence.
Qed.

(** The blocks of every state reached from a fresh region at [lo] by
    [mm_init] followed by calls of [mm_malloc], with requests whose adjusted
    size does not wrap around, and of [mm_free] on allocated blocks: they
    tile the region from the first block pointer, [lo + 2 * DSIZE], to the
    break, which does not pass the limit; every block's footer word equals
    its header word; block pointers and sizes are multiples of 16; and no
    two contiguous blocks are both free. *)
Theorem reachable_blocks lo hi m0 s :
  0 < lo -> lo mod DSIZE = 0 -> lo + 4 * WSIZE + CHUNKSIZE <= hi -> hi < 2 ^ 63 ->
  reachable lo hi m0 s ->
  exists l,
    lo + 2 * DSIZE + span l = mem_brk s /\ mem_brk s <= hi /\
    no_adj_free l /\
    forall c x, In (c, x) (layout (lo + 2 * DSIZE) l) ->
      mem s (HDRP c) = mem s (c + fst x - DSIZE) /\
      size_of_word (mem s (HDRP c)) = fst x /\
      alloc_of_word (mem s (HDRP c)) = Z.b2z (snd x) /\
      c mod DSIZE = 0 /\ fst x mod DSIZE = 0.
Proof.
  intros H1 H2 H3 H4 Hr.
  destruct (reachable_wf lo hi m0 s H1 H2 H3 H4 Hr) as (l & fl & Hwf & Hs & Hm).
  destruct (WF_blocks s) as (l' & Ht & Hn & Hall);
    [exists l, fl; exact Hwf |].
  exists l'. unfold first_block in Ht, Hall. rewrite Hs in Ht, Hall.
  split; [exact Ht |]. split; [| split; [exact Hn | exact Hall]].
  destruct Hwf as ((_ & _ & Hle & _) & _). lia.
Qed.

(** On a well-formed heap and for a request whose adjusted size does not
    wrap around, [mm_malloc] returns null exactly when no member of the free
    list fits and the region cannot grow by the extension size. *)
Theorem mm_malloc_null_iff s l fl n :
  wf s l fl -> 0 < n -> n + OVERHEAD + (DSIZE - 1) < modulus ->
  exists fuel0 p s',
    (forall fuel, (fuel0 <= fuel)%nat -> mm_malloc fuel n s = Ok p s') /\
    (p = NULL <->
     first_fit (mem s) (adjust n) fl = NULL /\
     mem_max_addr s < mem_brk s + max (adjust n) CHUNKSIZE).
Proof.
  intros Hwf Hpos Hov.
  rewrite modulus_eq in Hov. consts.
  assert (Hov' : n + 31 < 18446744073709551616) by lia.
  pose proof (wp_mm_malloc s l fl (S (length fl)) n
    (fun p s' =>
       p = 0 <->
       first_fit (mem s) (adjust n) fl = 0 /\
       mem_max_addr s < mem_brk s + max (adjust n) CHUNKSIZE)
    Hwf Hpos Hov' (Nat.lt_succ_diag_r _)) as Hwp.
  apply wp_elim in Hwp.
  - destruct Hwp as (p & s' & Hrun & Hpost).
    exists (S (length fl)), p, s'. split; [| exact Hpost].
    intros fuel Hfuel. eapply mm_malloc_fuel_indep; eauto.
  - intros s' l1 bsz l2 fl' p Hwf' Ep Hne Hla Hsz _ Hmax _ Hhit Hmiss.
    split; [intros E; contradiction |]. intros [Hnull Hnoroom].
    specialize (Hmiss Hnull).
    destruct Hwf' as ((_ & _ & Hle & _) & _). consts. lia.
  - intros Hnull Hfail. split; auto.
Qed.

(** Allocate, free, allocate again: on a well-formed heap and for a request
    whose adjusted size does not wrap around, freeing the block just
    obtained and repeating the request returns the same address. *)
Theorem malloc_free_malloc_same s n :
  WF s -> 0 < n -> n + OVERHEAD + (DSIZE - 1) < modulus ->
  exists fuel0 p s1,
    (forall fuel, (fuel0 <= fuel)%nat -> mm_malloc fuel n s = Ok p s1) /\
    (p <> NULL ->
     exists s2 s3,
       mm_free p s1 = Ok tt s2 /\
       forall fuel, (fuel0 <= fuel)%nat -> mm_malloc fuel n s2 = Ok p s3).
Proof.
  intros (l & fl & Hwf) Hpos Hov.
  pose proof Hov as Hov0.
  rewrite modulus_eq in Hov. consts.
  assert (Hov' : n + 31 < 18446744073709551616) by lia.
  destruct (adjust_small n Hpos Hov') as (Ha1 & Ha2 & Ha3 & Ha4). consts.
  pose proof (wp_mm_malloc s l fl (S (length fl)) n
    (fun p s1 =>
       p <> 0 ->
       exists l1 bsz l2 fl1,
         wf s1 (l1 ++ (bsz, true) :: l2) fl1 /\ p = first_block s1 + span l1 /\
         snd (last l1 (16, true)) = true /\ adjust n <= bsz)
    Hwf Hpos Hov' (Nat.lt_succ_diag_r _)) as Hwp.
  apply wp_elim in Hwp.
  2: { intros s' l1 bsz l2 fl' p Hwf' Ep Hne Hla Hsz _ _ _ _ _ _.
       exists l1, bsz, l2, fl'.
       exact (conj Hwf' (conj Ep (conj Hla (proj1 Hsz)))). }
  2: { intros _ _ E. contradiction. }
  destruct Hwp as (p & s1 & Hrun & Hpost).
  destruct (Z.eq_dec p 0) as [E0 | Hne].
  { exists (S (length fl)), p, s1. split; [| intros; contradiction].
    intros fuel Hfuel. eapply mm_malloc_fuel_indep; eauto. }
  destruct (Hpost Hne) as (l1 & bsz & l2 & fl1 & Hwf1 & Ep & Hla & Hbsz).
  pose proof (wp_mm_free s1 l1 bsz l2 fl1 p
    (fun _ s2 =>
       exists l' fl',
         wf s2 l' fl' /\ head s2 = p /\
         exists nsz l2', l' = l1 ++ (bsz + nsz, false) :: l2' /\ 0 <= nsz /\
                         first_block s2 = first_block s1)
    Hwf1 Ep) as Hwp2.
  apply wp_elim in Hwp2.
  2: { intros s2 l' fl' b' Hwf2 Hreg Hh Hmg.
       destruct Hmg as (l1' & psz & l2' & nsz & El & Eb' & Hprev & Hnext).
       destruct Hprev as [(-> & -> & _) | Hprev].
       2: { rewrite Hprev, last_snoc in Hla. discriminate. }
       exists l', fl'. split; [exact Hwf2 |]. split; [congruence |].
       exists nsz, l2'. split; [rewrite El; do 3 f_equal; lia |].
       split; [| apply first_block_region; exact Hreg].
       destruct Hnext as [(_ & -> & _) | Hnext]; [lia |].
       destruct Hwf1 as (_ & (Hs & _) & _). rewrite Hnext in Hs.
       apply sizes_ok_app in Hs. destruct Hs as [_ Hs].
       apply sizes_ok_cons in Hs. destruct Hs as [_ Hs].
       apply sizes_ok_cons in Hs. cbn [fst] in Hs. lia. }
  destruct Hwp2 as ([] & s2 & Hrun2 & l' & fl' & Hwf2 & Hh2 & nsz & l2' & El & Hnsz & Hfb).
  subst l'.
  assert (Hfit : first_fit (mem s2) (adjust n) fl' = p).
  { pose proof Hwf2 as (_ & _ & Hfl2 & _).
    destruct (free_list_head _ _ Hfl2) as (fl'' & Efl); [rewrite Hh2; exact Hne |].
    rewrite Efl, Hh2. cbn [first_fit]. consts.
    pose proof (header_read _ _ _ _ _ Hwf2) as H. cbv zeta in H.
    rewrite Hfb, <- Ep in H. cbn [fst] in H. destruct H as (Eh & Hsz & _).
    rewrite <- Eh, Hsz.
    destruct (Z.leb_spec (adjust n) (bsz + nsz)); [reflexivity | lia]. }
  pose proof (wp_mm_malloc s2 _ fl' (S (length fl')) n
    (fun q _ => q = p) Hwf2 Hpos Hov' (Nat.lt_succ_diag_r _)) as Hwp3.
  apply wp_elim in Hwp3.
  2: { intros s' l1' bsz' l2'' fl'' q _ _ _ _ _ _ _ _ Hhit _.
       rewrite Hfit in Hhit. exact (proj1 (Hhit Hne)). }
  2: { intros Hnull _. rewrite Hfit in Hnull. contradiction. }
  destruct Hwp3 as (q & s3 & Hrun3 & ->).
  exists (Nat.max (S (length fl)) (S (length fl'))), p, s1. split.
  - intros fuel Hfuel. eapply mm_malloc_fuel_indep; eauto. lia.
  - intros _. exists s2, s3. split; [exact Hrun2 |].
    intros fuel Hfuel. eapply mm_malloc_fuel_indep; eauto. lia.
Qed.

(** ** The results above at concrete heaps *)

Lemma demo_heap_WF : WF (demo_heap MAX_HEAP).
Proof. exists [(4096, false)], [65568]. exact demo_heap_wf. Qed.

Lemma mm_init_WF_witness :
  exists s,
    mm_init (fresh 65536 (65536 + MAX_HEAP) (fun _ => 0)) = Ok 0 s /\
    wf s [(CHUNKSIZE, false)] [65536 + 2 * DSIZE] /\
    head s = 65536 + 2 * DSIZE /\
    mem_start_brk s = 65536 /\ mem_max_addr s = 65536 + MAX_HEAP /\
    mem_brk s = 65536 + 4 * WSIZE + CHUNKSIZE.
Proof.
  apply (mm_init_WF 65536 (65536 + MAX_HEAP) (fun _ => 0)); eval_prop.
Defined.

Lemma mm_malloc_correct_witness :
  exists fuel0 p s',
    (forall fuel, (fuel0 <= fuel)%nat ->
                  mm_malloc fuel 100 (demo_heap MAX_HEAP) = Ok p s') /\
    WF s' /\
    (p = NULL ->
     s' = demo_heap MAX_HEAP /\
     mem_max_addr (demo_heap MAX_HEAP)
       < mem_brk (demo_heap MAX_HEAP) + max (adjust 100) CHUNKSIZE) /\
    (p <> NULL ->
     live_block s' p /\
     alloc_of_word (mem s' (HDRP p)) = 1 /\
     100 <= size_of_word (mem s' (HDRP p)) - OVERHEAD /\
     size_of_word (mem s' (HDRP p)) - OVERHEAD <= 100 + (DSIZE - 1) + OVERHEAD).
Proof.
  apply (mm_malloc_correct (demo_heap MAX_HEAP) 100).
  - exact demo_heap_WF.
  - lia.
  - vm_compute. reflexivity.
Defined.

Lemma mm_free_correct_witness :
  exists s', mm_free 65568 (demo_used 100) = Ok tt s' /\ WF s'.
Proof.
  apply (mm_free_correct (demo_used 100) 65568).
  exists [], 128, [(3968, false)], [65696]. split; [eval_wf | eval_prop].
Defined.

Lemma reachable_WF_witness : WF (demo_used 100).
Proof.
  apply (reachable_WF 65536 (65536 + MAX_HEAP) (fun _ => 0)); try eval_prop.
  apply (reach_malloc _ _ _ (demo_heap MAX_HEAP) 2 100 65568).
  - apply reach_init. vm_compute. reflexivity.
  - lia.
  - vm_compute. reflexivity.
  - vm_compute. reflexivity.
Defined.

Lemma demo_used_reachable :
  reachable 65536 (65536 + MAX_HEAP) (fun _ => 0) (demo_used 100).
Proof.
  apply (reach_malloc _ _ _ (demo_heap MAX_HEAP) 2 100 65568).
  - apply reach_init. vm_compute. reflexivity.
  - lia.
  - vm_compute. reflexivity.
  - vm_compute. reflexivity.
Qed.

Lemma reachable_blocks_witness :
  exists l,
    65536 + 2 * DSIZE + span l = mem_brk (demo_used 100) /\
    mem_brk (demo_used 100) <= 65536 + MAX_HEAP /\
    no_adj_free l /\
    forall c x, In (c, x) (layout (65536 + 2 * DSIZE) l) ->
      mem (demo_used 100) (HDRP c) = mem (demo_used 100) (c + fst x - DSIZE) /\
      size_of_word (mem (demo_used 100) (HDRP c)) = fst x /\
      alloc_of_word (mem (demo_used 100) (HDRP c)) = Z.b2z (snd x) /\
      c mod DSIZE = 0 /\ fst x mod DSIZE = 0.
Proof.
  apply (reachable_blocks 65536 (65536 + MAX_HEAP) (fun _ => 0) (demo_used 100));
    try eval_prop.
  exact demo_used_reachable.
Defined.

Lemma mm_malloc_null_iff_witness :
  exists fuel0 p s',
    (forall fuel, (fuel0 <= fuel)%nat ->
                  mm_malloc fuel 100 (demo_heap MAX_HEAP) = Ok p s') /\
    (p = NULL <->
     first_fit (mem (demo_heap MAX_HEAP)) (adjust 100) [65568] = NULL /\
     mem_max_addr (demo_heap MAX_HEAP)
       < mem_brk (demo_heap MAX_HEAP) + max (adjust 100) CHUNKSIZE).
Proof.
  apply (mm_malloc_null_iff (demo_heap MAX_HEAP) [(4096, false)] [65568] 100).
  - exact demo_heap_wf.
  - lia.
  - vm_compute. reflexivity.
Defined.

Lemma malloc_free_malloc_same_witness :
  exists fuel0 p s1,
    (forall fuel, (fuel0 <= fuel)%nat ->
                  mm_malloc fuel 100 (demo_heap MAX_HEAP) = Ok p s1) /\
    (p <> NULL ->
     exists s2 s3,
       mm_free p s1 = Ok tt s2 /\
       forall fuel, (fuel0 <= fuel)%nat -> mm_malloc fuel 100 s2 = Ok p s3).
Proof.
  apply (malloc_free_malloc_same (demo_heap MAX_HEAP) 100).
  - exact demo_heap_WF.
  - lia.
  - vm_compute. reflexivity.
Defined.

(** ** The layers one by one *)

(** A request of zero bytes is answered with null and changes nothing. *)
Theorem mm_malloc_zero (fuel : nat) (s : state) : mm_malloc fuel 0 s = Ok NULL s.
Proof. reflexivity. Qed.

(** [insert_in_explicit_list] on a block that is not on the free list makes
    it the head of the list, in front of the former members; only link words
    of members change. *)
Theorem insert_in_explicit_list_correct x fl s :
  free_list s fl -> ~ In x fl -> slot_ok s x -> Forall (slot_ok s) fl ->
  0 < mem_start_brk s -> mem_brk s < 2 ^ 63 ->
  exists s',
    insert_in_explicit_list x s = Ok tt s' /\
    free_list s' (x :: fl) /\ head s' = x /\ same_region s s' /\
    forall a, ~ link_slot (x :: fl) a -> mem s' a = mem s a.
Proof.
  intros Hfl Hx Hsx Hs Hlo Hbrk.
  pose proof (wp_insert x fl s
    (fun _ s' => free_list s' (x :: fl) /\ head s' = x /\ same_region s s' /\
                 forall a, ~ link_slot (x :: fl) a -> mem s' a = mem s a)
    Hfl Hx Hsx Hs Hlo Hbrk) as Hwp.
  apply wp_elim in Hwp; [| auto].
  destruct Hwp as ([] & s' & Hrun & Hpost). exists s'. split; assumption.
Qed.

(** [remove_from_explicit_list] on a member of the free list unlinks it: the
    other members stay, in their order; only link words of the remaining
    members change. *)
Theorem remove_from_explicit_list_correct x f1 f2 s :
  free_list s (f1 ++ x :: f2) -> Forall (slot_ok s) (f1 ++ x :: f2) ->
  0 < mem_start_brk s -> mem_brk s < 2 ^ 63 ->
  exists s',
    remove_from_explicit_list x s = Ok tt s' /\
    free_list s' (f1 ++ f2) /\ same_region s s' /\
    forall a, ~ link_slot (f1 ++ f2) a -> mem s' a = mem s a.
Proof.
  intros Hfl Hs Hlo Hbrk.
  pose proof (wp_remove x f1 f2 s
    (fun _ s' => free_list s' (f1 ++ f2) /\ same_region s s' /\
                 forall a, ~ link_slot (f1 ++ f2) a -> mem s' a = mem s a)
    Hfl Hs Hlo Hbrk) as Hwp.
  apply wp_elim in Hwp; [| auto].
  destruct Hwp as ([] & s' & Hrun & Hpost). exists s'. split; assumption.
Qed.

(** [coalesce], entered at a block that carries free tags and is not on the
    free list yet, returns; afterwards the heap is well formed, one free
    block covers the block and its free neighbours, and it is the head of
    the free list. *)
Theorem coalesce_correct s l1 sz l2 fl b :
  pre_coalesce s l1 sz l2 fl -> b = first_block s + span l1 ->
  exists b' s' l' fl',
    coalesce b s = Ok b' s' /\ wf s' l' fl' /\ same_region s s' /\
    head s' = b' /\ merged (first_block s) l1 sz l2 l' b'.
Proof.
  intros Hpre Eb.
  pose proof (wp_coalesce s l1 sz l2 fl b
    (fun b' s' => exists l' fl',
       wf s' l' fl' /\ same_region s s' /\ head s' = b' /\
       merged (first_block s) l1 sz l2 l' b')
    Hpre Eb) as Hwp.
  apply wp_elim in Hwp.
  - destruct Hwp as (b' & s' & Hrun & l' & fl' & Hpost).
    exists b', s', l', fl'. split; assumption.
  - intros s' l' fl' b' H1 H2 H3 H4. exists l', fl'. auto.
Qed.

Lemma first_fit_split m asize fl :
  first_fit m asize fl <> NULL ->
  exists fl1 fl2,
    fl = fl1 ++ first_fit m asize fl :: fl2 /\
    asize <= size_of_word (m (first_fit m asize fl - 8)) /\
    forall b, In b fl1 -> size_of_word (m (b - 8)) < asize.
Proof.
  induction fl as [| c fl IH]; cbn [first_fit]; consts.
  - intros H. contradiction.
  - destruct (Z.leb_spec asize (size_of_word (m (c - 8)))) as [Hle | Hgt].
    + intros _. exists [], fl. split; [reflexivity |]. split; [exact Hle |].
      intros b [].
    + intros Hne. destruct (IH Hne) as (fl1 & fl2 & E & Hok & Hall).
      exists (c :: fl1), fl2. split; [simpl; f_equal; exact E |].
      split; [exact Hok |].
      intros b [<- | Hb]; [exact Hgt | apply Hall; exact Hb].
Qed.

(** [find_fit] is first fit: on a well-formed heap it returns, leaves the
    state as it was, and its result is the first member of the free list, in
    list order, whose size is at least [asize]; it is null when no member
    is large enough. *)
Theorem find_fit_first_fit s l fl fuel asize :
  wf s l fl -> (length fl < fuel)%nat ->
  exists bp,
    find_fit fuel asize s = Ok bp s /\
    (bp = NULL -> forall b, In b fl -> size_of_word (mem s (HDRP b)) < asize) /\
    (bp <> NULL ->
     exists fl1 fl2,
       fl = fl1 ++ bp :: fl2 /\
       asize <= size_of_word (mem s (HDRP bp)) /\
       forall b, In b fl1 -> size_of_word (mem s (HDRP b)) < asize).
Proof.
  intros Hwf Hfuel.
  assert (Hhd : forall b, In b fl -> HDRP b = b - 8).
  { intros b Hb. destruct (free_member _ _ _ _ Hwf Hb) as (l1 & sz & l2 & -> & Eb & _).
    pose proof (header_read _ _ _ _ _ Hwf) as H. cbv zeta in H.
    rewrite <- Eb in H. tauto. }
  exists (first_fit (mem s) asize fl).
  split; [apply (find_fit_wf _ _ _ _ _ Hwf Hfuel) |]. split.
  - intros Enull b Hb.
    destruct (first_fit_cases (mem s) asize fl) as [[_ Hall] | [Hin _]].
    + rewrite (Hhd b Hb). apply Hall. exact Hb.
    + rewrite Enull in Hin.
      destruct (free_member _ _ _ _ Hwf Hin) as (l1 & sz & l2 & -> & Eb & _).
      pose proof Hwf as (Hf & Ht & _).
      pose proof (block_facts _ _ _ _ Hf Ht (In_layout_mid _ _ _ _)) as Hbf.
      rewrite <- Eb in Hbf. destruct Hf as (Hlo & _). consts. lia.
  - intros Hne. destruct (first_fit_split _ _ _ Hne) as (fl1 & fl2 & E & Hok & Hall).
    exists fl1, fl2. split; [exact E |].
    assert (Hin : In (first_fit (mem s) asize fl) fl).
    { rewrite E at 2. apply in_or_app. right. left. reflexivity. }
    rewrite (Hhd _ Hin). split; [exact Hok |].
    intros b Hb. rewrite (Hhd b).
    + apply Hall. exact Hb.
    + rewrite E. apply in_or_app. left. exact Hb.
Qed.

(** [extend_heap] on a well-formed heap, for a word count whose rounded
    byte count is at least [MINSIZE] and fits below the limit of the region:
    the call returns; the break moves up by exactly the bytes that
    correspond to the word count rounded up to an even one; the heap is well
    formed again, its last block is free and ends at the new break, it
    consists of the new bytes, merged with the free block in front of the
    old epilogue if there was one; the epilogue header is the last word. *)
Theorem extend_heap_correct s l fl words :
  wf s l fl -> 0 <= words -> words * WSIZE + WSIZE < modulus ->
  MINSIZE <= extend_bytes words ->
  mem_brk s + extend_bytes words <= mem_max_addr s ->
  exists b' s' l1 psz fl',
    extend_heap words s = Ok b' s' /\
    extend_bytes words = WSIZE * (words + words mod 2) /\
    mem_brk s' = mem_brk s + extend_bytes words /\
    wf s' (l1 ++ [(psz + extend_bytes words, false)]) fl' /\
    b' = first_block s + span l1 /\
    (l1 = l /\ psz = 0 \/ l = l1 ++ [(psz, false)]) /\
    mem s' (mem_brk s' - WSIZE) = PACK 0 1 /\
    head s' = b'.
Proof.
  intros Hwf Hw Hwb Hmin Hfit.
  rewrite modulus_eq in Hwb. unfold WSIZE in Hwb.
  destruct (extend_bytes_even words Hw Hwb) as [Heb _].
  pose proof (wp_extend_heap s l fl words
    (fun b' s' => exists l1 psz fl',
       mem_brk s' = mem_brk s + extend_bytes words /\
       wf s' (l1 ++ [(psz + extend_bytes words, false)]) fl' /\
       b' = first_block s + span l1 /\
       (l1 = l /\ psz = 0 \/ l = l1 ++ [(psz, false)]) /\
       head s' = b')
    Hwf Hw Hwb Hmin Hfit) as Hwp.
  apply wp_elim in Hwp.
  - destruct Hwp as (b' & s' & Hrun & l1 & psz & fl' & Hb & Hwf' & Eb & Hl & Hh).
    exists b', s', l1, psz, fl'. split; [exact Hrun |].
    split.
    { rewrite Heb. unfold WSIZE.
      destruct (Z.eqb_spec (words mod 2) 1) as [E | E]; lia. }
    split; [exact Hb |]. split; [exact Hwf' |]. split; [exact Eb |].
    split; [exact Hl |]. split; [| exact Hh].
    destruct Hwf' as (Hf & _). apply Hf.
  - intros s' l' fl' b' Hwf' Hb _ _ _ Hh Hm.
    destruct Hm as (l1' & psz & l2' & nsz & El & Eb & Hprev & Hnext).
    assert (Hn : l2' = [] /\ nsz = 0).
    { destruct Hnext as [(-> & -> & _) | Hnext]; [auto | discriminate Hnext]. }
    destruct Hn as [-> ->].
    exists l1', psz, fl'. split; [exact Hb |].
    split; [rewrite El in Hwf'; rewrite Z.add_0_r in Hwf'; exact Hwf' |].
    split; [exact Eb |]. split; [| exact Hh].
    destruct Hprev as [(-> & -> & _) | Hprev]; auto.
Qed.

(** ** The layers at concrete heaps *)

Lemma insert_in_explicit_list_correct_witness :
  exists s',
    insert_in_explicit_list 65568 demo_retagged = Ok tt s' /\
    free_list s' [65568; 65696] /\ head s' = 65568.
Proof.
  destruct (insert_in_explicit_list_correct 65568 [65696] demo_retagged)
    as (s' & H1 & H2 & H3 & _).
  - unfold free_list. split; eval_prop.
  - eval_prop.
  - unfold slot_ok. eval_prop.
  - repeat constructor; eval_prop.
  - eval_prop.
  - eval_prop.
  - exists s'. exact (conj H1 (conj H2 H3)).
Defined.

Lemma remove_from_explicit_list_correct_witness :
  exists s',
    remove_from_explicit_list 65568 (demo_heap MAX_HEAP) = Ok tt s' /\
    free_list s' [].
Proof.
  destruct (remove_from_explicit_list_correct 65568 [] [] (demo_heap MAX_HEAP))
    as (s' & H1 & H2 & _).
  - unfold free_list. split; eval_prop.
  - repeat constructor; eval_prop.
  - eval_prop.
  - eval_prop.
  - exists s'. exact (conj H1 H2).
Defined.

Lemma coalesce_correct_witness :
  exists s' l' fl',
    coalesce 65568 demo_retagged = Ok 65568 s' /\ wf s' l' fl' /\
    head s' = 65568 /\ l' = [(4096, false)].
Proof.
  destruct (coalesce_correct demo_retagged [] 128 [(3968, false)] [65696] 65568)
    as (b' & s' & l' & fl' & H1 & H2 & _ & H4 & H5).
  - unfold pre_coalesce, framed, tiles, free_list, sizes_ok, tagged.
    repeat match goal with |- _ /\ _ => split end; try eval_prop.
  - eval_prop.
  - destruct H5 as (l1' & psz & l2' & nsz & El & Eb & Hprev & Hnext).
    destruct Hprev as [(-> & -> & _) | Hprev];
      [| destruct l1' as [| ? [| ? ?]]; discriminate Hprev].
    destruct Hnext as [(_ & _ & Hx) | Hnext]; [discriminate Hx |].
    injection Hnext as <- <-.
    assert (E : b' = 65568) by (rewrite Eb; vm_compute; reflexivity).
    rewrite E in H1, H4. exists s', l', fl'.
    exact (conj H1 (conj H2 (conj H4 El))).
Defined.

Lemma find_fit_first_fit_witness :
  exists bp,
    find_fit 2 100 (demo_heap MAX_HEAP) = Ok bp (demo_heap MAX_HEAP) /\
    (bp <> NULL ->
     exists fl1 fl2,
       [65568] = fl1 ++ bp :: fl2 /\
       100 <= size_of_word (mem (demo_heap MAX_HEAP) (HDRP bp))).
Proof.
  destruct (find_fit_first_fit (demo_heap MAX_HEAP) [(4096, false)] [65568] 2 100)
    as (bp & H1 & _ & H3).
  - exact demo_heap_wf.
  - simpl. lia.
  - exists bp. split; [exact H1 |]. intros Hne.
    destruct (H3 Hne) as (fl1 & fl2 & E & Hle & _).
    exists fl1, fl2. exact (conj E Hle).
Defined.

Lemma extend_heap_correct_witness :
  exists b' s' l1 psz fl',
    extend_heap 512 (demo_used 100) = Ok b' s' /\
    mem_brk s' = mem_brk (demo_used 100) + 4096 /\
    wf s' (l1 ++ [(psz + 4096, false)]) fl' /\
    mem s' (mem_brk s' - WSIZE) = PACK 0 1.
Proof.
  destruct (extend_heap_correct (demo_used 100) [(128, true); (3968, false)]
              [65696] 512)
    as (b' & s' & l1 & psz & fl' & H1 & _ & H3 & H4 & _ & _ & H7 & _).
  - eval_wf.
  - lia.
  - vm_compute. reflexivity.
  - vm_compute. discriminate.
  - vm_compute. discriminate.
  - exists b', s', l1, psz, fl'.
    change (extend_bytes 512) with 4096 in H3, H4.
    exact (conj H1 (conj H3 (conj H4 H7))).
Defined.

(** * Allocated blocks are left alone *)


(** [mm_free] on an allocated block of a well-formed heap: the block becomes
    part of the free block at the head of the free list; every other
    allocated block is still allocated afterwards, at the same address and
    with the same size, and none of its bytes, tags included, has
    changed. *)
Theorem mm_free_keeps_allocated s l fl p sz :
  wf s l fl -> in_alloc (first_block s) l p sz ->
  exists s' l' fl' b' fsz,
    mm_free p s = Ok tt s' /\ wf s' l' fl' /\
    head s' = b' /\
    In (b', (fsz, false)) (layout (first_block s') l') /\
    b' <= p /\ p + sz <= b' + fsz /\
    forall c x, in_alloc (first_block s) l c x -> c <> p ->
      in_alloc (first_block s') l' c x /\
      forall a, c - WSIZE <= a < c + x - WSIZE -> mem s' a = mem s a.
Proof.
  intros Hwf Hp.
  destruct (In_layout_split _ _ _ _ Hp) as (l1 & l2 & -> & Ep).
  pose proof Hwf as (Hf & (Hs & _) & _).
  assert (Hs' : sizes_ok (l1 ++ (sz, false) :: l2)).
  { apply sizes_ok_app in Hs. destruct Hs as [Hs1 Hs2].
    apply sizes_ok_cons in Hs2. destruct Hs2 as [Hx Hs2].
    apply sizes_ok_app. split; [exact Hs1 |]. apply sizes_ok_cons. auto. }
  pose proof (wp_mm_free_frame s l1 sz l2 fl p
    (fun _ s' => exists l' fl' b' fsz,
       wf s' l' fl' /\ head s' = b' /\
       In (b', (fsz, false)) (layout (first_block s') l') /\
       b' <= p /\ p + sz <= b' + fsz /\
       forall c x, in_alloc (first_block s) (l1 ++ (sz, true) :: l2) c x ->
         c <> p ->
         in_alloc (first_block s') l' c x /\
         forall a, c - 8 <= a < c + x - 8 -> mem s' a = mem s a)
    Hwf Ep) as Hwp.
  apply wp_elim in Hwp.
  - destruct Hwp as ([] & s' & Hrun & l' & fl' & b' & fsz & Hpost).
    exists s', l', fl', b', fsz. split; [exact Hrun | exact Hpost].
  - intros s' l' fl' b' Hwf' Hreg Hh Hmg Hfr.
    pose proof (first_block_region _ _ Hreg) as Hfb.
    pose proof (merged_keeps _ _ _ _ _ _ Hmg) as Hk.
    destruct Hmg as (l1' & psz & l2' & nsz & El & Eb' & Hprev & Hnext).
    exists l', fl', b', (psz + sz + nsz).
    split; [exact Hwf' |]. split; [exact Hh |].
    assert (Hpsz : 0 <= psz /\ first_block s + span l1 = first_block s + span l1' + psz).
    { destruct Hprev as [(-> & -> & _) | ->]; [lia |].
      apply sizes_ok_app in Hs. destruct Hs as [Hs1 _].
      apply sizes_ok_app in Hs1. destruct Hs1 as [_ Hs1].
      apply sizes_ok_cons in Hs1. cbn [fst] in Hs1.
      rewrite span_app. cbn [span fst]. lia. }
    assert (Hnsz : 0 <= nsz).
    { destruct Hnext as [(_ & -> & _) | ->]; [lia |].
      apply sizes_ok_app in Hs. destruct Hs as [_ Hs2].
      apply sizes_ok_cons in Hs2. destruct Hs2 as [_ Hs2].
      apply sizes_ok_cons in Hs2. cbn [fst] in Hs2. lia. }
    split; [rewrite Hfb, El, Eb'; apply In_layout_mid |].
    split; [lia |]. split; [lia |].
    intros c x Hc Hne. rewrite Hfb.
    assert (Hc' : in_alloc (first_block s) (l1 ++ (sz, false) :: l2) c x).
    { rewrite in_alloc_app, in_alloc_cons in Hc. cbn [fst] in Hc.
      rewrite in_alloc_app, in_alloc_cons. cbn [fst].
      destruct Hc as [Hc | [[E _] | Hc]]; [auto | | auto].
      exfalso. apply Hne. rewrite E, Ep. reflexivity. }
    split; [exact (Hk c x Hc') |].
    intros a Ha. apply Hfr.
    apply (alloc_not_in_free _ _ _ _ _ Hs' Hc'). unfold block_bytes. consts. lia.
Qed.

(** * The heap checker *)

Lemma wp_eq {A} (m : M A) (a : A) (s t : state) :
  wp m (fun r s' => r = a /\ s' = t) s -> m s = Ok a t.
Proof. unfold wp. destruct (m s); try contradiction. intros [-> ->]. reflexivity. Qed.

Lemma wp_get_heap_start (Q : Z -> state -> Prop) s :
  Q (heap_start s) s -> wp get_heap_start Q s.
Proof. exact (fun H => H). Qed.

(** [check_block] accepts every block of a tiled heap. *)
Lemma check_block_tiled s l line c x :
  framed s -> tiles s l -> In (c, x) (layout (first_block s) l) ->
  check_block line c s = Ok (true, []) s.
Proof.
  intros Hf Ht Hin.
  pose proof (framed_bounds _ Hf) as [Hlo Hbrk].
  destruct (block_facts _ _ _ _ Hf Ht Hin) as (H1 & H2 & H3 & H4 & H5 & Hh & Hft).
  apply wp_eq. unfold check_block. consts.
  rewrite (proj2 (Z.eqb_eq _ _) H5). cbn [negb].
  wp_go.
  replace (c + (fst x - 16)) with (c + fst x - 16) by lia.
  wp_go. rewrite Hft, Z.eqb_refl. cbn [negb]. wp_go. auto.
Qed.

Lemma check_heap_loop_tiled s l line :
  framed s -> tiles s l ->
  forall l2 l1 fuel, l = l1 ++ l2 -> (length l2 < fuel)%nat ->
  check_heap_loop fuel line (first_block s + span l1) s = Ok (true, []) s.
Proof.
  intros Hf Ht.
  pose proof (framed_bounds _ Hf) as [Hlo Hbrk].
  pose proof Hf as (_ & Hal & _ & _ & _ & _ & _ & Hep).
  induction l2 as [| x l2 IH]; intros l1 fuel El Hfuel.
  - rewrite app_nil_r in El. subst l1.
    destruct Ht as (Hs & _ & He). rewrite He.
    pose proof (sizes_ok_span _ Hs) as Hsp. pose proof (span_mod _ Hs) as Hsm.
    unfold first_block in He. consts.
    destruct fuel as [| fuel]; [inversion Hfuel |].
    apply wp_eq. cbn [check_heap_loop]. wp_go.
    change (0 >? 0) with false. cbv iota. wp_go.
    change (negb (0 =? 0)) with false. cbv iota. wp_go.
    change (1 =? 0) with false. cbv iota. wp_go. auto.
  - destruct fuel as [| fuel]; [inversion Hfuel |].
    assert (Hin : In (first_block s + span l1, x) (layout (first_block s) l))
      by (rewrite El; apply In_layout_mid).
    destruct (block_facts _ _ _ _ Hf Ht Hin) as (H1 & H2 & H3 & H4 & H5 & Hh & Hft).
    set (bp := first_block s + span l1) in *.
    assert (IH' : check_heap_loop fuel line (bp + fst x) s = Ok (true, []) s).
    { replace (bp + fst x) with (first_block s + span (l1 ++ [x])).
      - apply IH; [rewrite <- app_assoc; exact El | simpl in Hfuel; lia].
      - rewrite span_app. cbn [span fst]. unfold bp. lia. }
    apply wp_eq. cbn [check_heap_loop]. wp_go.
    destruct (Z.gtb_spec (fst x) 0) as [_ | Hbad]; [| lia].
    apply wp_bind. eapply wp_intro; [exact (check_block_tiled _ _ line _ _ Hf Ht Hin) |].
    cbn [fst snd negb]. wp_go.
    eapply wp_intro; [exact IH' |]. wp_go. auto.
Qed.

(** The checker accepts every heap whose blocks tile the region between
    prologue and epilogue with matching tags; it looks neither at the free
    list nor at the allocated bits of neighbouring blocks. *)
Theorem check_heap_accepts s l fuel line :
  framed s -> tiles s l -> (length l + 1 < fuel)%nat ->
  check_heap fuel line s = Ok (true, []) s.
Proof.
  intros Hf Ht Hfuel.
  pose proof (framed_bounds _ Hf) as [Hlo Hbrk].
  pose proof Hf as (_ & Hal & Hmax & _ & Hhs & Hph & Hpf & Hep).
  pose proof Ht as (Hs & _ & He).
  pose proof (sizes_ok_span _ Hs) as Hsp. unfold first_block in He. consts.
  destruct fuel as [| fuel]; [inversion Hfuel |].
  assert (Hloop : check_heap_loop fuel line (mem_start_brk s + 32) s = Ok (true, []) s).
  { replace (mem_start_brk s + 32) with (first_block s + span []).
    - apply (check_heap_loop_tiled s l line Hf Ht l []); [reflexivity | lia].
    - unfold first_block. consts. simpl. lia. }
  apply wp_eq. unfold check_heap.
  apply wp_bind, wp_get_heap_start. rewrite Hhs. wp_go; norm.
  replace (mem_start_brk s + 16 - 8) with (mem_start_brk s + 8) by lia.
  wp_go; norm. change (negb (16 =? 16)) with false. cbv iota.
  apply wp_bind, wp_get_heap_start. rewrite Hhs. wp_go; norm.
  replace (mem_start_brk s + 16 - 8) with (mem_start_brk s + 8) by lia.
  wp_go; norm. change (1 =? 0) with false. cbv iota.
  apply wp_bind, wp_get_heap_start. rewrite Hhs.
  cbn [check_heap_loop]. wp_go; norm.
  replace (mem_start_brk s + 16 - 8) with (mem_start_brk s + 8) by lia.
  wp_go; norm. change (16 >? 0) with true. cbv iota.
  unfold check_block. consts.
  replace ((mem_start_brk s + 16) mod 16 =? 0) with true
    by (symmetry; apply Z.eqb_eq; lia).
  cbn [negb]. wp_go; norm.
  replace (mem_start_brk s + 16 - 8) with (mem_start_brk s + 8) by lia.
  wp_go; norm.
  replace (mem_start_brk s + 16 + (16 - 16)) with (mem_start_brk s + 16) by lia.
  wp_go; norm. rewrite Z.eqb_refl. cbn [negb]. wp_go; norm. cbn [negb]. wp_go; norm.
  replace (mem_start_brk s + 16 - 8) with (mem_start_brk s + 8) by lia.
  wp_go; norm.
  replace (mem_start_brk s + 16 + 16) with (mem_start_brk s + 32) by lia.
  eapply wp_intro; [exact Hloop |]. wp_go. auto.
Qed.

(** ** What a returning call tells *)

Lemma bind_Ok {A B} (m : M A) (f : A -> M B) s b s' :
  bind m f s = Ok b s' -> exists a s1, m s = Ok a s1 /\ f a s1 = Ok b s'.
Proof. unfold bind. destruct (m s) as [a s1 | |]; try discriminate. eauto. Qed.

Lemma ret_Ok {A} (a b : A) s s' : ret a s = Ok b s' -> b = a /\ s' = s.
Proof. unfold ret. intros H. inversion H. auto. Qed.

Lemma GET_Ok p s a s' : GET p s = Ok a s' -> a = mem s p /\ s' = s.
Proof. unfold GET. destruct (valid s p); [| discriminate]. intros H. inversion H. auto. Qed.

Lemma GET_SIZE_Ok p s a s' :
  GET_SIZE p s = Ok a s' -> a = size_of_word (mem s p) /\ s' = s.
Proof.
  unfold GET_SIZE. intros H. apply bind_Ok in H. destruct H as (w & s1 & H1 & H2).
  apply GET_Ok in H1. destruct H1 as [-> ->]. apply ret_Ok in H2. exact H2.
Qed.

Lemma GET_ALLOC_Ok p s a s' :
  GET_ALLOC p s = Ok a s' -> a = alloc_of_word (mem s p) /\ s' = s.
Proof.
  unfold GET_ALLOC. intros H. apply bind_Ok in H. destruct H as (w & s1 & H1 & H2).
  apply GET_Ok in H1. destruct H1 as [-> ->]. apply ret_Ok in H2. exact H2.
Qed.

Lemma FTRP_Ok bp s f s' :
  FTRP bp s = Ok f s' ->
  f = PADD bp (wrap (size_of_word (mem s (HDRP bp)) - DSIZE)) /\ s' = s.
Proof.
  unfold FTRP. intros H. apply bind_Ok in H. destruct H as (sz & s1 & H1 & H2).
  apply GET_SIZE_Ok in H1. destruct H1 as [-> ->]. apply ret_Ok in H2. exact H2.
Qed.

Lemma NEXT_BLKP_Ok bp s nb s' :
  NEXT_BLKP bp s = Ok nb s' ->
  nb = PADD bp (size_of_word (mem s (HDRP bp))) /\ s' = s.
Proof.
  unfold NEXT_BLKP. intros H. apply bind_Ok in H. destruct H as (sz & s1 & H1 & H2).
  apply GET_SIZE_Ok in H1. destruct H1 as [-> ->]. apply ret_Ok in H2. exact H2.
Qed.

Lemma check_block_Ok line bp s r s' :
  check_block line bp s = Ok r s' ->
  s' = s /\
  (r = (true, []) /\ checked_block (mem s) bp \/
   fst r = false /\ length (snd r) = 1%nat).
Proof.
  unfold check_block. intros H.
  destruct (Z.eqb_spec (bp mod DSIZE) 0) as [Hal | _]; cbn [negb] in H.
  - apply bind_Ok in H. destruct H as (h & s1 & H1 & H).
    apply GET_Ok in H1. destruct H1 as [-> ->].
    apply bind_Ok in H. destruct H as (f & s1 & H1 & H).
    apply FTRP_Ok in H1. destruct H1 as [-> ->].
    apply bind_Ok in H. destruct H as (w & s1 & H1 & H).
    apply GET_Ok in H1. destruct H1 as [-> ->].
    match type of H with context [?a =? ?b] =>
      destruct (Z.eqb_spec a b) as [E | _] end; cbn [negb] in H;
      apply ret_Ok in H; destruct H as [-> ->]; (split; [reflexivity |]).
    + left. split; [reflexivity |]. split; [exact Hal | exact E].
    + right. auto.
  - apply ret_Ok in H. destruct H as [-> ->]. split; [reflexivity |]. right. auto.
Qed.

Lemma check_heap_loop_Ok line : forall fuel bp s r s',
  check_heap_loop fuel line bp s = Ok r s' ->
  s' = s /\
  (fst r = true ->
   snd r = [] /\
   exists n e,
     block_chain (mem s) n bp e /\
     size_of_word (mem s (HDRP e)) = 0 /\
     alloc_of_word (mem s (HDRP e)) <> 0) /\
  (fst r = false -> length (snd r) = 1%nat).
Proof.
  induction fuel as [| fuel IH]; intros bp s r s' H; [discriminate H |].
  cbn [check_heap_loop] in H.
  apply bind_Ok in H. destruct H as (sz & s1 & H1 & H).
  apply GET_SIZE_Ok in H1. destruct H1 as [-> ->].
  destruct (Z.gtb_spec (size_of_word (mem s (HDRP bp))) 0) as [Hpos | Hnpos].
  - apply bind_Ok in H. destruct H as (rb & s1 & H1 & H).
    apply check_block_Ok in H1. destruct H1 as [-> [[-> Hcb] | [Hfalse Hone]]].
    + cbn [fst snd negb] in H.
      apply bind_Ok in H. destruct H as (nb & s1 & H1 & H).
      apply NEXT_BLKP_Ok in H1. destruct H1 as [-> ->].
      apply bind_Ok in H. destruct H as (r' & s1 & H1 & H).
      apply IH in H1. destruct H1 as (-> & Htrue & Hfalse).
      apply ret_Ok in H. destruct H as [-> ->]. cbn [fst snd app].
      split; [reflexivity |]. split; [| exact Hfalse].
      intros Hr. destruct (Htrue Hr) as (Hout & n & e & Hch & He).
      split; [exact Hout |]. exists (S n), e. cbn [block_chain]. auto.
    + rewrite Hfalse in H. cbn [negb] in H.
      apply ret_Ok in H. destruct H as [-> ->]. cbn [fst snd].
      split; [reflexivity |]. split; [discriminate | auto].
  - apply bind_Ok in H. destruct H as (sz & s1 & H1 & H).
    apply GET_SIZE_Ok in H1. destruct H1 as [-> ->].
    destruct (Z.eqb_spec (size_of_word (mem s (HDRP bp))) 0) as [Hz | _];
      cbn [negb] in H.
    + apply bind_Ok in H. destruct H as (al & s1 & H1 & H).
      apply GET_ALLOC_Ok in H1. destruct H1 as [-> ->].
      destruct (Z.eqb_spec (alloc_of_word (mem s (HDRP bp))) 0) as [_ | Hal];
        apply ret_Ok in H; destruct H as [-> ->]; cbn [fst snd];
        (split; [reflexivity |]).
      * split; [discriminate | auto].
      * split; [| discriminate]. intros _. split; [reflexivity |].
        exists O, bp. cbn [block_chain]. auto.
    + apply ret_Ok in H. destruct H as [-> ->]. cbn [fst snd].
      split; [reflexivity |]. split; [discriminate | auto].
Qed.

(** Whatever [check_heap] returns, it has not changed the state.  A result
    of true comes with no output and certifies: the prologue header records
    an allocated block of [DSIZE] bytes, and from [heap_start] on there is a
    row of blocks of positive size, each at a double-word aligned address
    and with a footer word equal to its header word, that ends at a header
    of size zero with the allocated bit set.  A result of false comes with
    exactly one line of output. *)
Theorem check_heap_sound fuel line s r s' :
  check_heap fuel line s = Ok r s' ->
  s' = s /\
  (fst r = true ->
   snd r = [] /\
   size_of_word (mem s (HDRP (heap_start s))) = DSIZE /\
   alloc_of_word (mem s (HDRP (heap_start s))) <> 0 /\
   exists n e,
     block_chain (mem s) n (heap_start s) e /\
     size_of_word (mem s (HDRP e)) = 0 /\
     alloc_of_word (mem s (HDRP e)) <> 0) /\
  (fst r = false -> length (snd r) = 1%nat).
Proof.
  unfold check_heap. intros H.
  apply bind_Ok in H. destruct H as (hs & s1 & H1 & H).
  apply ret_Ok in H1. destruct H1 as [-> ->].
  apply bind_Ok in H. destruct H as (sz & s1 & H1 & H).
  apply GET_SIZE_Ok in H1. destruct H1 as [-> ->].
  destruct (Z.eqb_spec (size_of_word (mem s (HDRP (heap_start s)))) DSIZE)
    as [Hsz | _]; cbn [negb] in H.
  - apply bind_Ok in H. destruct H as (hs & s1 & H1 & H).
    apply ret_Ok in H1. destruct H1 as [-> ->].
    apply bind_Ok in H. destruct H as (al & s1 & H1 & H).
    apply GET_ALLOC_Ok in H1. destruct H1 as [-> ->].
    destruct (Z.eqb_spec (alloc_of_word (mem s (HDRP (heap_start s)))) 0)
      as [_ | Hal].
    + apply ret_Ok in H. destruct H as [-> ->]. cbn [fst snd].
      split; [reflexivity |]. split; [discriminate | auto].
    + apply bind_Ok in H. destruct H as (bp & s1 & H1 & H).
      apply ret_Ok in H1. destruct H1 as [-> ->].
      apply check_heap_loop_Ok in H. destruct H as (-> & Htrue & Hfalse).
      split; [reflexivity |]. split; [| exact Hfalse].
      intros Hr. destruct (Htrue Hr) as (Hout & Hch). auto.
  - apply ret_Ok in H. destruct H as [-> ->]. cbn [fst snd].
    split; [reflexivity |]. split; [discriminate | auto].
Qed.

(** * The printing routines *)

Lemma PADD_back p : 16 <= p < 18446744073709551616 -> PADD p (wrap (0 - 16)) = p - 16.
Proof. intros H. unfold PADD, wrap. rewrite modulus_eq. lia. Qed.

Lemma negb_b2z (a : bool) : negb (Z.b2z a =? 0) = a.
Proof. destruct a; reflexivity. Qed.

(** [print_block] on a block of a tiled heap prints its line. *)
Lemma print_block_tiled s l c x :
  framed s -> tiles s l -> In (c, x) (layout (first_block s) l) ->
  print_block c s = Ok [line_of (c, x)] s.
Proof.
  intros Hf Ht Hin.
  pose proof (framed_bounds _ Hf) as [Hlo Hbrk].
  destruct (block_facts _ _ _ _ Hf Ht Hin) as (H1 & H2 & H3 & H4 & H5 & Hh & Hft).
  apply wp_eq. unfold print_block. consts.
  wp_go; norm.
  replace (c + (fst x - 16)) with (c + fst x - 16) by lia.
  wp_go; norm.
  replace (c + (fst x - 16)) with (c + fst x - 16) by lia.
  wp_go; norm.
  destruct (Z.eqb_spec (fst x) 0) as [E | _]; [lia |].
  wp_go. rewrite negb_b2z. auto.
Qed.

Lemma print_heap_loop_tiled s l :
  framed s -> tiles s l ->
  forall l2 l1 fuel, l = l1 ++ l2 -> (length l2 < fuel)%nat ->
  print_heap_loop fuel (first_block s + span l1) s =
  Ok (map line_of (layout (first_block s + span l1) l2) ++ [block_end (mem_brk s)]) s.
Proof.
  intros Hf Ht.
  pose proof (framed_bounds _ Hf) as [Hlo Hbrk].
  pose proof Hf as (_ & Hal & _ & _ & _ & _ & _ & Hep).
  induction l2 as [| x l2 IH]; intros l1 fuel El Hfuel.
  - rewrite app_nil_r in El. subst l1.
    destruct Ht as (Hs & _ & He). rewrite He.
    pose proof (sizes_ok_span _ Hs) as Hsp. pose proof (span_mod _ Hs) as Hsm.
    unfold first_block in He. consts.
    destruct fuel as [| fuel]; [inversion Hfuel |].
    apply wp_eq. cbn [print_heap_loop layout map app]. wp_go; norm.
    change (0 >? 0) with false. cbv iota.
    unfold print_block. wp_go; norm.
    rewrite PADD_back by lia. wp_go; norm.
    rewrite PADD_back by lia. wp_go; norm.
    change (0 =? 0) with true. cbv iota. wp_go. auto.
  - destruct fuel as [| fuel]; [inversion Hfuel |].
    assert (Hin : In (first_block s + span l1, x) (layout (first_block s) l))
      by (rewrite El; apply In_layout_mid).
    destruct (block_facts _ _ _ _ Hf Ht Hin) as (H1 & H2 & H3 & H4 & H5 & Hh & Hft).
    set (bp := first_block s + span l1) in *.
    assert (IH' : print_heap_loop fuel (bp + fst x) s =
                  Ok (map line_of (layout (bp + fst x) l2) ++ [block_end (mem_brk s)]) s).
    { replace (bp + fst x) with (first_block s + span (l1 ++ [x])).
      - apply IH; [rewrite <- app_assoc; exact El | simpl in Hfuel; lia].
      - rewrite span_app. cbn [span fst]. unfold bp. lia. }
    apply wp_eq. cbn [print_heap_loop layout map app]. wp_go; norm.
    destruct (Z.gtb_spec (fst x) 0) as [_ | Hbad]; [| lia].
    apply wp_bind. eapply wp_intro; [exact (print_block_tiled _ _ _ _ Hf Ht Hin) |].
    wp_go; norm.
    eapply wp_intro; [exact IH' |]. wp_go. auto.
Qed.

(** [print_heap] on a heap whose blocks tile the region: the title, the
    line of the prologue, one line for every block, in address order, and
    the end marker at the epilogue; the state is left as it was. *)
Theorem print_heap_lists_blocks s l fuel :
  framed s -> tiles s l -> (length l + 1 < fuel)%nat ->
  print_heap fuel s =
  Ok (heap_title (heap_start s)
      :: block_line (heap_start s) DSIZE true DSIZE true
      :: map line_of (layout (first_block s) l) ++ [block_end (mem_brk s)]) s.
Proof.
  intros Hf Ht Hfuel.
  pose proof (framed_bounds _ Hf) as [Hlo Hbrk].
  pose proof Hf as (_ & Hal & Hmax & _ & Hhs & Hph & Hpf & Hep).
  pose proof Ht as (Hs & _ & He).
  pose proof (sizes_ok_span _ Hs) as Hsp. unfold first_block in He. consts.
  destruct fuel as [| fuel]; [inversion Hfuel |].
  assert (Hloop : print_heap_loop fuel (mem_start_brk s + 32) s =
                  Ok (map line_of (layout (first_block s) l) ++ [block_end (mem_brk s)]) s).
  { pose proof (print_heap_loop_tiled s l Hf Ht l [] fuel eq_refl) as H.
    cbn [span] in H. rewrite Z.add_0_r in H.
    change (first_block s) with (mem_start_brk s + 32) in H at 1.
    apply H. lia. }
  apply wp_eq. unfold print_heap.
  apply wp_bind, wp_get_heap_start. apply wp_bind, wp_get_heap_start.
  rewrite Hhs. cbn [print_heap_loop]. wp_go; norm.
  replace (mem_start_brk s + 16 - 8) with (mem_start_brk s + 8) by lia.
  wp_go; norm. change (16 >? 0) with true. cbv iota.
  unfold print_block. wp_go; norm.
  replace (mem_start_brk s + 16 - 8) with (mem_start_brk s + 8) by lia.
  wp_go; norm.
  replace (mem_start_brk s + 16 - 8) with (mem_start_brk s + 8) by lia.
  wp_go; norm.
  replace (mem_start_brk s + 16 - 8) with (mem_start_brk s + 8) by lia.
  wp_go; norm.
  replace (mem_start_brk s + 16 + (16 - 16)) with (mem_start_brk s + 16) by lia.
  wp_go; norm.
  replace (mem_start_brk s + 16 - 8) with (mem_start_brk s + 8) by lia.
  wp_go; norm.
  replace (mem_start_brk s + 16 + (16 - 16)) with (mem_start_brk s + 16) by lia.
  wp_go; norm.
  change (16 =? 0) with false. cbv iota. wp_go; norm.
  replace (mem_start_brk s + 16 - 8) with (mem_start_brk s + 8) by lia.
  wp_go; norm.
  replace (mem_start_brk s + 16 + 16) with (mem_start_brk s + 32) by lia.
  eapply wp_intro; [exact Hloop |]. wp_go. auto.
Qed.

Lemma wrap_int_small x : - 2147483648 <= x < 2147483648 -> wrap_int x = x.
Proof. intros H. unfold wrap_int. change (2 ^ 31) with 2147483648.
  change (2 ^ 32) with 4294967296. lia. Qed.

Lemma print_free_list_loop_list s fl : forall fuel prev cur i,
  dllseg (mem s) prev cur fl NULL ->
  Forall (slot_ok s) fl ->
  0 < mem_start_brk s -> mem_brk s < 2 ^ 63 ->
  (length fl < fuel)%nat ->
  0 <= i -> i + Z.of_nat (length fl) < 2147483648 ->
  print_free_list_loop fuel i cur s = Ok (numbered i fl) s.
Proof.
  change (2 ^ 63) with 9223372036854775808.
  induction fl as [| b fl IH]; intros fuel prev cur i Hd Hok Hlo Hbrk Hfuel Hi Hlen.
  - destruct fuel as [| fuel]; [simpl in Hfuel; lia |].
    simpl in Hd. subst cur. reflexivity.
  - destruct fuel as [| fuel]; [simpl in Hfuel; lia |].
    cbn [dllseg] in Hd. destruct Hd as (-> & Hp & Hd).
    apply Forall_cons_iff in Hok. destruct Hok as [Hb Hok].
    unfold slot_ok in Hb. consts.
    cbn [length] in Hlen. rewrite Nat2Z.inj_succ in Hlen.
    apply wp_eq. cbn [print_free_list_loop numbered]. consts.
    destruct (Z.eqb_spec b 0) as [E | _]; [lia |].
    wp_go; norm.
    rewrite wrap_int_small by lia.
    eapply wp_intro.
    + apply IH with (prev := b); auto; [simpl in Hfuel; lia | lia | lia].
    + wp_go. auto.
Qed.

(** [print_free_list] on a well-formed heap with fewer than [2^31 - 1]
    free blocks, so that the [int] counter does not overflow: the title, the head, and one numbered line for every member of
    the free list, in list order; the state is left as it was. *)
Theorem print_free_list_lists_members s l fl fuel :
  wf s l fl -> Z.of_nat (length fl) < 2 ^ 31 - 1 -> (length fl < fuel)%nat ->
  print_free_list fuel s =
  Ok (free_list_title :: head_line (head s) :: numbered 1 fl) s.
Proof.
  intros Hwf Hlen Hfuel.
  pose proof (wf_sub _ _ _ Hwf) as Hsub.
  destruct Hwf as (Hf & Ht & [Hd Hnd] & Hin & Hn).
  pose proof (framed_bounds _ Hf) as [Hlo Hbrk].
  change (2 ^ 31) with 2147483648 in Hlen.
  apply wp_eq. unfold print_free_list.
  apply wp_bind, wp_get_head. apply wp_bind, wp_get_head.
  apply wp_bind. eapply wp_intro.
  - apply print_free_list_loop_list with (prev := NULL) (fl := fl);
      [ exact Hd | eapply free_slot_ok; eauto | exact Hlo
      | change (2 ^ 63) with 9223372036854775808; lia | exact Hfuel
      | lia | lia ].
  - wp_go. auto.
Qed.

(** * Sizes *)

(** The adjusted size of a request that does not wrap around is the least
    multiple of the double word that holds the request with its overhead
    and is at least the minimum block size. *)
Theorem adjust_exact n :
  0 < n -> n + OVERHEAD + (DSIZE - 1) < modulus ->
  MINSIZE <= adjust n /\ adjust n mod DSIZE = 0 /\ n + OVERHEAD <= adjust n /\
  forall k, MINSIZE <= k -> k mod DSIZE = 0 -> n + OVERHEAD <= k -> adjust n <= k.
Proof.
  rewrite modulus_eq. consts. intros Hpos Hov.
  unfold adjust. consts.
  destruct (Z.leb_spec n 16).
  - rewrite wrap_small by lia. repeat split; try lia.
  - rewrite (wrap_small (n + 16)) by lia.
    rewrite (wrap_small (n + 16 + (16 - 1))) by lia.
    rewrite wrap_small by lia. repeat split; try lia.
Qed.

(** For the 31 largest values of [size_t] the sum in the adjusted size
    wraps around: the adjusted size is [0] or [DSIZE], below the minimum
    block size and below the request. *)
Theorem adjust_wraps n :
  modulus - OVERHEAD - (DSIZE - 1) <= n < modulus ->
  adjust n = (if n <=? modulus - DSIZE then 0 else DSIZE) /\
  adjust n < MINSIZE /\ adjust n < n.
Proof.
  rewrite modulus_eq. consts. intros Hn.
  assert (E : adjust n = if n <=? 18446744073709551616 - 16 then 0 else 16).
  { unfold adjust, wrap. rewrite modulus_eq. consts.
    destruct (Z.leb_spec n 16) as [Hbad | _]; [lia |].
    destruct (Z.leb_spec n (18446744073709551616 - 16)); lia. }
  rewrite E.
  destruct (Z.leb_spec n (18446744073709551616 - 16)); repeat split; lia.
Qed.

(** * Failing initialisation *)

(** When the region has room for the framing but not for the first chunk,
    [mm_init] returns [-1]; the four words of the framing stay allocated and
    written, and the free list is empty. *)
Theorem mm_init_no_chunk lo hi m0 :
  0 < lo -> lo mod WSIZE = 0 ->
  lo + 4 * WSIZE <= hi < lo + 4 * WSIZE + CHUNKSIZE -> hi < 2 ^ 63 ->
  exists s',
    mm_init (fresh lo hi m0) = Ok (-1) s' /\
    mem_brk s' = lo + 4 * WSIZE /\ mem_start_brk s' = lo /\
    heap_start s' = lo + DSIZE /\ head s' = NULL /\
    mem s' (lo + WSIZE) = PACK OVERHEAD 1 /\
    mem s' (lo + DSIZE) = PACK OVERHEAD 1 /\
    mem s' (lo + WSIZE + DSIZE) = PACK 0 1.
Proof.
  change CHUNKSIZE with 4096. change (2 ^ 63) with 9223372036854775808. consts.
  intros Hlo Hal Hhi Hmx.
  pose proof (wp_elim mm_init
    (fun r s' =>
       r = -1 /\ mem_brk s' = lo + 4 * 8 /\ mem_start_brk s' = lo /\
       heap_start s' = lo + 16 /\ head s' = 0 /\
       mem s' (lo + 8) = PACK 16 1 /\ mem s' (lo + 16) = PACK 16 1 /\
       mem s' (lo + 8 + 16) = PACK 0 1)
    (fresh lo hi m0)) as H.
  destruct H as (r & s' & Hrun & -> & Hpost).
  - unfold mm_init. consts.
    apply wp_bind. apply wp_mem_sbrk_ok; [unfold fresh; proj_simpl; lia |].
    unfold fresh. proj_simpl.
    apply wp_bind. apply wp_set_heap_start. proj_simpl.
    destruct (Z.eqb_spec lo 0) as [E | _]; [lia |].
    wp_go.
    apply wp_bind. apply wp_set_heap_start. wp_go.
    change (CHUNKSIZE / 8) with 512.
    eapply wp_intro.
    + apply extend_heap_fail. proj_simpl. change (extend_bytes 512) with 4096. lia.
    + change (0 =? 0) with true. cbv iota. apply wp_ret. proj_simpl. upd_simpl.
      repeat split; reflexivity.
  - exists s'. split; [exact Hrun | exact Hpost].
Qed.

(** When the region has no room for the framing, the first call of the
    memory-extension primitive fails with [(void * )-1]; [mm_init] compares
    the result with null only, takes it for an address and stores through
    it. *)
Theorem mm_init_sbrk_failure lo hi m0 :
  0 <= lo < modulus -> hi < lo + 4 * WSIZE ->
  mm_init (fresh lo hi m0) = Fault SBRK_FAILED.
Proof.
  rewrite modulus_eq. consts. intros Hlo Hhi.
  unfold mm_init, bind at 1, mem_sbrk, fresh. proj_simpl. consts.
  destruct (Z.leb_spec (lo + 4 * 8) hi) as [Hbad | _]; [lia |].
  unfold bind at 1, set_heap_start.
  change (SBRK_FAILED =? 0) with false. cbv iota.
  unfold bind at 1, PUT, valid. proj_simpl.
  change SBRK_FAILED with 18446744073709551615.
  destruct (Z.leb_spec (18446744073709551615 + 8) lo) as [Hbad | _]; [lia |].
  rewrite andb_false_r. cbn [andb]. reflexivity.
Qed.

(** * Allocation and deallocation together *)

(** A request served from the free list: the run of [mm_malloc], and what
    [place] made of the block found. *)
Lemma mm_malloc_hit s l fl n :
  wf s l fl -> 0 < n -> n + 31 < 18446744073709551616 ->
  first_fit (mem s) (adjust n) fl <> NULL ->
  exists l1 sz l2 s1 l' fl1,
    l = l1 ++ (sz, false) :: l2 /\
    first_fit (mem s) (adjust n) fl = first_block s + span l1 /\
    adjust n <= sz /\
    (forall fuel, (length fl < fuel)%nat ->
                  mm_malloc fuel n s = Ok (first_fit (mem s) (adjust n) fl) s1) /\
    wf s1 l' fl1 /\ same_region s s1 /\ placed l1 sz (adjust n) l2 l'.
Proof.
  intros Hwf Hpos Hov Hne.
  destruct (adjust_small n Hpos Hov) as (Ha1 & Ha2 & Ha3 & Ha4).
  destruct (first_fit_cases (mem s) (adjust n) fl) as [[Enull _] | [Hmem Hfits]];
    [contradiction |].
  set (p := first_fit (mem s) (adjust n) fl) in *.
  destruct (free_member _ _ _ _ Hwf Hmem) as (l1 & sz & l2 & El & Ep & Esz).
  rewrite Esz in Hfits. subst l.
  pose proof (wp_place s l1 sz l2 fl p (adjust n)
    (fun _ s1 => exists l' fl1,
       wf s1 l' fl1 /\ same_region s s1 /\ placed l1 sz (adjust n) l2 l')
    Hwf Ep Ha1 Ha2 Hfits) as Hwp.
  apply wp_elim in Hwp.
  2: { intros s1 l' fl1 Hwf1 Hreg Hpl _ _. exists l', fl1. auto. }
  destruct Hwp as ([] & s1 & Hrun & l' & fl1 & Hwf1 & Hreg & Hpl).
  exists l1, sz, l2, s1, l', fl1.
  split; [reflexivity |]. split; [exact Ep |]. split; [exact Hfits |].
  split; [| auto].
  intros fuel Hfuel. unfold mm_malloc.
  destruct (Z.leb_spec n 0) as [Hbad | _]; [lia |].
  unfold bind at 1. rewrite (find_fit_wf _ _ _ _ _ Hwf Hfuel). fold p.
  destruct (Z.eqb_spec p NULL) as [E | _]; [contradiction |].
  cbn [negb]. unfold bind. rewrite Hrun. reflexivity.
Qed.

Lemma no_adj_free_around l1 sz l2 :
  no_adj_free (l1 ++ (sz, false) :: l2) ->
  snd (last l1 (OVERHEAD, true)) = true /\ snd (hd (0, true) l2) = true.
Proof.
  intros Hn. apply no_adj_free_app in Hn. destruct Hn as (_ & Hn2 & Hn).
  apply no_adj_free_cons in Hn2. destruct Hn2 as [Hn2 _]. split.
  - apply Bool.not_false_is_true. intros E. apply Hn in E. discriminate E.
  - apply Hn2. reflexivity.
Qed.

(** Allocate, then free the result: when the request is served from the
    free list, the layout of the heap is the one before the two calls, the
    break has not moved, the free list has the members it had, and the block
    that served the request is its head. *)
Theorem malloc_free_restores_layout s l fl n :
  wf s l fl -> 0 < n -> n + OVERHEAD + (DSIZE - 1) < modulus ->
  first_fit (mem s) (adjust n) fl <> NULL ->
  exists p s1 s2 fl2,
    (forall fuel, (length fl < fuel)%nat -> mm_malloc fuel n s = Ok p s1) /\
    p <> NULL /\ mm_free p s1 = Ok tt s2 /\
    wf s2 l fl2 /\ head s2 = p /\ mem_brk s2 = mem_brk s /\
    forall b, In b fl2 <-> In b fl.
Proof.
  intros Hwf Hpos Hov Hne.
  rewrite modulus_eq in Hov. consts.
  assert (Hov' : n + 31 < 18446744073709551616) by lia.
  destruct (mm_malloc_hit s l fl n Hwf Hpos Hov' Hne)
    as (l1 & sz & l2 & s1 & l' & fl1 & El & Ep & Hsz & Hrun & Hwf1 & Hreg & Hpl).
  set (p := first_fit (mem s) (adjust n) fl) in *.
  pose proof (first_block_region _ _ Hreg) as Hfb1.
  pose proof Hwf as (_ & _ & _ & Hin & Hn). rewrite El in Hn.
  destruct (no_adj_free_around _ _ _ Hn) as [Hla Hhd].
  assert (Hfree : exists s2 fl2,
             mm_free p s1 = Ok tt s2 /\ wf s2 l fl2 /\ head s2 = p /\
             same_region s1 s2).
  { destruct Hpl as [[Hsm ->] | (Hbg & nsz & l2' & -> & Hnext)].
    - pose proof (wp_mm_free s1 l1 sz l2 fl1 p
        (fun _ s2 => exists fl2, wf s2 l fl2 /\ head s2 = p /\ same_region s1 s2)
        Hwf1) as Hwp.
      apply wp_elim in Hwp.
      + destruct Hwp as ([] & s2 & Hrun2 & fl2 & Hpost). exists s2, fl2. auto.
      + rewrite Hfb1. exact Ep.
      + intros s2 l'' fl2 b' Hwf2 Hreg2 Hh Hmg.
        destruct Hmg as (l1' & psz & l2' & nsz & El'' & Eb' & Hprev & Hnext).
        destruct Hprev as [(-> & -> & _) | Hprev];
          [| rewrite Hprev, last_snoc in Hla; discriminate Hla].
        destruct Hnext as [(-> & -> & _) | Hnext];
          [| rewrite Hnext in Hhd; discriminate Hhd].
        exists fl2. replace (0 + sz + 0) with sz in El'' by lia.
        rewrite El'' in Hwf2. rewrite El.
        split; [exact Hwf2 |]. split; [| exact Hreg2].
        rewrite Hh, Eb', Hfb1. symmetry. exact Ep.
    - destruct Hnext as [(-> & -> & _) | Hnext];
        [| rewrite Hnext in Hhd; discriminate Hhd].
      pose proof (wp_mm_free s1 l1 (adjust n) ((sz - adjust n + 0, false) :: l2) fl1 p
        (fun _ s2 => exists fl2, wf s2 l fl2 /\ head s2 = p /\ same_region s1 s2)
        Hwf1) as Hwp.
      apply wp_elim in Hwp.
      + destruct Hwp as ([] & s2 & Hrun2 & fl2 & Hpost). exists s2, fl2. auto.
      + rewrite Hfb1. exact Ep.
      + intros s2 l'' fl2 b' Hwf2 Hreg2 Hh Hmg.
        destruct Hmg as (l1' & psz & l2' & nsz & El'' & Eb' & Hprev & Hnext).
        destruct Hprev as [(-> & -> & _) | Hprev];
          [| rewrite Hprev, last_snoc in Hla; discriminate Hla].
        destruct Hnext as [(_ & _ & Hx) | Hnext]; [discriminate Hx |].
        injection Hnext as <- <-.
        exists fl2.
        replace (0 + adjust n + (sz - adjust n + 0)) with sz in El'' by lia.
        rewrite El'' in Hwf2. rewrite El.
        split; [exact Hwf2 |]. split; [| exact Hreg2].
        rewrite Hh, Eb', Hfb1. symmetry. exact Ep. }
  destruct Hfree as (s2 & fl2 & Hrun2 & Hwf2 & Hh2 & Hreg2).
  pose proof (same_region_trans _ _ _ Hreg Hreg2) as Hreg02.
  exists p, s1, s2, fl2. split; [exact Hrun |]. split; [exact Hne |].
  split; [exact Hrun2 |]. split; [exact Hwf2 |]. split; [exact Hh2 |].
  split; [apply Hreg02 |].
  intros b. destruct Hwf2 as (_ & _ & _ & Hin2 & _).
  rewrite Hin2, Hin, (first_block_region _ _ Hreg02). tauto.
Qed.

(** The pointer returned by [mm_malloc] on a well-formed heap is aligned to
    the double word, and the [n] bytes requested lie inside the region,
    behind the prologue and in front of the block's footer and the
    epilogue. *)
Theorem mm_malloc_payload_in_region s l fl n :
  wf s l fl -> 0 < n -> n + OVERHEAD + (DSIZE - 1) < modulus ->
  exists p s',
    (forall fuel, (length fl < fuel)%nat -> mm_malloc fuel n s = Ok p s') /\
    (p <> NULL ->
     p mod DSIZE = 0 /\
     mem_start_brk s' + 2 * DSIZE <= p /\
     p + n <= mem_brk s' - DSIZE /\
     mem_brk s' <= mem_max_addr s' /\ mem_max_addr s' < 2 ^ 63).
Proof.
  intros Hwf Hpos Hov.
  rewrite modulus_eq in Hov. consts.
  assert (Hov' : n + 31 < 18446744073709551616) by lia.
  destruct (adjust_small n Hpos Hov') as (Ha1 & Ha2 & Ha3 & Ha4). consts.
  pose proof (wp_mm_malloc s l fl (S (length fl)) n
    (fun p s' =>
       p <> 0 ->
       p mod 16 = 0 /\ mem_start_brk s' + 2 * 16 <= p /\
       p + n <= mem_brk s' - 16 /\
       mem_brk s' <= mem_max_addr s' /\ mem_max_addr s' < 2 ^ 63)
    Hwf Hpos Hov' (Nat.lt_succ_diag_r _)) as Hwp.
  apply wp_elim in Hwp.
  - destruct Hwp as (p & s' & Hrun & Hpost). exists p, s'. split; [| exact Hpost].
    intros fuel Hfuel. eapply mm_malloc_fuel_indep; eauto.
  - intros s' l1 bsz l2 fl' p Hwf' Ep _ _ Hsz _ _ _ _ _ _.
    destruct Hwf' as (Hf' & Ht' & _).
    pose proof (block_facts _ _ _ _ Hf' Ht' (In_layout_mid _ _ _ _)) as Hb.
    rewrite <- Ep in Hb. cbn [fst] in Hb.
    destruct Hf' as (_ & _ & Hmax & Hmx & _).
    repeat split; try lia; assumption.
  - intros _ _ E. contradiction.
Qed.

(** [mm_malloc] on a well-formed heap never moves the start or the limit of
    the region and never lowers the break: the break stays where it is when
    a member of the free list fits, and moves up by exactly the larger of
    the adjusted size and [CHUNKSIZE] when none fits and the region can grow
    by that much. *)
Theorem mm_malloc_growth s l fl n :
  wf s l fl -> 0 < n -> n + OVERHEAD + (DSIZE - 1) < modulus ->
  exists p s',
    (forall fuel, (length fl < fuel)%nat -> mm_malloc fuel n s = Ok p s') /\
    mem_start_brk s' = mem_start_brk s /\ mem_max_addr s' = mem_max_addr s /\
    heap_start s' = heap_start s /\ mem_brk s' <= mem_max_addr s /\
    (first_fit (mem s) (adjust n) fl <> NULL -> mem_brk s' = mem_brk s) /\
    (first_fit (mem s) (adjust n) fl = NULL ->
     mem_brk s + max (adjust n) CHUNKSIZE <= mem_max_addr s ->
     p <> NULL /\ mem_brk s' = mem_brk s + max (adjust n) CHUNKSIZE) /\
    (first_fit (mem s) (adjust n) fl = NULL ->
     mem_max_addr s < mem_brk s + max (adjust n) CHUNKSIZE ->
     p = NULL /\ s' = s).
Proof.
  intros Hwf Hpos Hov.
  rewrite modulus_eq in Hov. consts.
  assert (Hov' : n + 31 < 18446744073709551616) by lia.
  pose proof (wp_mm_malloc s l fl (S (length fl)) n
    (fun p s' =>
       mem_start_brk s' = mem_start_brk s /\ mem_max_addr s' = mem_max_addr s /\
       heap_start s' = heap_start s /\ mem_brk s' <= mem_max_addr s /\
       (first_fit (mem s) (adjust n) fl <> 0 -> mem_brk s' = mem_brk s) /\
       (first_fit (mem s) (adjust n) fl = 0 ->
        mem_brk s + max (adjust n) CHUNKSIZE <= mem_max_addr s ->
        p <> 0 /\ mem_brk s' = mem_brk s + max (adjust n) CHUNKSIZE) /\
       (first_fit (mem s) (adjust n) fl = 0 ->
        mem_max_addr s < mem_brk s + max (adjust n) CHUNKSIZE ->
        p = 0 /\ s' = s))
    Hwf Hpos Hov' (Nat.lt_succ_diag_r _)) as Hwp.
  apply wp_elim in Hwp.
  - destruct Hwp as (p & s' & Hrun & Hpost). exists p, s'. split; [| exact Hpost].
    intros fuel Hfuel. eapply mm_malloc_fuel_indep; eauto.
  - intros s' l1 bsz l2 fl' p Hwf' Ep Hne _ _ R1 R3 R4 Hhit Hmiss.
    destruct Hwf' as ((_ & _ & Hmax & _) & _). rewrite R3 in Hmax.
    split; [exact R1 |]. split; [exact R3 |]. split; [exact R4 |].
    split; [exact Hmax |]. split; [intros H; apply Hhit; exact H |].
    split; [intros H _; split; [exact Hne | exact (Hmiss H)] |].
    intros H Hno. specialize (Hmiss H). lia.
  - intros Hnull Hno. destruct Hwf as ((_ & _ & Hmax & _) & _).
    split; [reflexivity |]. split; [reflexivity |]. split; [reflexivity |].
    split; [exact Hmax |]. split; [intros H; contradiction |].
    split; [intros _ Hroom; lia |]. intros _ _. split; reflexivity.
Qed.

(** Free, then allocate: a request that fits into the block just freed is
    served from the free block that [mm_free] left at the head of the free
    list, which starts at or in front of the block freed, and the break
    does not move. *)
Theorem free_then_malloc_reuses s l fl p sz m :
  wf s l fl -> in_alloc (first_block s) l p sz ->
  0 < m -> m + OVERHEAD <= sz ->
  exists s1 b' fuel0 s2,
    mm_free p s = Ok tt s1 /\ head s1 = b' /\ b' <= p /\
    (forall fuel, (fuel0 <= fuel)%nat -> mm_malloc fuel m s1 = Ok b' s2) /\
    mem_brk s2 = mem_brk s.
Proof.
  intros Hwf Hp Hpos Hfits.
  destruct (In_layout_split _ _ _ _ Hp) as (l1 & l2 & -> & Ep).
  pose proof Hwf as (Hf & Ht & _).
  pose proof (framed_bounds _ Hf) as [Hlo Hbrk].
  pose proof (block_facts _ _ _ _ Hf Ht Hp) as Hb. cbn [fst] in Hb.
  assert (Hov : m + 31 < 18446744073709551616) by (consts; lia).
  destruct (adjust_small m Hpos Hov) as (Ha1 & Ha2 & Ha3 & Ha4).
  assert (Hasz : adjust m <= sz) by (consts; lia).
  pose proof (wp_mm_free s l1 sz l2 fl p
    (fun _ s1 => exists l' fl' fsz,
       wf s1 l' fl' /\ head s1 <= p /\ same_region s s1 /\ sz <= fsz /\
       In (head s1, (fsz, false)) (layout (first_block s1) l'))
    Hwf Ep) as Hwp.
  apply wp_elim in Hwp.
  2: { intros s1 l' fl' b' Hwf1 Hreg Hh Hmg.
       pose proof (first_block_region _ _ Hreg) as Hfb.
       destruct Hmg as (l1' & psz & l2' & nsz & El & Eb' & Hprev & Hnext).
       pose proof (proj1 Ht) as Hs.
       assert (Hpsz : 0 <= psz /\ span l1 = span l1' + psz).
       { destruct Hprev as [(-> & -> & _) | ->]; [lia |].
         apply sizes_ok_app in Hs. destruct Hs as [Hs1 _].
         apply sizes_ok_app in Hs1. destruct Hs1 as [_ Hs1].
         apply sizes_ok_cons in Hs1. cbn [fst] in Hs1.
         rewrite span_app. cbn [span fst]. lia. }
       assert (Hnsz : 0 <= nsz).
       { destruct Hnext as [(_ & -> & _) | ->]; [lia |].
         apply sizes_ok_app in Hs. destruct Hs as [_ Hs2].
         apply sizes_ok_cons in Hs2. destruct Hs2 as [_ Hs2].
         apply sizes_ok_cons in Hs2. cbn [fst] in Hs2. lia. }
       exists l', fl', (psz + sz + nsz).
       split; [exact Hwf1 |]. split; [lia |]. split; [exact Hreg |].
       split; [lia |]. rewrite Hh, Hfb, El, Eb'. apply In_layout_mid. }
  destruct Hwp as ([] & s1 & Hrun1 & l' & fl' & fsz & Hwf1 & Hle & Hreg & Hfsz & Hin1).
  pose proof Hwf1 as (Hf1 & Ht1 & Hfl1 & _).
  pose proof (block_facts _ _ _ _ Hf1 Ht1 Hin1) as Hb1. cbn [fst snd] in Hb1.
  destruct Hb1 as (Hb1 & Hb2 & Hb3 & Hb4 & Hb5 & Hbh & _).
  assert (Hne : head s1 <> NULL) by (destruct Hf1 as (Hlo1 & _); consts; lia).
  destruct (free_list_head _ _ Hfl1 Hne) as (fl'' & Efl).
  assert (Hfit : first_fit (mem s1) (adjust m) fl' = head s1).
  { rewrite Efl. cbn [first_fit]. consts. rewrite Hbh.
    rewrite size_of_word_tag by (cbn [fst]; lia). cbn [fst].
    destruct (Z.leb_spec (adjust m) fsz); [reflexivity | lia]. }
  pose proof (wp_mm_malloc s1 l' fl' (S (length fl')) m
    (fun q s2 => q = head s1 /\ mem_brk s2 = mem_brk s1)
    Hwf1 Hpos Hov (Nat.lt_succ_diag_r _)) as Hwp.
  apply wp_elim in Hwp.
  2: { intros s2 l1' bsz l2' fl2 q _ _ _ _ _ _ _ _ Hhit _.
       rewrite Hfit in Hhit. exact (Hhit Hne). }
  2: { intros Hnull _. rewrite Hfit in Hnull. contradiction. }
  destruct Hwp as (q & s2 & Hrun2 & -> & Hbrk2).
  exists s1, (head s1), (S (length fl')), s2.
  split; [exact Hrun1 |]. split; [reflexivity |]. split; [exact Hle |].
  split.
  - intros fuel Hfuel. eapply mm_malloc_fuel_indep; eauto.
  - rewrite Hbrk2. apply Hreg.
Qed.

(** * The free list *)

(** Insert, then remove the same block: the free list is the one before the
    two calls, with the head it had; nothing but the link words of the block
    and of the members of the list has been written. *)
Theorem insert_remove_roundtrip x fl s :
  free_list s fl -> ~ In x fl -> slot_ok s x -> Forall (slot_ok s) fl ->
  0 < mem_start_brk s -> mem_brk s < 2 ^ 63 ->
  exists s1 s2,
    insert_in_explicit_list x s = Ok tt s1 /\
    remove_from_explicit_list x s1 = Ok tt s2 /\
    free_list s2 fl /\ head s2 = head s /\ same_region s s2 /\
    forall a, ~ link_slot (x :: fl) a -> mem s2 a = mem s a.
Proof.
  intros Hfl Hx Hsx Hs Hlo Hbrk.
  pose proof (wp_insert x fl s
    (fun _ s1 => free_list s1 (x :: fl) /\ same_region s s1 /\
                 forall a, ~ link_slot (x :: fl) a -> mem s1 a = mem s a)
    Hfl Hx Hsx Hs Hlo Hbrk) as Hwp.
  apply wp_elim in Hwp; [| auto].
  destruct Hwp as ([] & s1 & Hrun1 & Hfl1 & Hreg1 & Hm1).
  pose proof Hreg1 as (R1 & R2 & _).
  pose proof (wp_remove x [] fl s1
    (fun _ s2 => free_list s2 fl /\ same_region s1 s2 /\
                 forall a, ~ link_slot fl a -> mem s2 a = mem s1 a)
    Hfl1) as Hwp.
  apply wp_elim in Hwp.
  - destruct Hwp as ([] & s2 & Hrun2 & Hfl2 & Hreg2 & Hm2).
    exists s1, s2. split; [exact Hrun1 |]. split; [exact Hrun2 |].
    split; [exact Hfl2 |]. split; [| split].
    + destruct Hfl as [Hd _]. destruct Hfl2 as [Hd2 _].
      destruct fl as [| b fl']; simpl in Hd, Hd2.
      * congruence.
      * destruct Hd as [-> _]. destruct Hd2 as [-> _]. reflexivity.
    + eapply same_region_trans; eauto.
    + intros a Ha. rewrite Hm2.
      * apply Hm1. exact Ha.
      * intros Hl. apply Ha. eapply link_slot_mono; [| exact Hl].
        intros b Hb. right. exact Hb.
  - constructor; [eapply slot_ok_region; eauto |].
    eapply Forall_slot_ok_region; eauto.
  - rewrite R1. exact Hlo.
  - rewrite R2. exact Hbrk.
  - intros s2 Hfl2 Hreg2 Hm2. auto.
Qed.

(** * Fragmentation *)

Lemma free_addrs_length bp l :
  length (free_addrs bp l) = length (filter (fun x : blk => negb (snd x)) l).
Proof.
  revert bp. induction l as [| x l IH]; intros bp; [reflexivity |].
  rewrite free_addrs_cons. cbn [filter].
  destruct (snd x); cbn [negb app length]; rewrite IH; reflexivity.
Qed.

Lemma no_adj_free_count l :
  no_adj_free l ->
  (length (filter (fun x : blk => negb (snd x)) l)
   <= length (filter (fun x : blk => snd x) l)
      + (if snd (hd (0%Z, true) l) then 0 else 1))%nat.
Proof.
  induction l as [| x l IH]; intros Hn; [simpl; lia |].
  apply no_adj_free_cons in Hn. destruct Hn as [Hx Hn].
  specialize (IH Hn). cbn [filter hd].
  destruct (snd x); cbn [negb length].
  - destruct (snd (hd (0, true) l)); lia.
  - rewrite (Hx eq_refl) in IH. lia.
Qed.

(** In a well-formed heap the free list has at most one member more than
    there are allocated blocks: free blocks are separated by allocated
    ones. *)
Lemma free_list_bound s l fl :
  wf s l fl ->
  (length fl <= length (filter (fun x : blk => snd x) l) + 1)%nat.
Proof.
  intros (_ & _ & [_ Hnd] & Hin & Hn).
  assert (Hle : (length fl <= length (free_addrs (first_block s) l))%nat).
  { apply NoDup_incl_length; [exact Hnd |]. intros b Hb. apply Hin. exact Hb. }
  rewrite free_addrs_length in Hle.
  pose proof (no_adj_free_count l Hn) as Hc.
  destruct (snd (hd (0, true) l)); lia.
Qed.

(** In every state reached from a fresh region by [mm_init] followed by
    calls of [mm_malloc], with requests whose adjusted size does not wrap
    around, and of [mm_free] on allocated blocks, the free list has at most
    one member more than the heap has allocated blocks: [place] and
    [coalesce] leave no two free blocks next to each other. *)
Theorem reachable_free_list_bound lo hi m0 s :
  0 < lo -> lo mod DSIZE = 0 -> lo + 4 * WSIZE + CHUNKSIZE <= hi -> hi < 2 ^ 63 ->
  reachable lo hi m0 s ->
  exists l fl,
    wf s l fl /\
    (length fl <= length (filter (fun x : blk => snd x) l) + 1)%nat.
Proof.
  intros H1 H2 H3 H4 Hr.
  destruct (reachable_wf lo hi m0 s H1 H2 H3 H4 Hr) as (l & fl & Hwf & _).
  exists l, fl. split; [exact Hwf |]. exact (free_list_bound s l fl Hwf).
Qed.

(** * The results of this part at concrete heaps *)

Lemma demo_used_wf : wf (demo_used 100) [(128, true); (3968, false)] [65696].
Proof. eval_wf. Qed.


Lemma mm_free_keeps_allocated_witness :
  exists s' l' fl' b' fsz,
    mm_free 65568 (demo_used 100) = Ok tt s' /\ wf s' l' fl' /\
    head s' = b' /\
    In (b', (fsz, false)) (layout (first_block s') l') /\
    b' <= 65568 /\ 65568 + 128 <= b' + fsz /\
    forall c x,
      in_alloc (first_block (demo_used 100)) [(128, true); (3968, false)] c x ->
      c <> 65568 ->
      in_alloc (first_block s') l' c x /\
      forall a, c - WSIZE <= a < c + x - WSIZE ->
                mem s' a = mem (demo_used 100) a.
Proof.
  apply (mm_free_keeps_allocated (demo_used 100)
           [(128, true); (3968, false)] [65696] 65568 128).
  - exact demo_used_wf.
  - left. vm_compute. reflexivity.
Defined.

Lemma check_heap_accepts_witness :
  check_heap 3 0 (demo_heap MAX_HEAP) = Ok (true, []) (demo_heap MAX_HEAP).
Proof.
  apply (check_heap_accepts (demo_heap MAX_HEAP) [(4096, false)] 3 0).
  - exact (proj1 demo_heap_wf).
  - exact (proj1 (proj2 demo_heap_wf)).
  - simpl. lia.
Defined.

Lemma check_heap_sound_witness :
  demo_heap MAX_HEAP = demo_heap MAX_HEAP /\
  (fst (true, @nil message) = true ->
   snd (true, @nil message) = [] /\
   size_of_word (mem (demo_heap MAX_HEAP) (HDRP (heap_start (demo_heap MAX_HEAP))))
     = DSIZE /\
   alloc_of_word (mem (demo_heap MAX_HEAP) (HDRP (heap_start (demo_heap MAX_HEAP))))
     <> 0 /\
   exists n e,
     block_chain (mem (demo_heap MAX_HEAP)) n (heap_start (demo_heap MAX_HEAP)) e /\
     size_of_word (mem (demo_heap MAX_HEAP) (HDRP e)) = 0 /\
     alloc_of_word (mem (demo_heap MAX_HEAP) (HDRP e)) <> 0) /\
  (fst (true, @nil message) = false -> length (snd (true, @nil message)) = 1%nat).
Proof.
  apply (check_heap_sound 3 0 (demo_heap MAX_HEAP) (true, []) (demo_heap MAX_HEAP)).
  vm_compute. reflexivity.
Defined.

Lemma print_heap_lists_blocks_witness :
  print_heap 3 (demo_heap MAX_HEAP) =
  Ok [heap_title 65552; block_line 65552 16 true 16 true;
      block_line 65568 4096 false 4096 false; block_end 69664]
     (demo_heap MAX_HEAP).
Proof.
  apply (print_heap_lists_blocks (demo_heap MAX_HEAP) [(4096, false)] 3).
  - exact (proj1 demo_heap_wf).
  - exact (proj1 (proj2 demo_heap_wf)).
  - simpl. lia.
Defined.

Lemma print_free_list_lists_members_witness :
  print_free_list 2 (demo_heap MAX_HEAP) =
  Ok [free_list_title; head_line 65568; element_line 1 65568] (demo_heap MAX_HEAP).
Proof.
  apply (print_free_list_lists_members (demo_heap MAX_HEAP) [(4096, false)] [65568] 2).
  - exact demo_heap_wf.
  - vm_compute. reflexivity.
  - simpl. lia.
Defined.

Lemma adjust_exact_witness :
  MINSIZE <= adjust 100 /\ adjust 100 mod DSIZE = 0 /\ 100 + OVERHEAD <= adjust 100 /\
  forall k, MINSIZE <= k -> k mod DSIZE = 0 -> 100 + OVERHEAD <= k -> adjust 100 <= k.
Proof. apply (adjust_exact 100); [lia | vm_compute; reflexivity]. Defined.

Lemma adjust_wraps_witness :
  adjust (modulus - 16) = (if modulus - 16 <=? modulus - DSIZE then 0 else DSIZE) /\
  adjust (modulus - 16) < MINSIZE /\ adjust (modulus - 16) < modulus - 16.
Proof.
  apply (adjust_wraps (modulus - 16)).
  split; vm_compute; [discriminate | reflexivity].
Defined.

Lemma mm_init_no_chunk_witness :
  exists s',
    mm_init (fresh 65536 (65536 + 100) (fun _ => 0)) = Ok (-1) s' /\
    mem_brk s' = 65536 + 4 * WSIZE /\ mem_start_brk s' = 65536 /\
    heap_start s' = 65536 + DSIZE /\ head s' = NULL /\
    mem s' (65536 + WSIZE) = PACK OVERHEAD 1 /\
    mem s' (65536 + DSIZE) = PACK OVERHEAD 1 /\
    mem s' (65536 + WSIZE + DSIZE) = PACK 0 1.
Proof.
  apply (mm_init_no_chunk 65536 (65536 + 100) (fun _ => 0)).
  - lia.
  - vm_compute. reflexivity.
  - split; vm_compute; [discriminate | reflexivity].
  - vm_compute. reflexivity.
Defined.

Lemma mm_init_sbrk_failure_witness :
  mm_init (fresh 65536 (65536 + 16) (fun _ => 0)) = Fault SBRK_FAILED.
Proof.
  apply (mm_init_sbrk_failure 65536 (65536 + 16) (fun _ => 0)).
  - split; vm_compute; [discriminate | reflexivity].
  - vm_compute. reflexivity.
Defined.

Lemma malloc_free_restores_layout_witness :
  exists p s1 s2 fl2,
    (forall fuel, (length [65568%Z] < fuel)%nat ->
                  mm_malloc fuel 100 (demo_heap MAX_HEAP) = Ok p s1) /\
    p <> NULL /\ mm_free p s1 = Ok tt s2 /\
    wf s2 [(4096, false)] fl2 /\ head s2 = p /\
    mem_brk s2 = mem_brk (demo_heap MAX_HEAP) /\
    forall b, In b fl2 <-> In b [65568].
Proof.
  apply (malloc_free_restores_layout (demo_heap MAX_HEAP) [(4096, false)] [65568] 100).
  - exact demo_heap_wf.
  - lia.
  - vm_compute. reflexivity.
  - vm_compute. discriminate.
Defined.

Lemma mm_malloc_payload_in_region_witness :
  exists p s',
    (forall fuel, (length [65568%Z] < fuel)%nat ->
                  mm_malloc fuel 100 (demo_heap MAX_HEAP) = Ok p s') /\
    (p <> NULL ->
     p mod DSIZE = 0 /\
     mem_start_brk s' + 2 * DSIZE <= p /\
     p + 100 <= mem_brk s' - DSIZE /\
     mem_brk s' <= mem_max_addr s' /\ mem_max_addr s' < 2 ^ 63).
Proof.
  apply (mm_malloc_payload_in_region (demo_heap MAX_HEAP) [(4096, false)] [65568] 100).
  - exact demo_heap_wf.
  - lia.
  - vm_compute. reflexivity.
Defined.

Lemma mm_malloc_growth_witness :
  exists p s',
    (forall fuel, (length [65696%Z] < fuel)%nat ->
                  mm_malloc fuel 5000 (demo_used 100) = Ok p s') /\
    mem_start_brk s' = mem_start_brk (demo_used 100) /\
    mem_max_addr s' = mem_max_addr (demo_used 100) /\
    heap_start s' = heap_start (demo_used 100) /\
    mem_brk s' <= mem_max_addr (demo_used 100) /\
    (first_fit (mem (demo_used 100)) (adjust 5000) [65696] <> NULL ->
     mem_brk s' = mem_brk (demo_used 100)) /\
    (first_fit (mem (demo_used 100)) (adjust 5000) [65696] = NULL ->
     mem_brk (demo_used 100) + max (adjust 5000) CHUNKSIZE
       <= mem_max_addr (demo_used 100) ->
     p <> NULL /\
     mem_brk s' = mem_brk (demo_used 100) + max (adjust 5000) CHUNKSIZE) /\
    (first_fit (mem (demo_used 100)) (adjust 5000) [65696] = NULL ->
     mem_max_addr (demo_used 100)
       < mem_brk (demo_used 100) + max (adjust 5000) CHUNKSIZE ->
     p = NULL /\ s' = demo_used 100).
Proof.
  apply (mm_malloc_growth (demo_used 100) [(128, true); (3968, false)] [65696] 5000).
  - exact demo_used_wf.
  - lia.
  - vm_compute. reflexivity.
Defined.

Lemma free_then_malloc_reuses_witness :
  exists s1 b' fuel0 s2,
    mm_free 65568 (demo_used 100) = Ok tt s1 /\ head s1 = b' /\ b' <= 65568 /\
    (forall fuel, (fuel0 <= fuel)%nat -> mm_malloc fuel 100 s1 = Ok b' s2) /\
    mem_brk s2 = mem_brk (demo_used 100).
Proof.
  apply (free_then_malloc_reuses (demo_used 100)
           [(128, true); (3968, false)] [65696] 65568 128 100).
  - exact demo_used_wf.
  - left. vm_compute. reflexivity.
  - lia.
  - vm_compute. discriminate.
Defined.

Lemma insert_remove_roundtrip_witness :
  exists s1 s2,
    insert_in_explicit_list 65568 demo_retagged = Ok tt s1 /\
    remove_from_explicit_list 65568 s1 = Ok tt s2 /\
    free_list s2 [65696] /\ head s2 = head demo_retagged /\
    same_region demo_retagged s2 /\
    forall a, ~ link_slot [65568; 65696] a -> mem s2 a = mem demo_retagged a.
Proof.
  apply (insert_remove_roundtrip 65568 [65696] demo_retagged).
  - unfold free_list. split; eval_prop.
  - eval_prop.
  - unfold slot_ok. eval_prop.
  - repeat constructor; eval_prop.
  - eval_prop.
  - eval_prop.
Defined.

Lemma reachable_free_list_bound_witness :
  exists l fl,
    wf (demo_used 100) l fl /\
    (length fl <= length (filter (fun x : blk => snd x) l) + 1)%nat.
Proof.
  apply (reachable_free_list_bound 65536 (65536 + MAX_HEAP) (fun _ => 0)
           (demo_used 100)); try eval_prop.
  exact demo_used_reachable.
Defined.
